(** * obsFolderLister: breadth-first listing of hidden folders

    A shallow embedding of [src/obsFolderLister.ts] and the properties of
    its three exported functions, [listFilesInObsFolder],
    [listFilesByAdapterPaths] and [getHiddenAllowListRoots].

    Conventions of the embedding.
    - A JavaScript string is the list of its UTF-16 code units.
    - An [async] function is a function into [Result]: [Err] is a rejected
      promise, [Ok] a resolved one.  [Promise.all] over a chunk resolves
      when every member does, and otherwise rejects with the rejection that
      settles first; the vault says when the callback of a path settles.
      [vault.adapter.list] may reject, like [statFix].
    - The two [while] loops over the work queue need not terminate (the
      storage may list a folder among its own descendants), so each outer
      iteration spends one unit of [fuel]; [None] is "out of fuel". *)

From Stdlib Require Import List NArith ZArith String Ascii Bool Arith Lia.
Import ListNotations.

(** ** JavaScript strings *)

Module JS.

Definition code_unit := N.
Definition jsstring := list code_unit.

(** A string literal of the source, as code units. *)
Definition lit (s : string) : jsstring :=
  List.map N_of_ascii (list_ascii_of_string s).

(** [a === b] on strings. *)
Fixpoint eqb (a b : jsstring) : bool :=
  match a, b with
  | [], [] => true
  | c :: a', d :: b' => N.eqb c d && eqb a' b'
  | _, _ => false
  end.

(** [s.startsWith(p)] *)
Fixpoint startsWith (s p : jsstring) {struct p} : bool :=
  match p, s with
  | [], _ => true
  | c :: p', d :: s' => N.eqb d c && startsWith s' p'
  | _ :: _, [] => false
  end.

(** [s.endsWith(p)] *)
Definition endsWith (s p : jsstring) : bool :=
  startsWith (rev s) (rev p).

(** [s.slice(n)] for [0 <= n]. *)
Definition slice (s : jsstring) (n : nat) : jsstring := skipn n s.

(** The code units that [String.prototype.trim] strips: ECMAScript's
    WhiteSpace and LineTerminator productions. *)
Definition isWhiteSpace (c : code_unit) : bool :=
  existsb (N.eqb c)
    [9; 10; 11; 12; 13; 32; 160; 5760; 8232; 8233; 8239; 8287; 12288; 65279]%N
  || ((8192 <=? c)%N && (c <=? 8202)%N).

Fixpoint trimStart (s : jsstring) : jsstring :=
  match s with
  | [] => []
  | c :: s' => if isWhiteSpace c then trimStart s' else s
  end.

Definition trimEnd (s : jsstring) : jsstring := rev (trimStart (rev s)).

(** [s.trim()] *)
Definition trim (s : jsstring) : jsstring := trimEnd (trimStart s).

(** [s.split(sep)] for a separator of one code unit. *)
Fixpoint split (s : jsstring) (sep : code_unit) : list jsstring :=
  match s with
  | [] => [[]]
  | c :: s' =>
      if N.eqb c sep then [] :: split s' sep
      else match split s' sep with
           | part :: parts => (c :: part) :: parts
           | [] => [[c]]
           end
  end.

(** [Array.from(new Set(xs))]: the first occurrence of each string, in
    insertion order. *)
Fixpoint uniqueFrom (seen xs : list jsstring) : list jsstring :=
  match xs with
  | [] => []
  | x :: xs' =>
      if existsb (eqb x) seen then uniqueFrom seen xs'
      else x :: uniqueFrom (x :: seen) xs'
  end.

Definition arrayFromSet (xs : list jsstring) : list jsstring :=
  uniqueFrom [] xs.

(** lodash [chunk(array, size)]. *)
Fixpoint chunkFuel {A : Type} (fuel : nat) (array : list A) (size : nat)
  : list (list A) :=
  match fuel, array with
  | _, [] => []
  | O, _ :: _ => []
  | S fuel', _ :: _ =>
      firstn size array :: chunkFuel fuel' (skipn size array) size
  end.

Definition chunk {A : Type} (array : list A) (size : nat) : list (list A) :=
  match size with
  | O => []
  | S _ => chunkFuel (List.length array) array size
  end.

End JS.

Import JS.

Definition slash : code_unit := 47%N.
Definition backslash : code_unit := 92%N.

(** ** Results of asynchronous calls *)

Inductive Error : Type :=
| ListingHiddenFolderFailed
    (* Error("something goes wrong while listing hidden folder") *)
| LastModifiedTimeZero (configDir x : jsstring)
    (* Error(`File in Obsidian ${configDir} has last modified time 0: ${x}, ...`) *)
| StatRejected (x : jsstring)
    (* the rejection of statFix(vault, x), not caught *)
| ListRejected (x : jsstring)
    (* the rejection of vault.adapter.list(x) *)
| TypeErrorReadingType (x : jsstring).
    (* statRes.type where statRes is undefined or null *)

Inductive Result (A : Type) : Type :=
| Ok (a : A)
| Err (e : Error).

Arguments Ok {A} a.
Arguments Err {A} e.

Definition bind {A B : Type} (r : Result A) (k : A -> Result B) : Result B :=
  match r with
  | Ok a => k a
  | Err e => Err e
  end.

Notation "x <- r ;; k" := (bind r (fun x => k))
  (at level 61, r at next level, right associativity).

(** [await Promise.all(xs.map(f))]: the values in array order when every
    member resolves, and otherwise the rejection that settles first.
    [settles] gives the instant at which the promise of a member settles;
    of two rejections that settle together the one earlier in the array is
    taken. *)
Fixpoint firstRejection {A B : Type} (settles : A -> nat)
  (f : A -> Result B) (xs : list A) : option (nat * Error) :=
  match xs with
  | [] => None
  | x :: xs' =>
      match f x, firstRejection settles f xs' with
      | Ok _, later => later
      | Err e, None => Some (settles x, e)
      | Err e, Some (t, e') =>
          if t <? settles x then Some (t, e') else Some (settles x, e)
      end
  end.

Fixpoint resolvedValues {A B : Type} (f : A -> Result B) (xs : list A)
  : list B :=
  match xs with
  | [] => []
  | x :: xs' =>
      match f x with
      | Ok y => y :: resolvedValues f xs'
      | Err _ => resolvedValues f xs'
      end
  end.

Definition promiseAll {A B : Type} (settles : A -> nat)
  (f : A -> Result B) (xs : list A) : Result (list B) :=
  match firstRejection settles f xs with
  | Some (_, e) => Err e
  | None => Ok (resolvedValues f xs)
  end.

(** ** The storage, as the listers see it *)

(** What [vault.adapter.stat] resolves to. *)
Record Stat : Type := mkStat {
  type : jsstring;
  mtime : option Z;      (* [None]: undefined or null *)
  size : Z
}.

(** The three ways a call [await statFix(vault, x)] can end.  [statFix]
    belongs to [./misc]; both listers guard against a path without
    metadata: [listFilesInObsFolder] tests the value for undefined and
    null, [listFilesByAdapterPaths] catches the rejection and then reads
    the value without a test. *)
Inductive StatOutcome : Type :=
| Rejected                       (* the promise rejects *)
| Nullish                        (* it resolves to undefined or null *)
| Resolved (statRes : Stat).

(** [ListedFiles] of the obsidian API. *)
Record ListedFiles : Type := mkListed {
  folders : list jsstring;
  files : list jsstring
}.

(** A vault is what the two queries made on it answer, and when.
    [adapter_list] is [vault.adapter.list], [None] being a rejection; it is
    only called on folders, and neither lister handles its rejection.
    [settles] is the instant at which the callback of [singleChunk.map]
    settles for a path, which decides the rejection a failing
    [Promise.all] reports. *)
Record Vault : Type := mkVault {
  statFix : jsstring -> StatOutcome;
  adapter_list : jsstring -> option ListedFiles;
  settles : jsstring -> nat
}.

(** [Entity] of [./baseTypes], with the fields the listers fill. *)
Record Entity : Type := mkEntity {
  key : jsstring;
  keyRaw : jsstring;
  mtimeCli : option Z;
  mtimeSvr : option Z;
  esize : Z;             (* size *)
  sizeRaw : Z
}.

(** The object each fetch returns. *)
Record Fetched : Type := mkFetched {
  itself : Entity;
  children : option ListedFiles   (* [None]: undefined *)
}.

(** ** The FIFO queue of [@fyears/tsqueue]

    [push] adds at the back and [pop] takes from the front. *)

Module Queue.

Definition t := list jsstring.

Definition make (xs : list jsstring) : t := xs.
Definition length (q : t) : nat := List.length q.
Definition push (q : t) (x : jsstring) : t := q ++ [x].
Definition pop (q : t) : option jsstring * t :=
  match q with
  | [] => (None, [])
  | x :: q' => (Some x, q')
  end.

End Queue.

(** [while (q.length > 0) { itemsToFetch.push(q.pop()!) }]: each turn pops
    one element, so the length of the queue bounds the turns. *)
Fixpoint drainTurns (turns : nat) (q : Queue.t) (itemsToFetch : list jsstring)
  : list jsstring * Queue.t :=
  match turns with
  | O => (itemsToFetch, q)
  | S turns' =>
      match Queue.pop q with
      | (Some x, q') => drainTurns turns' q' (itemsToFetch ++ [x])
      | (None, q') => (itemsToFetch, q')
      end
  end.

Definition drain (q : Queue.t) (itemsToFetch : list jsstring)
  : list jsstring * Queue.t :=
  drainTurns (Queue.length q) q itemsToFetch.

Definition CHUNK_SIZE : nat := 10.

(** ** Plugin directory tests *)

Definition isPluginDirItself (x pluginId : jsstring) : bool :=
  JS.eqb x pluginId
  || JS.eqb x (pluginId ++ [slash])
  || endsWith x (slash :: pluginId)
  || endsWith x (slash :: pluginId ++ [slash]).

Definition reqFiles : list jsstring :=
  [lit "data.json"; lit "main.js"; lit "manifest.json"; lit ".gitignore";
   lit "styles.css"].

Definition isLikelyPluginSubFiles (x : jsstring) : bool :=
  existsb (fun iterator => JS.eqb x iterator || endsWith x (slash :: iterator))
    reqFiles.

(** ** The literal prefix of a pattern *)

Definition isRegexMetaChar (ch : code_unit) : bool :=
  existsb (N.eqb ch) (lit ".+*?^$()[]{}|\").

(** The [for] loop of [extractLiteralPrefix], from index [i] on: [rest] is
    what remains of [s] at [i]. *)
Fixpoint scanLiteral (escaped : bool) (out rest : jsstring) : jsstring :=
  match rest with
  | [] => out
  | ch :: rest' =>
      if escaped then scanLiteral false (out ++ [ch]) rest'
      else if N.eqb ch backslash then scanLiteral true out rest'
      else if isRegexMetaChar ch then out
      else scanLiteral false (out ++ [ch]) rest'
  end.

Definition extractLiteralPrefix (pattern : jsstring) : jsstring :=
  let s := trim pattern in
  let s := if startsWith s (lit "^") then slice s 1 else s in
  let s := if startsWith s (lit "./") then slice s 2 else s in
  let '(out, startIndex) :=
    if startsWith s (lit "\.") then (lit ".", 2)
    else if startsWith s (lit ".") then (lit ".", 1)
    else ([], 0) in
  scanLiteral false out (skipn startIndex s).

Definition isHiddenPathPrefix (p : jsstring) : bool :=
  if startsWith p (lit ".") then true
  else existsb (fun part => startsWith part (lit ".")) (split p slash).

(** [onlyAllowPaths ?? []]: [None] is an undefined argument. *)
Definition getHiddenAllowListRoots (onlyAllowPaths : option (list jsstring))
  : list jsstring :=
  let roots :=
    fold_left
      (fun roots raw =>
         let trimmed := trim raw in
         if JS.eqb trimmed [] then roots
         else
           let prefix := extractLiteralPrefix trimmed in
           if (1 <? List.length prefix) && isHiddenPathPrefix prefix
           then roots ++ [prefix]
           else roots)
      (match onlyAllowPaths with Some ps => ps | None => [] end)
      [] in
  arrayFromSet roots.

(** ** The two listers *)

(** The entity built from a path and its metadata, the same in both
    listers: folders get a trailing slash. *)
Definition isFolderStat (statRes : Stat) : bool :=
  JS.eqb (type statRes) (lit "folder").

Definition entityOf (x : jsstring) (statRes : Stat) : Entity :=
  let isFolder := isFolderStat statRes in
  {| key := if isFolder then x ++ [slash] else x;
     keyRaw := if isFolder then x ++ [slash] else x;
     mtimeCli := mtime statRes;
     mtimeSvr := mtime statRes;
     esize := size statRes;
     sizeRaw := size statRes |}.

(** [statRes.mtime === undefined || statRes.mtime === null ||
    statRes.mtime === 0] *)
Definition mtimeMissingOrZero (statRes : Stat) : bool :=
  match mtime statRes with
  | None => true
  | Some m => (m =? 0)%Z
  end.

Definition reservedNames : list jsstring :=
  [lit "workspace"; lit "workspace.json"].

(** [children = await vault.adapter.list(x)] *)
Definition listChildren (vault : Vault) (x : jsstring)
  : Result (option ListedFiles) :=
  match adapter_list vault x with
  | Some listed => Ok (Some listed)
  | None => Err (ListRejected x)
  end.

Section Listers.

(** [isSpecialFolderNameToSkip] is imported from [./misc]; the listers
    are parametric in it. *)
Variable isSpecialFolderNameToSkip : jsstring -> list jsstring -> bool.

(** *** [listFilesInObsFolder] *)

(** The callback of [singleChunk.map]. *)
Definition fetchObs (configDir : jsstring) (vault : Vault) (x : jsstring)
  : Result Fetched :=
  match statFix vault x with
  | Rejected => Err (StatRejected x)
  | Nullish => Err ListingHiddenFolderFailed
  | Resolved statRes =>
      let isFolder := isFolderStat statRes in
      children <- (if isFolder then listChildren vault x else Ok None) ;;
      if negb isFolder && mtimeMissingOrZero statRes
      then Err (LastModifiedTimeZero configDir x)
      else Ok {| itself := entityOf x statRes; children := children |}
  end.

(** One of the two inner [for] loops over the children of an item, with
    its two [continue]s. *)
Definition pushChildrenObs (isInsideSelfPlugin : bool)
  (names : list jsstring) (q : Queue.t) : Queue.t :=
  fold_left
    (fun q iter2 =>
       if isSpecialFolderNameToSkip iter2 reservedNames then q
       else if isInsideSelfPlugin && negb (isLikelyPluginSubFiles iter2)
            then q
            else Queue.push q iter2)
    names q.

(** The body of [for (const iter of r2)]. *)
Definition consumeObs (pluginId : jsstring)
  (st : Queue.t * list Entity) (iter : Fetched) : Queue.t * list Entity :=
  let '(q, contents) := st in
  let contents := contents ++ [itself iter] in
  let isInsideSelfPlugin := isPluginDirItself (key (itself iter)) pluginId in
  match children iter with
  | Some ch =>
      let q := pushChildrenObs isInsideSelfPlugin (folders ch) q in
      let q := pushChildrenObs isInsideSelfPlugin (files ch) q in
      (q, contents)
  | None => (q, contents)
  end.

(** [for (const singleChunk of itemsToFetchChunks)]; lodash's [flatten]
    leaves an array of objects as it is. *)
Fixpoint chunksObs (configDir : jsstring) (vault : Vault)
  (pluginId : jsstring) (itemsToFetchChunks : list (list jsstring))
  (st : Queue.t * list Entity) : Result (Queue.t * list Entity) :=
  match itemsToFetchChunks with
  | [] => Ok st
  | singleChunk :: rest =>
      r2 <- promiseAll (settles vault) (fetchObs configDir vault)
              singleChunk ;;
      chunksObs configDir vault pluginId rest
        (fold_left (consumeObs pluginId) r2 st)
  end.

(** One round of the outer [while], up to the test on [bookmarksOnly]. *)
Definition roundObs (configDir : jsstring) (vault : Vault)
  (pluginId : jsstring) (q : Queue.t) (contents : list Entity)
  : Result (Queue.t * list Entity) :=
  let '(itemsToFetch, q) := drain q [] in
  chunksObs configDir vault pluginId (chunk itemsToFetch CHUNK_SIZE)
    (q, contents).

(** The outer [while (q.length > 0)]; the result is [contents] when the
    loop is left. *)
Fixpoint loopObs (fuel : nat) (configDir : jsstring) (vault : Vault)
  (pluginId : jsstring) (bookmarksOnly : bool)
  (q : Queue.t) (contents : list Entity) (iterRound : nat)
  : option (Result (list Entity)) :=
  match q with
  | [] => Some (Ok contents)
  | _ :: _ =>
      match fuel with
      | O => None
      | S fuel' =>
          match roundObs configDir vault pluginId q contents with
          | Err e => Some (Err e)
          | Ok (q', contents') =>
              if bookmarksOnly && (1 <? iterRound)
              then Some (Ok contents')
              else loopObs fuel' configDir vault pluginId bookmarksOnly
                     q' contents' (S iterRound)
          end
      end
  end.

Definition isRootOrBookmarks (configDir : jsstring) (e : Entity) : bool :=
  JS.eqb (key e) (configDir ++ [slash])
  || JS.eqb (key e) (configDir ++ lit "/bookmarks.json").

Definition listFilesInObsFolder (fuel : nat) (configDir : jsstring)
  (vault : Vault) (pluginId : jsstring) (bookmarksOnly : bool)
  : option (Result (list Entity)) :=
  match
    loopObs fuel configDir vault pluginId bookmarksOnly
      (Queue.make [configDir]) [] 0
  with
  | None => None
  | Some (Err e) => Some (Err e)
  | Some (Ok contents) =>
      Some (Ok (if bookmarksOnly
                then filter (isRootOrBookmarks configDir) contents
                else contents))
  end.

(** *** [listFilesByAdapterPaths] *)

(** The callback of [singleChunk.map]: only the call of [statFix] is
    inside the [try]. *)
Definition fetchAdapter (vault : Vault) (x : jsstring)
  : Result (option Fetched) :=
  match statFix vault x with
  | Rejected => Ok None
  | Nullish => Err (TypeErrorReadingType x)
  | Resolved statRes =>
      let isFolder := isFolderStat statRes in
      children <- (if isFolder then listChildren vault x else Ok None) ;;
      Ok (Some {| itself := entityOf x statRes; children := children |})
  end.

Definition pushChildrenAdapter (names : list jsstring) (q : Queue.t)
  : Queue.t :=
  fold_left (fun q iter2 => Queue.push q iter2) names q.

Definition consumeAdapter (st : Queue.t * list Entity)
  (iter : option Fetched) : Queue.t * list Entity :=
  let '(q, contents) := st in
  match iter with
  | None => (q, contents)
  | Some iter =>
      let contents := contents ++ [itself iter] in
      match children iter with
      | Some ch =>
          let q := pushChildrenAdapter (folders ch) q in
          let q := pushChildrenAdapter (files ch) q in
          (q, contents)
      | None => (q, contents)
      end
  end.

Fixpoint chunksAdapter (vault : Vault)
  (itemsToFetchChunks : list (list jsstring))
  (st : Queue.t * list Entity) : Result (Queue.t * list Entity) :=
  match itemsToFetchChunks with
  | [] => Ok st
  | singleChunk :: rest =>
      r2 <- promiseAll (settles vault) (fetchAdapter vault) singleChunk ;;
      chunksAdapter vault rest (fold_left consumeAdapter r2 st)
  end.

Definition roundAdapter (vault : Vault) (q : Queue.t)
  (contents : list Entity) : Result (Queue.t * list Entity) :=
  let '(itemsToFetch, q) := drain q [] in
  chunksAdapter vault (chunk itemsToFetch CHUNK_SIZE) (q, contents).

Fixpoint loopAdapter (fuel : nat) (vault : Vault)
  (q : Queue.t) (contents : list Entity) : option (Result (list Entity)) :=
  match q with
  | [] => Some (Ok contents)
  | _ :: _ =>
      match fuel with
      | O => None
      | S fuel' =>
          match roundAdapter vault q contents with
          | Err e => Some (Err e)
          | Ok (q', contents') => loopAdapter fuel' vault q' contents'
          end
      end
  end.

(** [Array.from(new Set(roots)).map((r) => r.trim()).filter((r) => r !== "")] *)
Definition uniqueRoots (roots : list jsstring) : list jsstring :=
  filter (fun r => negb (JS.eqb r []))
    (List.map trim (arrayFromSet roots)).

Definition listFilesByAdapterPaths (fuel : nat) (roots : list jsstring)
  (vault : Vault) : option (Result (list Entity)) :=
  loopAdapter fuel vault (Queue.make (uniqueRoots roots)) [].

End Listers.

(** ** Notions the properties are stated with *)

(** Modelled from the spec: [isSpecialFolderNameToSkip] of [./misc], which
    is not part of this file.  Section 6 gives its contract: true if the
    name equals an entry of the reserved list or ends with a slash followed
    by the entry. *)
Definition specialNameSkipPredicate (name : jsstring)
  (reservedList : list jsstring) : bool :=
  existsb (fun entry => JS.eqb name entry || endsWith name (slash :: entry))
    reservedList.

(** The two halves of that contract, for an arbitrary predicate. *)
Definition skipsReserved (skip : jsstring -> list jsstring -> bool) : Prop :=
  forall name reservedList,
    specialNameSkipPredicate name reservedList = true ->
    skip name reservedList = true.

Definition skipsOnlyReserved (skip : jsstring -> list jsstring -> bool)
  : Prop :=
  forall name reservedList,
    skip name reservedList = true ->
    specialNameSkipPredicate name reservedList = true.

(** The skip predicate holds of none of the plugin's known files. *)
Definition sparesPluginFiles (skip : jsstring -> list jsstring -> bool)
  : Prop :=
  forall name,
    isLikelyPluginSubFiles name = true -> skip name reservedNames = false.

(** A key that is, or ends with a slash and, [workspace] or
    [workspace.json]. *)
Definition isReservedKey (k : jsstring) : bool :=
  specialNameSkipPredicate k reservedNames.

(** The test a child name passes to be pushed by [pushChildrenObs]. *)
Definition keepChild (skip : jsstring -> list jsstring -> bool)
  (isInsideSelfPlugin : bool) (iter2 : jsstring) : bool :=
  negb (skip iter2 reservedNames)
  && negb (isInsideSelfPlugin && negb (isLikelyPluginSubFiles iter2)).

Definition childrenOf (vault : Vault) (x : jsstring) : list jsstring :=
  match adapter_list vault x with
  | Some listed => folders listed ++ files listed
  | None => []
  end.

(** A path whose entity the final filter of the bookmarks-only mode can
    keep: the key of an entity is its path, followed by a slash if it is a
    folder. *)
Definition canBeKept (configDir x : jsstring) : bool :=
  JS.eqb x configDir
  || JS.eqb x (configDir ++ [slash])
  || JS.eqb x (configDir ++ lit "/bookmarks.json").

(** The storage names the bookmarks of [configDir] once: the listing of
    [configDir] names no path twice, and neither it nor the listing of a
    path it names holds [configDir] or [configDir/], nor, but for that of
    [configDir] itself, [configDir/bookmarks.json]. *)
Definition listsBookmarksOnce (vault : Vault) (configDir : jsstring) : Prop :=
  NoDup (childrenOf vault configDir)
  /\ forall p c,
       p = configDir \/ In p (childrenOf vault configDir) ->
       In c (childrenOf vault p) ->
       c <> configDir
       /\ c <> configDir ++ [slash]
       /\ (c = configDir ++ lit "/bookmarks.json" -> p = configDir).

(** The paths [listFilesInObsFolder] puts in its queue when nothing stops
    it: the root, and the children of a folder in the queue that pass
    [keepChild]. *)
Inductive enqueuedObs (skip : jsstring -> list jsstring -> bool)
  (vault : Vault) (pluginId configDir : jsstring) : jsstring -> Prop :=
| enqueued_root : enqueuedObs skip vault pluginId configDir configDir
| enqueued_child (x : jsstring) (statRes : Stat) (c : jsstring) :
    enqueuedObs skip vault pluginId configDir x ->
    statFix vault x = Resolved statRes ->
    isFolderStat statRes = true ->
    In c (childrenOf vault x) ->
    keepChild skip (isPluginDirItself (x ++ [slash]) pluginId) c = true ->
    enqueuedObs skip vault pluginId configDir c.

(** The paths reachable from the seeded roots of
    [listFilesByAdapterPaths]. *)
Inductive reachableAdapter (vault : Vault) (roots : list jsstring)
  : jsstring -> Prop :=
| reachable_root (x : jsstring) :
    In x (uniqueRoots roots) -> reachableAdapter vault roots x
| reachable_child (y : jsstring) (statRes : Stat) (x : jsstring) :
    reachableAdapter vault roots y ->
    statFix vault y = Resolved statRes ->
    isFolderStat statRes = true ->
    In x (childrenOf vault y) ->
    reachableAdapter vault roots x.

(** Breadth-first rounds in general: a round maps the queue and the
    contents to the next queue and the grown contents, or fails. *)
Section Rounds.

Variable round :
  Queue.t -> list Entity -> Result (Queue.t * list Entity).

(** At most [n] rounds, fewer when the queue runs empty. *)
Fixpoint levelsOf (n : nat) (q : Queue.t) (contents : list Entity)
  : Result (Queue.t * list Entity) :=
  match n, q with
  | O, _ => Ok (q, contents)
  | S _, [] => Ok (q, contents)
  | S n', _ :: _ =>
      st <- round q contents ;;
      levelsOf n' (fst st) (snd st)
  end.

(** Rounds until the queue is empty or [stop] holds of the round
    counter after a round. *)
Fixpoint loopOf (stop : nat -> bool) (fuel : nat) (q : Queue.t)
  (contents : list Entity) (iterRound : nat)
  : option (Result (list Entity)) :=
  match q with
  | [] => Some (Ok contents)
  | _ :: _ =>
      match fuel with
      | O => None
      | S fuel' =>
          match round q contents with
          | Err e => Some (Err e)
          | Ok (q', contents') =>
              if stop iterRound then Some (Ok contents')
              else loopOf stop fuel' q' contents' (S iterRound)
          end
      end
  end.

End Rounds.

(** The members of a group awaited one after the other: the values in
    array order, or the first failure in array order.  It agrees with
    [promiseAll] on whether the group fails and on the values. *)
Fixpoint awaitInOrder {A B : Type} (f : A -> Result B) (xs : list A)
  : Result (list B) :=
  match xs with
  | [] => Ok []
  | x :: xs' =>
      y <- f x ;;
      ys <- awaitInOrder f xs' ;;
      Ok (y :: ys)
  end.

(** Two results that are the same value, or are both failures. *)
Definition sameOutcome {A : Type} (r1 r2 : Result A) : Prop :=
  match r1, r2 with
  | Ok a, Ok b => a = b
  | Err _, Err _ => True
  | _, _ => False
  end.

(** Two runs that are both out of fuel, or end with the same outcome. *)
Definition sameRun {A : Type} (o1 o2 : option (Result A)) : Prop :=
  match o1, o2 with
  | None, None => True
  | Some r1, Some r2 => sameOutcome r1 r2
  | _, _ => False
  end.

(** A round given by what fetching one path yields: the entities it
    contributes and the paths it enqueues.  The queue is fetched as one
    group, in order: [roundOf] is a round up to the failure it reports. *)
Section Traversal.

Variable F : Type.
Variable fetch : jsstring -> Result F.
Variable emit : F -> list Entity.
Variable next : F -> list jsstring.

Definition roundOf (q : Queue.t) (contents : list Entity)
  : Result (Queue.t * list Entity) :=
  r <- awaitInOrder fetch q ;;
  Ok (flat_map next r, contents ++ flat_map emit r).

Inductive reach (q0 : list jsstring) : jsstring -> Prop :=
| reach_seed (x : jsstring) : In x q0 -> reach q0 x
| reach_child (y : jsstring) (f : F) (x : jsstring) :
    reach q0 y -> fetch y = Ok f -> In x (next f) -> reach q0 x.

End Traversal.

Arguments roundOf {F} fetch emit next q contents.
Arguments reach {F} fetch next q0 _.
Arguments reach_seed {F} fetch next q0 x _.
Arguments reach_child {F} fetch next q0 y f x _ _ _.

(** The failure a round reports: that of a path of the first chunk of
    ten in which a fetch fails, one that settles no later than the other
    failures of that chunk. *)
Definition reportedFailure {F : Type} (vault : Vault)
  (fetch : jsstring -> Result F) (q : list jsstring) (e : Error) : Prop :=
  exists cs1 c cs2 x,
    chunk q CHUNK_SIZE = cs1 ++ c :: cs2
    /\ (forall y, In y (List.concat cs1) -> exists f, fetch y = Ok f)
    /\ In x c
    /\ fetch x = Err e
    /\ forall y e',
         In y c -> fetch y = Err e' -> settles vault x <= settles vault y.

Definition emitObs (iter : Fetched) : list Entity := [itself iter].

Definition nextObs (skip : jsstring -> list jsstring -> bool)
  (pluginId : jsstring) (iter : Fetched) : list jsstring :=
  match children iter with
  | Some ch =>
      filter (keepChild skip (isPluginDirItself (key (itself iter)) pluginId))
        (folders ch ++ files ch)
  | None => []
  end.

Definition emitAdapter (iter : option Fetched) : list Entity :=
  match iter with
  | Some iter => [itself iter]
  | None => []
  end.

Definition nextAdapter (iter : option Fetched) : list jsstring :=
  match iter with
  | Some iter =>
      match children iter with
      | Some ch => folders ch ++ files ch
      | None => []
      end
  | None => []
  end.

(** The first [n] levels of [listFilesInObsFolder] and of
    [listFilesByAdapterPaths]: the queue and the contents after them. *)
Definition levelsObs (skip : jsstring -> list jsstring -> bool) (n : nat)
  (configDir : jsstring) (vault : Vault) (pluginId : jsstring)
  : Result (Queue.t * list Entity) :=
  levelsOf (roundObs skip configDir vault pluginId) n
    (Queue.make [configDir]) [].


(** [s] has no trailing white space. *)
Definition noTrailingWhiteSpace (s : jsstring) : Prop := trimEnd s = s.

(** No seed of the queue and no name the vault lists ends with a slash. *)
Definition noTrailingSlashNames (vault : Vault) (seeds : list jsstring)
  : Prop :=
  (forall r, In r seeds -> endsWith r [slash] = false)
  /\ (forall p c, In c (childrenOf vault p) -> endsWith c [slash] = false).

(** How the key of a listed entity relates to the metadata it was built
    from. *)
Definition keyFollowsType (vault : Vault) (seeds : list jsstring)
  (e : Entity) : Prop :=
  keyRaw e = key e
  /\ exists x statRes,
       statFix vault x = Resolved statRes
       /\ e = entityOf x statRes
       /\ (type statRes = lit "folder" -> endsWith (key e) [slash] = true)
       /\ (noTrailingSlashNames vault seeds ->
           (endsWith (key e) [slash] = true <-> type statRes = lit "folder")).

(** The two halves of [extractLiteralPrefix]: what is left of the pattern
    once it is trimmed and its leading [^] and [./] are removed, and the
    scan of that remainder. *)
Definition stripAnchors (pattern : jsstring) : jsstring :=
  let s := trim pattern in
  let s := if startsWith s (lit "^") then slice s 1 else s in
  if startsWith s (lit "./") then slice s 2 else s.

Definition scanFrom (s : jsstring) : jsstring :=
  let '(out, startIndex) :=
    if startsWith s (lit "\.") then (lit ".", 2)
    else if startsWith s (lit ".") then (lit ".", 1)
    else ([], 0) in
  scanLiteral false out (skipn startIndex s).

(** A text written as a pattern that matches it literally: a backslash
    before each metacharacter. *)
Definition escapeRegex (text : jsstring) : jsstring :=
  flat_map (fun ch => if isRegexMetaChar ch then [backslash; ch] else [ch])
    text.

(** Made of white space only. *)
Definition allWhiteSpace (s : jsstring) : Prop :=
  Forall (fun c => isWhiteSpace c = true) s.

(** The paths below a folder: its children, and the children of the
    folders below it. *)
Inductive descendantOf (vault : Vault) (x : jsstring) : jsstring -> Prop :=
| descendant_child (statRes : Stat) (c : jsstring) :
    statFix vault x = Resolved statRes ->
    isFolderStat statRes = true ->
    In c (childrenOf vault x) ->
    descendantOf vault x c
| descendant_below (y : jsstring) (statRes : Stat) (c : jsstring) :
    descendantOf vault x y ->
    statFix vault y = Resolved statRes ->
    isFolderStat statRes = true ->
    In c (childrenOf vault y) ->
    descendantOf vault x c.

(** ** Storage states used as examples *)

(** A vault given by two tables; a path outside the first table does not
    exist ([statFix] rejects), one outside the second has no children;
    every listing resolves and all callbacks settle together. *)
Definition lookup {A : Type} (table : list (jsstring * A)) (x : jsstring)
  : option A :=
  match find (fun entry => JS.eqb (fst entry) x) table with
  | Some entry => Some (snd entry)
  | None => None
  end.

Definition tableVault (stats : list (jsstring * StatOutcome))
  (lists : list (jsstring * ListedFiles)) : Vault :=
  {| statFix := fun x =>
       match lookup stats x with Some o => o | None => Rejected end;
     adapter_list := fun x =>
       match lookup lists x with
       | Some l => Some l
       | None => Some {| folders := []; files := [] |}
       end;
     settles := fun _ => 0 |}.

Definition aFolder : StatOutcome :=
  Resolved {| type := lit "folder"; mtime := Some 0%Z; size := 0%Z |}.

Definition aFile : StatOutcome :=
  Resolved {| type := lit "file"; mtime := Some 1700000000000%Z;
              size := 42%Z |}.

(** [.obsidian/] holding [bookmarks.json], [workspace.json] and the
    plugin's own directory with a private file beside its [data.json]. *)
Definition configVault : Vault :=
  tableVault
    [(lit ".obsidian", aFolder);
     (lit ".obsidian/bookmarks.json", aFile);
     (lit ".obsidian/workspace.json", aFile);
     (lit ".obsidian/plugins", aFolder);
     (lit ".obsidian/plugins/remotely-save", aFolder);
     (lit ".obsidian/plugins/remotely-save/data.json", aFile);
     (lit ".obsidian/plugins/remotely-save/secret.db", aFile)]
    [(lit ".obsidian",
      {| folders := [lit ".obsidian/plugins"];
         files := [lit ".obsidian/bookmarks.json";
                   lit ".obsidian/workspace.json"] |});
     (lit ".obsidian/plugins",
      {| folders := [lit ".obsidian/plugins/remotely-save"]; files := [] |});
     (lit ".obsidian/plugins/remotely-save",
      {| folders := [];
         files := [lit ".obsidian/plugins/remotely-save/data.json";
                   lit ".obsidian/plugins/remotely-save/secret.db"] |})].

(** Three nested folders, the innermost without metadata. *)
Definition deepVault : Vault :=
  tableVault
    [(lit "c", aFolder); (lit "c/a", aFolder); (lit "c/a/b", Nullish)]
    [(lit "c", {| folders := [lit "c/a"]; files := [] |});
     (lit "c/a", {| folders := [lit "c/a/b"]; files := [] |})].

(** A folder whose listing names [bookmarks.json] twice. *)
Definition twiceListedVault : Vault :=
  tableVault
    [(lit "c", aFolder); (lit "c/bookmarks.json", aFile)]
    [(lit "c",
      {| folders := [];
         files := [lit "c/bookmarks.json"; lit "c/bookmarks.json"] |})].

(** The plugin's directory as configuration root. *)
Definition pluginRootVault : Vault :=
  tableVault
    [(lit "remotely-save", aFolder); (lit "remotely-save/data.json", aFile)]
    [(lit "remotely-save",
      {| folders := []; files := [lit "remotely-save/data.json"] |})].

(** A file called [workspace]; a file whose path ends with a slash. *)
Definition workspaceFileVault : Vault :=
  tableVault [(lit "workspace", aFile)] [].

Definition slashFileVault : Vault :=
  tableVault [(lit "a/", aFile)] [].

(** A folder called [workspace], holding a [workspace.json]. *)
Definition workspaceFolderVault : Vault :=
  tableVault
    [(lit "workspace", aFolder); (lit "workspace/a.json", aFile);
     (lit "workspace/workspace.json", aFile)]
    [(lit "workspace",
      {| folders := [];
         files := [lit "workspace/a.json";
                   lit "workspace/workspace.json"] |})].

(** One file, called [a]. *)
Definition singleFileVault : Vault :=
  tableVault [(lit "a", aFile)] [].

(** Two folders that list each other. *)
Definition cyclicVault : Vault :=
  tableVault
    [(lit ".a", aFolder); (lit ".a/b", aFolder)]
    [(lit ".a", {| folders := [lit ".a/b"]; files := [] |});
     (lit ".a/b", {| folders := [lit ".a"]; files := [] |})].

(** A folder with one readable and one unreadable child. *)
Definition partlyReadableVault (unreadable : StatOutcome) : Vault :=
  tableVault
    [(lit ".h", aFolder); (lit ".h/gone", unreadable); (lit ".h/kept", aFile)]
    [(lit ".h", {| folders := []; files := [lit ".h/gone"; lit ".h/kept"] |})].

(** A folder [d] with two folders whose listing rejects, that of the
    second sooner than that of the first. *)
Definition racingVault : Vault :=
  {| statFix := fun x =>
       if JS.eqb x (lit "d") || JS.eqb x (lit "d/slow")
          || JS.eqb x (lit "d/fast")
       then aFolder else Rejected;
     adapter_list := fun x =>
       if JS.eqb x (lit "d")
       then Some {| folders := [lit "d/slow"; lit "d/fast"]; files := [] |}
       else None;
     settles := fun x => if JS.eqb x (lit "d/fast") then 1 else 2 |}.

(** * Properties *)

(** ** Strings *)

Lemma eqb_eq (a b : jsstring) : JS.eqb a b = true <-> a = b.
Proof.
  revert b; induction a as [|c a IH]; intros [|d b]; simpl;
    try (split; [discriminate | discriminate]); try tauto.
  rewrite andb_true_iff, N.eqb_eq, IH.
  split; [intros [-> ->]; reflexivity | intros E; inversion E; auto].
Qed.

Lemma eqb_refl (a : jsstring) : JS.eqb a a = true.
Proof. apply eqb_eq; reflexivity. Qed.

Lemma eqb_neq (a b : jsstring) : JS.eqb a b = false <-> a <> b.
Proof.
  rewrite <- eqb_eq. destruct (JS.eqb a b); split; congruence.
Qed.

Lemma startsWith_spec (s p : jsstring) :
  startsWith s p = true <-> exists t, s = p ++ t.
Proof.
  revert s; induction p as [|c p IH]; intros s; simpl.
  - split; [intros _; exists s; reflexivity | reflexivity].
  - destruct s as [|d s].
    + split; [discriminate | intros [t E]; discriminate].
    + rewrite andb_true_iff, N.eqb_eq, IH. split.
      * intros [-> [t ->]]. exists t; reflexivity.
      * intros [t E]. inversion E; subst. split; [reflexivity | eauto].
Qed.

Lemma endsWith_spec (s p : jsstring) :
  endsWith s p = true <-> exists t, s = t ++ p.
Proof.
  unfold endsWith. rewrite startsWith_spec. split.
  - intros [t E]. exists (rev t).
    rewrite <- (rev_involutive s), E, rev_app_distr, rev_involutive.
    reflexivity.
  - intros [t ->]. exists (rev t). apply rev_app_distr.
Qed.

Lemma endsWith_snoc (s p : jsstring) (c d : code_unit) :
  endsWith (s ++ [c]) (p ++ [d]) = N.eqb c d && endsWith s p.
Proof.
  unfold endsWith. rewrite !rev_app_distr. reflexivity.
Qed.

Lemma endsWith_snoc_nil (p : jsstring) (d : code_unit) :
  endsWith [] (p ++ [d]) = false.
Proof.
  unfold endsWith. rewrite rev_app_distr. reflexivity.
Qed.

Lemma eqb_snoc (s p : jsstring) (c d : code_unit) :
  JS.eqb (s ++ [c]) (p ++ [d]) = N.eqb c d && JS.eqb s p.
Proof.
  destruct (N.eqb c d && JS.eqb s p) eqn:E.
  - apply andb_true_iff in E. destruct E as [E1 E2].
    apply N.eqb_eq in E1. apply eqb_eq in E2. subst. apply eqb_refl.
  - apply eqb_neq. intros H. apply app_inj_tail in H. destruct H; subst.
    rewrite N.eqb_refl, eqb_refl in E. discriminate.
Qed.

Lemma eqb_app_self (a b : jsstring) : b <> [] -> JS.eqb a (a ++ b) = false.
Proof.
  intros Hb. apply eqb_neq. intros E.
  apply (f_equal (@List.length _)) in E. rewrite length_app in E.
  destruct b; [congruence | simpl in E; lia].
Qed.

(** A key with a trailing slash is not reserved: the reserved names end
    with a letter. *)
Lemma isReservedKey_slash (x : jsstring) : isReservedKey (x ++ [slash]) = false.
Proof.
  unfold isReservedKey, specialNameSkipPredicate, reservedNames. simpl.
  change (lit "workspace") with (lit "workspac" ++ [101%N]).
  change (lit "workspace.json") with (lit "workspace.jso" ++ [110%N]).
  rewrite !eqb_snoc.
  rewrite !(app_comm_cons _ _ slash), !endsWith_snoc. reflexivity.
Qed.

Lemma endsWith_slash_snoc (x : jsstring) : endsWith (x ++ [slash]) [slash] = true.
Proof. apply endsWith_spec. exists x; reflexivity. Qed.

Lemma filter_all (A : Type) (f : A -> bool) (l : list A) :
  (forall x, In x l -> f x = true) -> filter f l = l.
Proof.
  induction l as [|a l IH]; intros H; [reflexivity|]. simpl.
  rewrite (H a (or_introl eq_refl)). rewrite IH; [reflexivity|].
  intros x Hx. apply H. right; assumption.
Qed.

Lemma filter_none (A : Type) (f : A -> bool) (l : list A) :
  (forall x, In x l -> f x = false) -> filter f l = [].
Proof.
  induction l as [|a l IH]; intros H; [reflexivity|]. simpl.
  rewrite (H a (or_introl eq_refl)). apply IH.
  intros x Hx. apply H. right; assumption.
Qed.

(** ** One round is one pass over the queue *)

Lemma drain_spec (q : Queue.t) (items : list jsstring) :
  drain q items = (items ++ q, []).
Proof.
  unfold drain, Queue.length.
  revert items; induction q as [|x q IH]; intros items; simpl.
  - rewrite app_nil_r; reflexivity.
  - rewrite IH, <- app_assoc; reflexivity.
Qed.

Lemma concat_chunkFuel (A : Type) (size fuel : nat) (array : list A) :
  List.length array <= fuel ->
  List.concat (chunkFuel fuel array (S size)) = array.
Proof.
  revert array; induction fuel as [|fuel IH]; intros array Hlen.
  - destruct array; [reflexivity | simpl in Hlen; lia].
  - destruct array as [|a array]; [reflexivity|].
    cbn [chunkFuel List.concat]. rewrite IH.
    + apply firstn_skipn.
    + rewrite length_skipn. simpl in *. lia.
Qed.

(** Chunking only groups the items: nothing is lost or reordered. *)
Lemma concat_chunk (A : Type) (size : nat) (array : list A) :
  List.concat (chunk array (S size)) = array.
Proof. apply concat_chunkFuel; lia. Qed.

Lemma awaitInOrder_app (A B : Type) (f : A -> Result B) (xs ys : list A) :
  awaitInOrder f (xs ++ ys) =
  (a <- awaitInOrder f xs ;; b <- awaitInOrder f ys ;; Ok (a ++ b)).
Proof.
  induction xs as [|x xs IH]; simpl.
  - destruct (awaitInOrder f ys); reflexivity.
  - destruct (f x); simpl; [|reflexivity].
    rewrite IH. destruct (awaitInOrder f xs); simpl; [|reflexivity].
    destruct (awaitInOrder f ys); reflexivity.
Qed.

Lemma awaitInOrder_Ok (A B : Type) (f : A -> Result B) (xs : list A)
  (r : list B) :
  awaitInOrder f xs = Ok r <-> Forall2 (fun x y => f x = Ok y) xs r.
Proof.
  revert r; induction xs as [|x xs IH]; intros r; simpl.
  - split.
    + intros E; inversion E; constructor.
    + intros H; inversion H; reflexivity.
  - destruct (f x) as [y|e] eqn:Ex; simpl.
    + destruct (awaitInOrder f xs) as [ys|e] eqn:Exs; simpl.
      * split.
        -- intros E; inversion E; subst. constructor; [assumption|].
           apply IH; reflexivity.
        -- intros H; inversion H; subst.
           assert (y0 = y) by congruence; subst.
           apply IH in H4. congruence.
      * split; [discriminate|].
        intros H; inversion H; subst. apply IH in H4. discriminate.
    + split; [discriminate|].
      intros H; inversion H; subst. congruence.
Qed.

Lemma awaitInOrder_Err_in (A B : Type) (f : A -> Result B) (xs : list A)
  (x : A) (e : Error) :
  In x xs -> f x = Err e -> exists e', awaitInOrder f xs = Err e'.
Proof.
  intros Hin Hx. induction xs as [|a xs IH]; [contradiction|].
  simpl. destruct (f a) as [y|e0] eqn:Ea; simpl; [|eauto].
  destruct Hin as [->|Hin]; [congruence|].
  destruct (IH Hin) as [e' ->]. simpl. eauto.
Qed.

Lemma awaitInOrder_no_Err (A B : Type) (f : A -> Result B) (xs : list A) :
  (forall x, In x xs -> exists y, f x = Ok y) ->
  exists r, awaitInOrder f xs = Ok r.
Proof.
  induction xs as [|a xs IH]; intros H; simpl; [eauto|].
  destruct (H a (or_introl eq_refl)) as [y ->]. simpl.
  destruct IH as [r ->]; [intros; apply H; right; assumption|].
  simpl. eauto.
Qed.

(** *** Outcomes up to the failure reported *)



Lemma sameOutcome_trans (A : Type) (r1 r2 r3 : Result A) :
  sameOutcome r1 r2 -> sameOutcome r2 r3 -> sameOutcome r1 r3.
Proof. destruct r1, r2, r3; simpl; intros; try congruence; tauto. Qed.

Lemma sameOutcome_Ok (A : Type) (r1 r2 : Result A) (a : A) :
  sameOutcome r1 r2 -> (r1 = Ok a <-> r2 = Ok a).
Proof.
  destruct r1, r2; simpl; intros H; try contradiction; subst;
    split; intros E; try discriminate; assumption.
Qed.

Lemma sameOutcome_Err (A : Type) (r1 r2 : Result A) :
  sameOutcome r1 r2 -> ((exists e, r1 = Err e) <-> (exists e, r2 = Err e)).
Proof.
  destruct r1, r2; simpl; intros H; try contradiction; subst;
    split; intros [e' E]; try discriminate; eauto.
Qed.

Lemma sameOutcome_bind (A B : Type) (r1 r2 : Result A)
  (k1 k2 : A -> Result B) :
  sameOutcome r1 r2 -> (forall a, sameOutcome (k1 a) (k2 a)) ->
  sameOutcome (x <- r1 ;; k1 x) (x <- r2 ;; k2 x).
Proof.
  destruct r1, r2; simpl; intros H Hk; try contradiction; subst; auto.
Qed.




Lemma sameRun_Ok (A : Type) (o1 o2 : option (Result A)) (a : A) :
  sameRun o1 o2 -> (o1 = Some (Ok a) <-> o2 = Some (Ok a)).
Proof.
  destruct o1 as [r1|], o2 as [r2|]; simpl; intros H; try contradiction;
    [|split; discriminate].
  destruct (sameOutcome_Ok _ r1 r2 a H) as [H1 H2].
  split; intros E; inversion E; subst; f_equal; auto.
Qed.

Lemma sameRun_Err (A : Type) (o1 o2 : option (Result A)) :
  sameRun o1 o2 ->
  ((exists e, o1 = Some (Err e)) <-> (exists e, o2 = Some (Err e))).
Proof.
  destruct o1 as [r1|], o2 as [r2|]; simpl; intros H; try contradiction;
    [|split; intros [e E]; discriminate].
  destruct (sameOutcome_Err _ r1 r2 H) as [H1 H2].
  split; intros [e E]; inversion E; subst.
  - destruct H1 as [e' ->]; eauto.
  - destruct H2 as [e' ->]; eauto.
Qed.

Lemma sameRun_None (A : Type) (o1 o2 : option (Result A)) :
  sameRun o1 o2 -> (o1 = None <-> o2 = None).
Proof.
  destruct o1, o2; simpl; intros H; try contradiction;
    split; intros E; try discriminate; reflexivity.
Qed.

(** *** [Promise.all] *)

Lemma firstRejection_None (A B : Type) (settles : A -> nat)
  (f : A -> Result B) (xs : list A) :
  firstRejection settles f xs = None ->
  awaitInOrder f xs = Ok (resolvedValues f xs).
Proof.
  induction xs as [|x xs IH]; simpl; [reflexivity|].
  destruct (f x) as [y|e]; simpl.
  - intros H. rewrite (IH H). reflexivity.
  - destruct (firstRejection settles f xs) as [[t e']|]; [|discriminate].
    destruct (t <? settles x); discriminate.
Qed.

(** The rejection reported is that of a member, and none settles
    before it. *)
Lemma firstRejection_Some (A B : Type) (settles : A -> nat)
  (f : A -> Result B) (xs : list A) (t : nat) (e : Error) :
  firstRejection settles f xs = Some (t, e) ->
  (exists x, In x xs /\ f x = Err e /\ settles x = t)
  /\ forall x e', In x xs -> f x = Err e' -> t <= settles x.
Proof.
  revert t e; induction xs as [|x xs IH]; intros t e; simpl; [discriminate|].
  destruct (f x) as [y|e0] eqn:Ex.
  - intros H. destruct (IH _ _ H) as [[x' [H1 [H2 H3]]] H4]. split.
    + exists x'. auto.
    + intros x0 e' [<-|Hin] Hx0; [congruence | eauto].
  - destruct (firstRejection settles f xs) as [[t1 e1]|] eqn:Er.
    + destruct (IH _ _ eq_refl) as [[x' [H1 [H2 H3]]] H4].
      destruct (t1 <? settles x) eqn:Et; intros H; inversion H; subst.
      * apply Nat.ltb_lt in Et. split.
        -- exists x'. auto.
        -- intros x0 e' [<-|Hin] Hx0; [lia | eauto].
      * apply Nat.ltb_ge in Et. split.
        -- exists x. auto.
        -- intros x0 e' [<-|Hin] Hx0; [lia|].
           specialize (H4 _ _ Hin Hx0). lia.
    + intros H; inversion H; subst. split.
      * exists x. auto.
      * intros x0 e' [<-|Hin] Hx0; [lia|]. exfalso.
        apply firstRejection_None in Er.
        destruct (awaitInOrder_Err_in _ _ f xs x0 e' Hin Hx0) as [e2 E2].
        congruence.
Qed.

(** Whether the group fails, and its values when it does not, do not
    depend on when its members settle. *)
Lemma promiseAll_sameOutcome (A B : Type) (settles : A -> nat)
  (f : A -> Result B) (xs : list A) :
  sameOutcome (promiseAll settles f xs) (awaitInOrder f xs).
Proof.
  unfold promiseAll.
  destruct (firstRejection settles f xs) as [[t e]|] eqn:E.
  - destruct (firstRejection_Some _ _ _ _ _ _ _ E) as [[x [H1 [H2 _]]] _].
    destruct (awaitInOrder_Err_in _ _ f xs x e H1 H2) as [e' ->].
    exact I.
  - rewrite (firstRejection_None _ _ _ _ _ E). reflexivity.
Qed.

Lemma promiseAll_Ok (A B : Type) (settles : A -> nat) (f : A -> Result B)
  (xs : list A) (r : list B) :
  promiseAll settles f xs = Ok r <-> Forall2 (fun x y => f x = Ok y) xs r.
Proof.
  rewrite <- awaitInOrder_Ok. apply sameOutcome_Ok, promiseAll_sameOutcome.
Qed.

(** A failing group reports the failure of one of its members. *)
Lemma promiseAll_Err (A B : Type) (settles : A -> nat) (f : A -> Result B)
  (xs : list A) (e : Error) :
  promiseAll settles f xs = Err e -> exists x, In x xs /\ f x = Err e.
Proof.
  unfold promiseAll.
  destruct (firstRejection settles f xs) as [[t e']|] eqn:E; [|discriminate].
  intros H; inversion H; subst.
  destruct (firstRejection_Some _ _ _ _ _ _ _ E) as [[x [H1 [H2 _]]] _].
  eauto.
Qed.

(** It is a failure that settles no later than the others. *)
Lemma promiseAll_Err_first (A B : Type) (settles : A -> nat)
  (f : A -> Result B) (xs : list A) (e : Error) :
  promiseAll settles f xs = Err e ->
  exists x,
    In x xs /\ f x = Err e
    /\ forall y e', In y xs -> f y = Err e' -> settles x <= settles y.
Proof.
  unfold promiseAll.
  destruct (firstRejection settles f xs) as [[t e0]|] eqn:E; [|discriminate].
  intros H; inversion H; subst.
  destruct (firstRejection_Some _ _ _ _ _ _ _ E) as [[x [H1 [H2 H3]]] H4].
  exists x. split; [assumption|]. split; [assumption|].
  rewrite H3. exact H4.
Qed.

(** Two callbacks that agree on every member make the same group. *)
Lemma promiseAll_ext_on (A B : Type) (settles : A -> nat)
  (f g : A -> Result B) (xs : list A) :
  (forall x, In x xs -> f x = g x) ->
  promiseAll settles f xs = promiseAll settles g xs.
Proof.
  intros H. unfold promiseAll.
  assert (E : firstRejection settles f xs = firstRejection settles g xs
              /\ resolvedValues f xs = resolvedValues g xs).
  { induction xs as [|x xs IH]; [split; reflexivity|]. simpl.
    destruct IH as [IH1 IH2]; [intros; apply H; right; assumption|].
    rewrite <- (H x (or_introl eq_refl)), IH1, IH2.
    split; reflexivity. }
  destruct E as [-> ->]. reflexivity.
Qed.

(** A callback that wraps the result of another makes the same group,
    wrapped. *)
Lemma promiseAll_map (A B C : Type) (settles : A -> nat)
  (f : A -> Result B) (g : A -> Result C) (h : B -> C) (xs : list A) :
  (forall x, In x xs -> g x = (y <- f x ;; Ok (h y))) ->
  promiseAll settles g xs =
  (r <- promiseAll settles f xs ;; Ok (List.map h r)).
Proof.
  intros H. unfold promiseAll.
  assert (E : firstRejection settles g xs = firstRejection settles f xs
              /\ resolvedValues g xs = List.map h (resolvedValues f xs)).
  { induction xs as [|x xs IH]; [split; reflexivity|].
    destruct IH as [IH1 IH2]; [intros; apply H; right; assumption|].
    cbn [firstRejection resolvedValues].
    rewrite (H x (or_introl eq_refl)), IH1, IH2.
    destruct (f x); simpl; split; reflexivity. }
  destruct E as [-> ->].
  destruct (firstRejection settles f xs) as [[t e]|]; reflexivity.
Qed.

Section RoundFacts.

Variable skip : jsstring -> list jsstring -> bool.

Lemma pushChildrenObs_spec (b : bool) (names : list jsstring) (q : Queue.t) :
  pushChildrenObs skip b names q = q ++ filter (keepChild skip b) names.
Proof.
  unfold pushChildrenObs.
  revert q; induction names as [|n names IH]; intros q; simpl.
  - rewrite app_nil_r; reflexivity.
  - rewrite IH. unfold keepChild at 2, Queue.push.
    destruct (skip n reservedNames); simpl; [reflexivity|].
    destruct (b && negb (isLikelyPluginSubFiles n)); simpl;
      [reflexivity | rewrite <- app_assoc; reflexivity].
Qed.

Lemma consumeObs_spec (pluginId : jsstring) (q : Queue.t)
  (contents : list Entity) (iter : Fetched) :
  consumeObs skip pluginId (q, contents) iter =
  (q ++ nextObs skip pluginId iter, contents ++ emitObs iter).
Proof.
  unfold consumeObs, nextObs, emitObs.
  destruct (children iter) as [ch|].
  - rewrite !pushChildrenObs_spec, filter_app, <- app_assoc. reflexivity.
  - rewrite app_nil_r. reflexivity.
Qed.

Lemma fold_consumeObs (pluginId : jsstring) (r : list Fetched)
  (q : Queue.t) (contents : list Entity) :
  fold_left (consumeObs skip pluginId) r (q, contents) =
  (q ++ flat_map (nextObs skip pluginId) r,
   contents ++ flat_map emitObs r).
Proof.
  revert q contents; induction r as [|iter r IH]; intros q contents.
  - simpl. rewrite !app_nil_r. reflexivity.
  - cbn [fold_left flat_map]. rewrite consumeObs_spec, IH, <- !app_assoc.
    reflexivity.
Qed.

Lemma chunksObs_flat (configDir : jsstring) (vault : Vault)
  (pluginId : jsstring) (cs : list (list jsstring))
  (st : Queue.t * list Entity) :
  sameOutcome
    (chunksObs skip configDir vault pluginId cs st)
    (r <- awaitInOrder (fetchObs configDir vault) (List.concat cs) ;;
     Ok (fold_left (consumeObs skip pluginId) r st)).
Proof.
  revert st; induction cs as [|c cs IH]; intros st; [reflexivity|].
  cbn [chunksObs List.concat]. rewrite awaitInOrder_app.
  pose proof (promiseAll_sameOutcome _ _ (settles vault)
                (fetchObs configDir vault) c) as Hc.
  destruct (promiseAll (settles vault) (fetchObs configDir vault) c)
    as [r0|e0];
    destruct (awaitInOrder (fetchObs configDir vault) c) as [r1|e];
    simpl in Hc |- *; try contradiction; [subst r0 | exact I].
  specialize (IH (fold_left (consumeObs skip pluginId) r1 st)).
  destruct (awaitInOrder (fetchObs configDir vault) (List.concat cs))
    as [r2|e]; simpl in IH |- *.
  - rewrite fold_left_app. exact IH.
  - exact IH.
Qed.

(** A round of [listFilesInObsFolder] fetches the whole queue in order;
    the chunks show in its result only through the failure reported. *)
Lemma roundObs_roundOf (configDir : jsstring) (vault : Vault)
  (pluginId : jsstring) (q : Queue.t) (contents : list Entity) :
  sameOutcome
    (roundObs skip configDir vault pluginId q contents)
    (roundOf (fetchObs configDir vault) emitObs (nextObs skip pluginId)
       q contents).
Proof.
  unfold roundObs, roundOf. rewrite drain_spec. cbn [app].
  unfold CHUNK_SIZE.
  eapply sameOutcome_trans; [apply chunksObs_flat|].
  rewrite concat_chunk.
  destruct (awaitInOrder (fetchObs configDir vault) q) as [r|e]; simpl;
    [|exact I].
  rewrite fold_consumeObs. reflexivity.
Qed.

Lemma loopObs_loopOf (fuel : nat) (configDir : jsstring) (vault : Vault)
  (pluginId : jsstring) (bookmarksOnly : bool) (q : Queue.t)
  (contents : list Entity) (iterRound : nat) :
  loopObs skip fuel configDir vault pluginId bookmarksOnly q contents
    iterRound =
  loopOf (roundObs skip configDir vault pluginId)
    (fun r => bookmarksOnly && (1 <? r)) fuel q contents iterRound.
Proof.
  revert q contents iterRound; induction fuel as [|fuel IH];
    intros q contents iterRound; destruct q as [|x q]; try reflexivity.
  cbn [loopObs loopOf].
  destruct (roundObs skip configDir vault pluginId (x :: q) contents)
    as [[q' contents']|e]; [|reflexivity].
  rewrite IH. reflexivity.
Qed.

End RoundFacts.

Lemma consumeAdapter_spec (q : Queue.t) (contents : list Entity)
  (iter : option Fetched) :
  consumeAdapter (q, contents) iter =
  (q ++ nextAdapter iter, contents ++ emitAdapter iter).
Proof.
  assert (Hpush : forall names q0, pushChildrenAdapter names q0 = q0 ++ names).
  { unfold pushChildrenAdapter, Queue.push.
    induction names as [|n names IH]; intros q0; simpl.
    - rewrite app_nil_r; reflexivity.
    - rewrite IH, <- app_assoc; reflexivity. }
  unfold consumeAdapter, nextAdapter, emitAdapter.
  destruct iter as [iter|]; [|rewrite !app_nil_r; reflexivity].
  destruct (children iter) as [ch|].
  - rewrite !Hpush, <- app_assoc. reflexivity.
  - rewrite app_nil_r. reflexivity.
Qed.

Lemma fold_consumeAdapter (r : list (option Fetched)) (q : Queue.t)
  (contents : list Entity) :
  fold_left consumeAdapter r (q, contents) =
  (q ++ flat_map nextAdapter r, contents ++ flat_map emitAdapter r).
Proof.
  revert q contents; induction r as [|iter r IH]; intros q contents.
  - simpl. rewrite !app_nil_r. reflexivity.
  - cbn [fold_left flat_map]. rewrite consumeAdapter_spec, IH, <- !app_assoc.
    reflexivity.
Qed.

Lemma chunksAdapter_flat (vault : Vault) (cs : list (list jsstring))
  (st : Queue.t * list Entity) :
  sameOutcome
    (chunksAdapter vault cs st)
    (r <- awaitInOrder (fetchAdapter vault) (List.concat cs) ;;
     Ok (fold_left consumeAdapter r st)).
Proof.
  revert st; induction cs as [|c cs IH]; intros st; [reflexivity|].
  cbn [chunksAdapter List.concat]. rewrite awaitInOrder_app.
  pose proof (promiseAll_sameOutcome _ _ (settles vault)
                (fetchAdapter vault) c) as Hc.
  destruct (promiseAll (settles vault) (fetchAdapter vault) c) as [r0|e0];
    destruct (awaitInOrder (fetchAdapter vault) c) as [r1|e];
    simpl in Hc |- *; try contradiction; [subst r0 | exact I].
  specialize (IH (fold_left consumeAdapter r1 st)).
  destruct (awaitInOrder (fetchAdapter vault) (List.concat cs)) as [r2|e];
    simpl in IH |- *.
  - rewrite fold_left_app. exact IH.
  - exact IH.
Qed.

Lemma roundAdapter_roundOf (vault : Vault) (q : Queue.t)
  (contents : list Entity) :
  sameOutcome
    (roundAdapter vault q contents)
    (roundOf (fetchAdapter vault) emitAdapter nextAdapter q contents).
Proof.
  unfold roundAdapter, roundOf. rewrite drain_spec. cbn [app].
  unfold CHUNK_SIZE.
  eapply sameOutcome_trans; [apply chunksAdapter_flat|].
  rewrite concat_chunk.
  destruct (awaitInOrder (fetchAdapter vault) q) as [r|e]; simpl;
    [|exact I].
  rewrite fold_consumeAdapter. reflexivity.
Qed.

Lemma loopAdapter_loopOf (fuel : nat) (vault : Vault) (q : Queue.t)
  (contents : list Entity) (iterRound : nat) :
  loopAdapter fuel vault q contents =
  loopOf (roundAdapter vault) (fun _ => false) fuel q contents iterRound.
Proof.
  revert q contents iterRound; induction fuel as [|fuel IH];
    intros q contents iterRound; destruct q as [|x q]; try reflexivity.
  cbn [loopAdapter loopOf].
  destruct (roundAdapter vault (x :: q) contents) as [[q' contents']|e];
    [|reflexivity].
  apply IH.
Qed.

(** ** Loops of rounds *)

Section LoopFacts.

Variable round :
  Queue.t -> list Entity -> Result (Queue.t * list Entity).

(** While [stop] does not hold, [n] rounds of the loop are the first
    [n] levels. *)
Lemma loopOf_levelsOf (stop : nat -> bool) (n fuel : nat) :
  forall (q : Queue.t) (contents : list Entity) (iterRound : nat)
         (q' : Queue.t) (contents' : list Entity),
    levelsOf round n q contents = Ok (q', contents') ->
    (forall i, iterRound <= i < iterRound + n -> stop i = false) ->
    loopOf round stop (n + fuel) q contents iterRound =
    loopOf round stop fuel q' contents' (iterRound + n).
Proof.
  induction n as [|n IH]; intros q contents iterRound q' contents' Hl Hs.
  - simpl in Hl. inversion Hl; subst. rewrite Nat.add_0_r. reflexivity.
  - destruct q as [|x q].
    + simpl in Hl. inversion Hl; subst. destruct fuel; reflexivity.
    + cbn [levelsOf] in Hl. cbn [Nat.add loopOf].
      destruct (round (x :: q) contents) as [[q1 c1]|e]; simpl in Hl;
        [|discriminate].
      rewrite Hs by lia.
      rewrite (IH _ _ (S iterRound) _ _ Hl) by (intros; apply Hs; lia).
      f_equal. lia.
Qed.

Lemma loopOf_stop (stop : nat -> bool) (fuel : nat) (x : jsstring)
  (q : Queue.t) (contents : list Entity) (iterRound : nat) :
  stop iterRound = true ->
  loopOf round stop (S fuel) (x :: q) contents iterRound =
  Some (st <- round (x :: q) contents ;; Ok (snd st)).
Proof.
  intros Hs. cbn [loopOf].
  destruct (round (x :: q) contents) as [[q1 c1]|e]; [|reflexivity].
  rewrite Hs. reflexivity.
Qed.

(** A loop that never stops early returns once the levels run empty. *)
Lemma loopOf_exhausts (n fuel : nat) (q : Queue.t)
  (contents contents' : list Entity) (iterRound : nat) :
  levelsOf round n q contents = Ok ([], contents') ->
  n <= fuel ->
  loopOf round (fun _ => false) fuel q contents iterRound =
  Some (Ok contents').
Proof.
  intros Hl Hle. replace fuel with (n + (fuel - n)) by lia.
  rewrite (loopOf_levelsOf (fun _ => false) n (fuel - n) q contents
             iterRound [] contents' Hl) by reflexivity.
  destruct (fuel - n); reflexivity.
Qed.

End LoopFacts.

(** Rounds that differ only in the failure they report make loops that
    differ only in the failure they report. *)
Lemma levelsOf_sameOutcome
  (round1 round2 : Queue.t -> list Entity -> Result (Queue.t * list Entity))
  (n : nat) :
  (forall q contents, sameOutcome (round1 q contents) (round2 q contents)) ->
  forall q contents,
    sameOutcome (levelsOf round1 n q contents) (levelsOf round2 n q contents).
Proof.
  intros H. induction n as [|n IH]; intros q contents; [reflexivity|].
  destruct q as [|x q]; [reflexivity|]. cbn [levelsOf].
  specialize (H (x :: q) contents).
  destruct (round1 (x :: q) contents) as [[q1 c1]|e1],
           (round2 (x :: q) contents) as [[q2 c2]|e2];
    simpl in H |- *; try contradiction; [|exact I].
  inversion H; subst. apply IH.
Qed.

Lemma loopOf_sameRun
  (round1 round2 : Queue.t -> list Entity -> Result (Queue.t * list Entity))
  (stop : nat -> bool) (fuel : nat) :
  (forall q contents, sameOutcome (round1 q contents) (round2 q contents)) ->
  forall q contents iterRound,
    sameRun (loopOf round1 stop fuel q contents iterRound)
            (loopOf round2 stop fuel q contents iterRound).
Proof.
  intros H. induction fuel as [|fuel IH]; intros q contents iterRound;
    destruct q as [|x q]; try exact I; try reflexivity.
  cbn [loopOf]. specialize (H (x :: q) contents).
  destruct (round1 (x :: q) contents) as [[q1 c1]|e1],
           (round2 (x :: q) contents) as [[q2 c2]|e2];
    simpl in H |- *; try contradiction; [|exact I].
  inversion H; subst. destruct (stop iterRound); [reflexivity | apply IH].
Qed.

Section TraversalFacts.

Variable F : Type.
Variable fetch : jsstring -> Result F.
Variable emit : F -> list Entity.
Variable next : F -> list jsstring.

Let round := roundOf fetch emit next.

Lemma roundOf_Ok (q : Queue.t) (contents : list Entity) (q' : Queue.t)
  (contents' : list Entity) :
  round q contents = Ok (q', contents') ->
  exists r, Forall2 (fun x y => fetch x = Ok y) q r
            /\ q' = flat_map next r
            /\ contents' = contents ++ flat_map emit r.
Proof.
  unfold round, roundOf.
  destruct (awaitInOrder fetch q) as [r|e] eqn:E; simpl; [|discriminate].
  intros H; inversion H; subst. exists r. split; [|split]; try reflexivity.
  apply awaitInOrder_Ok; assumption.
Qed.

Lemma roundOf_Err (q : Queue.t) (contents : list Entity) (x : jsstring)
  (e : Error) :
  In x q -> fetch x = Err e -> exists e', round q contents = Err e'.
Proof.
  intros Hin Hx. unfold round, roundOf.
  destruct (awaitInOrder_Err_in _ _ fetch q x e Hin Hx) as [e' ->]. simpl. eauto.
Qed.

Lemma fetched_in (q : Queue.t) (r : list F) (x : jsstring) :
  Forall2 (fun x y => fetch x = Ok y) q r -> In x q ->
  exists f, fetch x = Ok f /\ In f r.
Proof.
  induction 1 as [|a f q r Ha _ IH]; intros Hin; [contradiction|].
  destruct Hin as [->|Hin].
  - exists f. split; [assumption | left; reflexivity].
  - destruct (IH Hin) as [f' [H1 H2]]. exists f'. split; [|right]; assumption.
Qed.

Lemma fetched_from (q : Queue.t) (r : list F) (f : F) :
  Forall2 (fun x y => fetch x = Ok y) q r -> In f r ->
  exists x, In x q /\ fetch x = Ok f.
Proof.
  induction 1 as [|a g q r Ha _ IH]; intros Hin; [contradiction|].
  destruct Hin as [->|Hin].
  - exists a. split; [left; reflexivity | assumption].
  - destruct (IH Hin) as [x [H1 H2]]. exists x. split; [right|]; assumption.
Qed.

(** *** What holds of the queue holds of the output *)

Section Invariant.

Variable Pq : jsstring -> Prop.
Variable Pe : Entity -> Prop.
Hypothesis step : forall x f,
  Pq x -> fetch x = Ok f -> Forall Pe (emit f) /\ Forall Pq (next f).

Lemma roundOf_invariant (q : Queue.t) (contents : list Entity)
  (q' : Queue.t) (contents' : list Entity) :
  Forall Pq q -> Forall Pe contents ->
  round q contents = Ok (q', contents') ->
  Forall Pq q' /\ Forall Pe contents'.
Proof.
  intros Hq Hc Hr. apply roundOf_Ok in Hr.
  destruct Hr as [r [H2 [-> ->]]].
  assert (H : Forall Pq (flat_map next r) /\ Forall Pe (flat_map emit r)).
  { induction H2 as [|x f q r Hx _ IH]; [split; constructor|].
    apply Forall_cons_iff in Hq. destruct Hq as [Hqx Hqq].
    destruct (step _ _ Hqx Hx) as [He Hn].
    destruct (IH Hqq) as [IH1 IH2]. simpl.
    split; apply Forall_app; split; assumption. }
  destruct H as [H1 H3]. split; [assumption|].
  apply Forall_app; split; assumption.
Qed.

Lemma loopOf_invariant (stop : nat -> bool) (fuel : nat) :
  forall (q : Queue.t) (contents : list Entity) (iterRound : nat)
         (out : list Entity),
    Forall Pq q -> Forall Pe contents ->
    loopOf round stop fuel q contents iterRound = Some (Ok out) ->
    Forall Pe out.
Proof.
  induction fuel as [|fuel IH]; intros q contents iterRound out Hq Hc Hl;
    destruct q as [|x q]; simpl in Hl; try discriminate;
    try (inversion Hl; subst; assumption).
  destruct (round (x :: q) contents) as [[q' contents']|e] eqn:Er;
    [|discriminate].
  destruct (roundOf_invariant _ _ _ _ Hq Hc Er) as [Hq' Hc'].
  destruct (stop iterRound).
  - inversion Hl; subst; assumption.
  - eapply IH; eassumption.
Qed.

(** When every path that can enter the queue is fetched, no round
    fails. *)
Hypothesis fetches : forall x, Pq x -> exists f, fetch x = Ok f.

Lemma loopOf_no_Err (stop : nat -> bool) (fuel : nat) :
  forall (q : Queue.t) (contents : list Entity) (iterRound : nat)
         (e : Error),
    Forall Pq q -> Forall Pe contents ->
    loopOf round stop fuel q contents iterRound <> Some (Err e).
Proof.
  induction fuel as [|fuel IH]; intros q contents iterRound e Hq Hc;
    destruct q as [|x q]; simpl; try discriminate.
  destruct (round (x :: q) contents) as [[q' contents']|e'] eqn:Er.
  - destruct (roundOf_invariant _ _ _ _ Hq Hc Er) as [Hq' Hc'].
    destruct (stop iterRound); [discriminate|]. apply IH; assumption.
  - exfalso. unfold round, roundOf in Er.
    destruct (awaitInOrder_no_Err _ _ fetch (x :: q)) as [r Hr].
    + intros y Hy. apply fetches. rewrite Forall_forall in Hq. auto.
    + rewrite Hr in Er. discriminate.
Qed.

End Invariant.

(** *** Every reachable path is fetched *)

Lemma reach_nil (x : jsstring) : ~ reach fetch next [] x.
Proof. induction 1; auto. Qed.

Lemma loopOf_complete (fuel : nat) :
  forall (q : Queue.t) (contents : list Entity) (iterRound : nat)
         (out : list Entity),
    loopOf round (fun _ => false) fuel q contents iterRound
    = Some (Ok out) ->
    incl contents out
    /\ forall x, reach fetch next q x ->
                 exists f, fetch x = Ok f /\ incl (emit f) out.
Proof.
  induction fuel as [|fuel IH]; intros q contents iterRound out Hl;
    destruct q as [|a q]; simpl in Hl; try discriminate.
  - inversion Hl; subst. split; [apply incl_refl|].
    intros x Hx. destruct (reach_nil _ Hx).
  - inversion Hl; subst. split; [apply incl_refl|].
    intros x Hx. destruct (reach_nil _ Hx).
  - destruct (round (a :: q) contents) as [[q' contents']|e] eqn:Er;
      [|discriminate].
    destruct (IH _ _ _ _ Hl) as [Hinc Hreach].
    destruct (roundOf_Ok _ _ _ _ Er) as [r [H2 [-> ->]]].
    split; [intros e He; apply Hinc, in_or_app; left; assumption|].
    assert (Hsplit : forall x, reach fetch next (a :: q) x ->
              In x (a :: q) \/ reach fetch next (flat_map next r) x).
    { induction 1 as [x Hx|y f x _ IHy Hf Hx]; [left; assumption|].
      right. destruct IHy as [Hy|Hy].
      - destruct (fetched_in _ _ _ H2 Hy) as [f' [Hf' Hin]].
        assert (f' = f) by congruence; subst.
        apply reach_seed, in_flat_map. exists f; split; assumption.
      - eapply reach_child; eassumption. }
    intros x Hx. destruct (Hsplit x Hx) as [Hin|Hr]; [|auto].
    destruct (fetched_in _ _ _ H2 Hin) as [f [Hf Hfr]].
    exists f. split; [assumption|].
    intros e He. apply Hinc, in_or_app. right.
    apply in_flat_map. exists f; split; assumption.
Qed.

(** *** A path that contributes nothing can be left out of the queue *)



End TraversalFacts.

(** ** What a fetch returns *)

Lemma key_entityOf (x : jsstring) (statRes : Stat) :
  key (entityOf x statRes) =
  if isFolderStat statRes then x ++ [slash] else x.
Proof. reflexivity. Qed.

Lemma isFolderStat_true (statRes : Stat) :
  isFolderStat statRes = true <-> type statRes = lit "folder".
Proof. apply eqb_eq. Qed.

Lemma fetchObs_Ok (configDir : jsstring) (vault : Vault) (x : jsstring)
  (f : Fetched) :
  fetchObs configDir vault x = Ok f ->
  exists statRes,
    statFix vault x = Resolved statRes
    /\ itself f = entityOf x statRes
    /\ children f =
       (if isFolderStat statRes then adapter_list vault x else None)
    /\ (isFolderStat statRes = false -> mtimeMissingOrZero statRes = false)
    /\ (isFolderStat statRes = true -> adapter_list vault x <> None).
Proof.
  unfold fetchObs, listChildren.
  destruct (statFix vault x) as [| |statRes]; try discriminate.
  destruct (isFolderStat statRes) eqn:Ef; simpl.
  - destruct (adapter_list vault x) as [listed|] eqn:El; simpl;
      [|discriminate].
    intros H; inversion H; subst. exists statRes. simpl. rewrite Ef.
    split; [reflexivity|]. split; [reflexivity|]. split; [reflexivity|].
    split; discriminate.
  - destruct (mtimeMissingOrZero statRes) eqn:Em; [discriminate|].
    intros H; inversion H; subst. exists statRes. simpl. rewrite Ef.
    split; [reflexivity|]. split; [reflexivity|]. split; [reflexivity|].
    split; [intros _; assumption | discriminate].
Qed.


Lemma fetchAdapter_Ok (vault : Vault) (x : jsstring) (f : option Fetched) :
  fetchAdapter vault x = Ok f ->
  (statFix vault x = Rejected /\ f = None)
  \/ exists statRes,
       statFix vault x = Resolved statRes
       /\ f = Some {| itself := entityOf x statRes;
                      children := if isFolderStat statRes
                                  then adapter_list vault x
                                  else None |}
       /\ (isFolderStat statRes = true -> adapter_list vault x <> None).
Proof.
  unfold fetchAdapter, listChildren.
  destruct (statFix vault x) as [| |statRes]; try discriminate.
  - intros H; inversion H; subst. left; split; reflexivity.
  - right. exists statRes. split; [reflexivity|].
    destruct (isFolderStat statRes); simpl in H.
    + destruct (adapter_list vault x) as [listed|]; simpl in H;
        [|discriminate].
      inversion H; subst. split; [reflexivity | discriminate].
    + inversion H; subst. split; [reflexivity | discriminate].
Qed.

Lemma nextObs_in (skip : jsstring -> list jsstring -> bool)
  (configDir : jsstring) (vault : Vault) (pluginId x : jsstring)
  (f : Fetched) (c : jsstring) :
  fetchObs configDir vault x = Ok f ->
  (In c (nextObs skip pluginId f) <->
   exists statRes,
     statFix vault x = Resolved statRes
     /\ isFolderStat statRes = true
     /\ In c (childrenOf vault x)
     /\ keepChild skip (isPluginDirItself (x ++ [slash]) pluginId) c = true).
Proof.
  intros Hf. destruct (fetchObs_Ok _ _ _ _ Hf) as [st [Hs [Hi [Hc _]]]].
  unfold nextObs. rewrite Hc, Hi, key_entityOf.
  destruct (isFolderStat st) eqn:Ef.
  - unfold childrenOf. destruct (adapter_list vault x) as [listed|].
    + rewrite filter_In. split.
      * intros [H1 H2]. exists st. repeat split; assumption.
      * intros [st' [Hs' [_ [H1 H2]]]]. split; assumption.
    + split; [contradiction|]. intros [st' [_ [_ [[] _]]]].
  - split; [contradiction|].
    intros [st' [Hs' [Ef' _]]]. congruence.
Qed.

Lemma nextAdapter_in (vault : Vault) (x : jsstring) (f : option Fetched)
  (c : jsstring) :
  fetchAdapter vault x = Ok f ->
  (In c (nextAdapter f) <->
   exists statRes,
     statFix vault x = Resolved statRes
     /\ isFolderStat statRes = true
     /\ In c (childrenOf vault x)).
Proof.
  intros Hf.
  destruct (fetchAdapter_Ok _ _ _ Hf) as [[Hs ->]|[st [Hs [-> _]]]].
  - simpl. split; [contradiction|]. intros [st [Hs' _]]. congruence.
  - simpl. destruct (isFolderStat st) eqn:Ef.
    + unfold childrenOf. destruct (adapter_list vault x) as [listed|].
      * split.
        -- intros H. exists st. repeat split; assumption.
        -- intros [st' [_ [_ H]]]. assumption.
      * split; [contradiction|]. intros [st' [_ [_ []]]].
    + split; [contradiction|]. intros [st' [Hs' [Ef' _]]]. congruence.
Qed.

(** The exported functions, through [roundOf]: the same run, up to the
    failure reported. *)
Lemma listFilesInObsFolder_loopOf (skip : jsstring -> list jsstring -> bool)
  (fuel : nat) (configDir : jsstring) (vault : Vault) (pluginId : jsstring)
  (bookmarksOnly : bool) :
  sameRun
    (listFilesInObsFolder skip fuel configDir vault pluginId bookmarksOnly)
    match
      loopOf
        (roundOf (fetchObs configDir vault) emitObs (nextObs skip pluginId))
        (fun r => bookmarksOnly && (1 <? r)) fuel [configDir] [] 0
    with
    | None => None
    | Some (Err e) => Some (Err e)
    | Some (Ok contents) =>
        Some (Ok (if bookmarksOnly
                  then filter (isRootOrBookmarks configDir) contents
                  else contents))
    end.
Proof.
  unfold listFilesInObsFolder, Queue.make. rewrite loopObs_loopOf.
  pose proof (loopOf_sameRun _ _ (fun r => bookmarksOnly && (1 <? r)) fuel
                (roundObs_roundOf skip configDir vault pluginId)
                [configDir] [] 0) as H.
  destruct (loopOf (roundObs skip configDir vault pluginId) _ fuel
              [configDir] [] 0) as [[c1|e1]|];
    destruct (loopOf (roundOf _ _ _) _ fuel [configDir] [] 0)
      as [[c2|e2]|];
    simpl in H |- *; try contradiction; try exact I.
  subst. reflexivity.
Qed.

Lemma listFilesByAdapterPaths_loopOf (fuel : nat) (roots : list jsstring)
  (vault : Vault) :
  sameRun
    (listFilesByAdapterPaths fuel roots vault)
    (loopOf (roundOf (fetchAdapter vault) emitAdapter nextAdapter)
       (fun _ => false) fuel (uniqueRoots roots) [] 0).
Proof.
  unfold listFilesByAdapterPaths, Queue.make.
  rewrite (loopAdapter_loopOf _ _ _ _ 0).
  apply loopOf_sameRun. apply roundAdapter_roundOf.
Qed.

Lemma listFilesByAdapterPaths_Ok (fuel : nat) (roots : list jsstring)
  (vault : Vault) (out : list Entity) :
  listFilesByAdapterPaths fuel roots vault = Some (Ok out) <->
  loopOf (roundOf (fetchAdapter vault) emitAdapter nextAdapter)
    (fun _ => false) fuel (uniqueRoots roots) [] 0 = Some (Ok out).
Proof. apply sameRun_Ok, listFilesByAdapterPaths_loopOf. Qed.


Lemma listFilesByAdapterPaths_None (fuel : nat) (roots : list jsstring)
  (vault : Vault) :
  listFilesByAdapterPaths fuel roots vault = None <->
  loopOf (roundOf (fetchAdapter vault) emitAdapter nextAdapter)
    (fun _ => false) fuel (uniqueRoots roots) [] 0 = None.
Proof. apply sameRun_None, listFilesByAdapterPaths_loopOf. Qed.

(** What [listFilesInObsFolder] returns is drawn from the contents its
    loop ends with. *)
Lemma listFilesInObsFolder_contents
  (skip : jsstring -> list jsstring -> bool)
  (fuel : nat) (configDir : jsstring) (vault : Vault) (pluginId : jsstring)
  (bookmarksOnly : bool) (out : list Entity) :
  listFilesInObsFolder skip fuel configDir vault pluginId bookmarksOnly
  = Some (Ok out) ->
  exists contents,
    loopOf (roundOf (fetchObs configDir vault) emitObs (nextObs skip pluginId))
      (fun r => bookmarksOnly && (1 <? r)) fuel [configDir] [] 0
    = Some (Ok contents)
    /\ out = (if bookmarksOnly
              then filter (isRootOrBookmarks configDir) contents
              else contents).
Proof.
  intros H.
  apply (sameRun_Ok _ _ _ out
           (listFilesInObsFolder_loopOf skip fuel configDir vault pluginId
              bookmarksOnly)) in H.
  destruct (loopOf _ _ fuel [configDir] [] 0) as [[contents|e]|];
    try discriminate.
  inversion H; subst. exists contents. split; reflexivity.
Qed.

Lemma listFilesInObsFolder_Err_loopOf
  (skip : jsstring -> list jsstring -> bool)
  (fuel : nat) (configDir : jsstring) (vault : Vault) (pluginId : jsstring)
  (bookmarksOnly : bool) :
  (exists e,
      listFilesInObsFolder skip fuel configDir vault pluginId bookmarksOnly
      = Some (Err e)) <->
  (exists e,
      loopOf
        (roundOf (fetchObs configDir vault) emitObs (nextObs skip pluginId))
        (fun r => bookmarksOnly && (1 <? r)) fuel [configDir] [] 0
      = Some (Err e)).
Proof.
  rewrite (sameRun_Err _ _ _
             (listFilesInObsFolder_loopOf skip fuel configDir vault pluginId
                bookmarksOnly)).
  destruct (loopOf _ _ fuel [configDir] [] 0) as [[contents|e]|];
    split; intros [e' E]; try discriminate; eauto.
Qed.

Lemma listFilesInObsFolder_None_loopOf
  (skip : jsstring -> list jsstring -> bool)
  (fuel : nat) (configDir : jsstring) (vault : Vault) (pluginId : jsstring)
  (bookmarksOnly : bool) :
  listFilesInObsFolder skip fuel configDir vault pluginId bookmarksOnly
  = None <->
  loopOf (roundOf (fetchObs configDir vault) emitObs (nextObs skip pluginId))
    (fun r => bookmarksOnly && (1 <? r)) fuel [configDir] [] 0
  = None.
Proof.
  rewrite (sameRun_None _ _ _
             (listFilesInObsFolder_loopOf skip fuel configDir vault pluginId
                bookmarksOnly)).
  destruct (loopOf _ _ fuel [configDir] [] 0) as [[contents|e]|];
    split; intros E; try discriminate; reflexivity.
Qed.

Lemma listFilesInObsFolder_Ok_loopOf
  (skip : jsstring -> list jsstring -> bool)
  (fuel : nat) (configDir : jsstring) (vault : Vault) (pluginId : jsstring)
  (bookmarksOnly : bool) (contents : list Entity) :
  loopOf (roundOf (fetchObs configDir vault) emitObs (nextObs skip pluginId))
    (fun r => bookmarksOnly && (1 <? r)) fuel [configDir] [] 0
  = Some (Ok contents) ->
  listFilesInObsFolder skip fuel configDir vault pluginId bookmarksOnly
  = Some (Ok (if bookmarksOnly
              then filter (isRootOrBookmarks configDir) contents
              else contents)).
Proof.
  intros H.
  apply (sameRun_Ok _ _ _ _
           (listFilesInObsFolder_loopOf skip fuel configDir vault pluginId
              bookmarksOnly)).
  rewrite H. reflexivity.
Qed.

Lemma specialNameSkipPredicate_contract :
  skipsReserved specialNameSkipPredicate
  /\ skipsOnlyReserved specialNameSkipPredicate.
Proof. split; intros name l H; exact H. Qed.

(** ** Vaults given by tables *)

Lemma tableVault_children_of (stats : list (jsstring * StatOutcome))
  (lists : list (jsstring * ListedFiles)) (p c : jsstring) :
  In c (childrenOf (tableVault stats lists) p) ->
  exists l, In (p, l) lists /\ In c (folders l ++ files l).
Proof.
  unfold childrenOf, tableVault, lookup. simpl.
  destruct (find (fun entry => JS.eqb (fst entry) p) lists) as [[k l]|] eqn:E.
  - apply find_some in E. destruct E as [Hin Hk]. simpl in Hk.
    apply eqb_eq in Hk. subst. simpl. intros Hc. exists l. split; assumption.
  - simpl. contradiction.
Qed.

(** ** Keys of the listed entities *)

Lemma keyFollowsType_entityOf (vault : Vault) (seeds : list jsstring)
  (x : jsstring) (statRes : Stat) :
  statFix vault x = Resolved statRes ->
  (noTrailingSlashNames vault seeds -> endsWith x [slash] = false) ->
  keyFollowsType vault seeds (entityOf x statRes).
Proof.
  intros Hs Hx. split; [reflexivity|].
  exists x, statRes. split; [assumption|]. split; [reflexivity|].
  rewrite key_entityOf, <- isFolderStat_true.
  destruct (isFolderStat statRes).
  - split; [intros _; apply endsWith_slash_snoc|].
    intros _. split; [reflexivity | intros _; apply endsWith_slash_snoc].
  - split; [discriminate|].
    intros Hn. rewrite (Hx Hn). split; discriminate.
Qed.

Lemma keyFollowsType_obs (skip : jsstring -> list jsstring -> bool)
  (fuel : nat) (configDir : jsstring) (vault : Vault) (pluginId : jsstring)
  (bookmarksOnly : bool) (out : list Entity) :
  listFilesInObsFolder skip fuel configDir vault pluginId bookmarksOnly
  = Some (Ok out) ->
  Forall (keyFollowsType vault [configDir]) out.
Proof.
  intros H. apply listFilesInObsFolder_contents in H.
  destruct H as [contents [Hl ->]].
  assert (Hc : Forall (keyFollowsType vault [configDir]) contents).
  { refine (loopOf_invariant _ _ _ _
              (fun x => noTrailingSlashNames vault [configDir] ->
                        endsWith x [slash] = false)
              _ _ _ fuel [configDir] [] 0 contents _ _ Hl).
    - intros x f Hx Hf. split.
      + destruct (fetchObs_Ok _ _ _ _ Hf) as [st [Hs [Hi _]]].
        unfold emitObs. rewrite Hi. constructor; [|constructor].
        apply keyFollowsType_entityOf; assumption.
      + apply Forall_forall. intros c Hc Hn.
        apply (nextObs_in skip configDir vault pluginId x f c Hf) in Hc.
        destruct Hc as [st [_ [_ [Hc _]]]]. destruct Hn as [_ Hn]. eauto.
    - constructor; [|constructor]. intros [Hn _]. apply Hn. left; reflexivity.
    - constructor. }
  destruct bookmarksOnly; [|assumption].
  apply Forall_forall. intros e He. apply filter_In in He.
  rewrite Forall_forall in Hc. apply Hc, He.
Qed.

Lemma keyFollowsType_adapter (fuel : nat) (roots : list jsstring)
  (vault : Vault) (out : list Entity) :
  listFilesByAdapterPaths fuel roots vault = Some (Ok out) ->
  Forall (keyFollowsType vault (uniqueRoots roots)) out.
Proof.
  rewrite listFilesByAdapterPaths_Ok. intros Hl.
  refine (loopOf_invariant _ _ _ _
            (fun x => noTrailingSlashNames vault (uniqueRoots roots) ->
                      endsWith x [slash] = false)
            _ _ _ fuel (uniqueRoots roots) [] 0 out _ _ Hl).
  - intros x f Hx Hf. split.
    + destruct (fetchAdapter_Ok _ _ _ Hf) as [[_ ->]|[st [Hs [-> _]]]];
        [constructor|].
      simpl. constructor; [|constructor].
      apply keyFollowsType_entityOf; assumption.
    + apply Forall_forall. intros c Hc Hn.
      apply (nextAdapter_in vault x f c Hf) in Hc.
      destruct Hc as [st [_ [_ Hc]]]. destruct Hn as [_ Hn]. eauto.
  - apply Forall_forall. intros r Hr [Hn _]. auto.
  - constructor.
Qed.

(** C8 (as amended).  Every entity either lister returns was built from a
    fetched path and the metadata of that path; its [keyRaw] is its [key];
    the key of a folder ends with a slash; and when no root and no listed
    name ends with a slash itself, the key ends with a slash if and only if
    the metadata said "folder". *)
Theorem listed_key_follows_type
  (skip : jsstring -> list jsstring -> bool) (vault : Vault) (fuel : nat)
  (configDir pluginId : jsstring) (bookmarksOnly : bool)
  (roots : list jsstring) :
  (forall out,
      listFilesInObsFolder skip fuel configDir vault pluginId bookmarksOnly
      = Some (Ok out) ->
      forall e, In e out -> keyFollowsType vault [configDir] e)
  /\ (forall out,
         listFilesByAdapterPaths fuel roots vault = Some (Ok out) ->
         forall e, In e out -> keyFollowsType vault (uniqueRoots roots) e).
Proof.
  split; intros out H.
  - apply Forall_forall. eapply keyFollowsType_obs; eassumption.
  - apply Forall_forall. eapply keyFollowsType_adapter; eassumption.
Qed.

Lemma configVault_noTrailingSlashNames :
  noTrailingSlashNames configVault [lit ".obsidian"].
Proof.
  split.
  - intros r [<-|[]]. reflexivity.
  - intros p c H. apply tableVault_children_of in H.
    destruct H as [l [Hl Hc]]. simpl in Hl.
    repeat (destruct Hl as [Hl|Hl]; [inversion Hl; subst; clear Hl|]);
      try contradiction;
      simpl in Hc;
      repeat (destruct Hc as [Hc|Hc]; [subst; reflexivity|]);
      contradiction.
Qed.

(** C8, witness: the configuration folder of [configVault], where no name
    ends with a slash. *)
Lemma listed_key_follows_type_witness :
  exists out,
    listFilesInObsFolder specialNameSkipPredicate 4 (lit ".obsidian")
      configVault (lit "remotely-save") false = Some (Ok out)
    /\ forall e, In e out ->
         exists x statRes,
           statFix configVault x = Resolved statRes
           /\ e = entityOf x statRes
           /\ (endsWith (key e) [slash] = true
               <-> type statRes = lit "folder").
Proof.
  eexists. split; [vm_compute; reflexivity|].
  intros e He.
  destruct (listed_key_follows_type specialNameSkipPredicate configVault 4
              (lit ".obsidian") (lit "remotely-save") false []) as [H _].
  destruct (H _ eq_refl e He) as [_ [x [st [Hs [Hx [_ Hiff]]]]]].
  exists x, st. split; [exact Hs|]. split; [exact Hx|].
  exact (Hiff configVault_noTrailingSlashNames).
Defined.

(** C8, counterexample: a root whose path ends with a slash and whose
    metadata says "file" is listed under a key that ends with a slash. *)
Lemma file_key_with_trailing_slash :
  exists out e statRes,
    listFilesByAdapterPaths 1 [lit "a/"] slashFileVault = Some (Ok out)
    /\ In e out
    /\ statFix slashFileVault (lit "a/") = Resolved statRes
    /\ e = entityOf (lit "a/") statRes
    /\ type statRes = lit "file"
    /\ endsWith (key e) [slash] = true.
Proof.
  eexists. eexists. eexists.
  split; [vm_compute; reflexivity|].
  split; [left; reflexivity|].
  split; [vm_compute; reflexivity|].
  repeat split.
Qed.

(** ** Reserved names *)

Lemma isReservedKey_entityOf (x : jsstring) (statRes : Stat) :
  isReservedKey x = false -> isReservedKey (key (entityOf x statRes)) = false.
Proof.
  intros H. rewrite key_entityOf.
  destruct (isFolderStat statRes); [apply isReservedKey_slash | assumption].
Qed.

(** ** The bookmarks-only mode *)

(** A loop whose [stop] first holds of round [k] runs [k + 1] levels. *)
Lemma loopOf_stops_at
  (round : Queue.t -> list Entity -> Result (Queue.t * list Entity))
  (stop : nat -> bool) (k : nat) :
  forall (fuel : nat) (q : Queue.t) (contents : list Entity)
         (iterRound : nat),
    (forall i, iterRound <= i < iterRound + k -> stop i = false) ->
    stop (iterRound + k) = true ->
    k < fuel ->
    loopOf round stop fuel q contents iterRound =
    Some (st <- levelsOf round (S k) q contents ;; Ok (snd st)).
Proof.
  induction k as [|k IH]; intros fuel q contents iterRound Hn Hs Hf;
    (destruct fuel as [|fuel]; [lia|]);
    (destruct q as [|x q]; [reflexivity|]).
  - rewrite Nat.add_0_r in Hs. rewrite (loopOf_stop _ _ _ _ _ _ _ Hs).
    cbn [levelsOf]. destruct (round (x :: q) contents) as [[q1 c1]|e];
      reflexivity.
  - cbn [loopOf]. cbn [levelsOf].
    destruct (round (x :: q) contents) as [[q1 c1]|e]; [|reflexivity].
    rewrite Hn by lia. cbn [bind fst snd]. apply IH.
    + intros i Hi. apply Hn. lia.
    + rewrite <- Hs. f_equal. lia.
    + lia.
Qed.

Lemma levelsObs_roundOf (skip : jsstring -> list jsstring -> bool) (n : nat)
  (configDir : jsstring) (vault : Vault) (pluginId : jsstring)
  (st : Queue.t * list Entity) :
  levelsObs skip n configDir vault pluginId = Ok st <->
  levelsOf (roundOf (fetchObs configDir vault) emitObs (nextObs skip pluginId))
    n [configDir] [] = Ok st.
Proof.
  unfold levelsObs, Queue.make.
  apply sameOutcome_Ok, levelsOf_sameOutcome, roundObs_roundOf.
Qed.

Lemma listFilesInObsFolder_bookmarksOnly
  (skip : jsstring -> list jsstring -> bool) (fuel : nat)
  (configDir : jsstring) (vault : Vault) (pluginId : jsstring) :
  3 <= fuel ->
  listFilesInObsFolder skip fuel configDir vault pluginId true =
  Some (st <- levelsObs skip 3 configDir vault pluginId ;;
        Ok (filter (isRootOrBookmarks configDir) (snd st))).
Proof.
  intros Hf. unfold listFilesInObsFolder, levelsObs.
  rewrite loopObs_loopOf.
  rewrite (loopOf_stops_at _ (fun r => true && (1 <? r)) 2 fuel).
  - destruct (levelsOf _ 3 (Queue.make [configDir]) []) as [[q c]|e];
      reflexivity.
  - intros i Hi. assert (i = 0 \/ i = 1) as [-> | ->] by lia; reflexivity.
  - reflexivity.
  - lia.
Qed.

(** C3 (as amended).  With [bookmarksOnly], [listFilesInObsFolder] stops
    after the rounds 0, 1 and 2: it returns what the first three levels
    give (a failure of one of them, or their contents, filtered), whatever
    is left in the queue. *)
Theorem bookmarksOnly_stops_after_three_rounds
  (skip : jsstring -> list jsstring -> bool) (fuel : nat)
  (configDir : jsstring) (vault : Vault) (pluginId : jsstring) :
  3 <= fuel ->
  listFilesInObsFolder skip fuel configDir vault pluginId true =
  Some (st <- levelsObs skip 3 configDir vault pluginId ;;
        Ok (filter (isRootOrBookmarks configDir) (snd st))).
Proof. apply listFilesInObsFolder_bookmarksOnly. Qed.

(** C3, witness: [configVault] is four levels deep; its fourth level is
    left in the queue. *)
Lemma bookmarksOnly_stops_after_three_rounds_witness :
  listFilesInObsFolder specialNameSkipPredicate 7 (lit ".obsidian")
    configVault (lit "remotely-save") true =
  Some (st <- levelsObs specialNameSkipPredicate 3 (lit ".obsidian")
                configVault (lit "remotely-save") ;;
        Ok (filter (isRootOrBookmarks (lit ".obsidian")) (snd st)))
  /\ exists contents,
       levelsObs specialNameSkipPredicate 3 (lit ".obsidian") configVault
         (lit "remotely-save")
       = Ok ([lit ".obsidian/plugins/remotely-save/data.json"], contents).
Proof.
  split.
  - apply (bookmarksOnly_stops_after_three_rounds specialNameSkipPredicate 7
             (lit ".obsidian") configVault (lit "remotely-save")). lia.
  - eexists. vm_compute. reflexivity.
Defined.

(** C3, counterexample: the traversal does not stop after the rounds 0
    and 1.  In [deepVault] the third level holds a path without metadata;
    it is fetched, and the call fails, where two levels give a result. *)
Lemma bookmarksOnly_fetches_third_level :
  ~ (forall (skip : jsstring -> list jsstring -> bool) (fuel : nat)
            (configDir : jsstring) (vault : Vault) (pluginId : jsstring),
        2 <= fuel ->
        listFilesInObsFolder skip fuel configDir vault pluginId true =
        Some (st <- levelsObs skip 2 configDir vault pluginId ;;
              Ok (filter (isRootOrBookmarks configDir) (snd st)))).
Proof.
  intros H.
  assert (Hfuel : 2 <= 5) by lia.
  specialize (H specialNameSkipPredicate 5 (lit "c") deepVault
                (lit "remotely-save") Hfuel).
  vm_compute in H. discriminate.
Qed.

Lemma canBeKept_true (configDir x : jsstring) :
  canBeKept configDir x = true ->
  x = configDir \/ x = configDir ++ [slash]
  \/ x = configDir ++ lit "/bookmarks.json".
Proof.
  unfold canBeKept. intros H. apply orb_true_iff in H.
  destruct H as [H|H]; [apply orb_true_iff in H; destruct H as [H|H]|];
    apply eqb_eq in H; auto.
Qed.

(** Only the entity of such a path passes the final filter. *)
Lemma canBeKept_entityOf (configDir x : jsstring) (statRes : Stat) :
  isRootOrBookmarks configDir (entityOf x statRes) = true ->
  canBeKept configDir x = true.
Proof.
  unfold isRootOrBookmarks, canBeKept. rewrite key_entityOf.
  destruct (isFolderStat statRes).
  - assert (E1 : JS.eqb (x ++ [slash]) (configDir ++ [slash])
                 = JS.eqb x configDir).
    { rewrite eqb_snoc, N.eqb_refl. reflexivity. }
    assert (E2 : JS.eqb (x ++ [slash]) (configDir ++ lit "/bookmarks.json")
                 = false).
    { change (lit "/bookmarks.json") with (lit "/bookmarks.jso" ++ [110%N]).
      rewrite app_assoc, eqb_snoc. reflexivity. }
    rewrite E1, E2, orb_false_r. intros ->. reflexivity.
  - intros H.
    destruct (JS.eqb x configDir), (JS.eqb x (configDir ++ [slash])),
      (JS.eqb x (configDir ++ lit "/bookmarks.json"));
      simpl in *; congruence.
Qed.

Lemma kept_entities_le (configDir : jsstring) (vault : Vault) (q : Queue.t)
  (r : list Fetched) :
  Forall2 (fun x f => fetchObs configDir vault x = Ok f) q r ->
  List.length (filter (isRootOrBookmarks configDir) (flat_map emitObs r))
  <= List.length (filter (canBeKept configDir) q).
Proof.
  induction 1 as [|x f q r Hx _ IH]; [apply le_n|].
  cbn [flat_map emitObs app filter].
  destruct (fetchObs_Ok _ _ _ _ Hx) as [st [_ [Hi _]]]. rewrite Hi.
  destruct (isRootOrBookmarks configDir (entityOf x st)) eqn:E.
  - rewrite (canBeKept_entityOf _ _ _ E). simpl. lia.
  - destruct (canBeKept configDir x); simpl; lia.
Qed.

(** The children a fetched path passes on are drawn from its listing, in
    order. *)
Lemma nextObs_filter (skip : jsstring -> list jsstring -> bool)
  (configDir : jsstring) (vault : Vault) (pluginId x : jsstring)
  (f : Fetched) :
  fetchObs configDir vault x = Ok f ->
  exists keep, nextObs skip pluginId f = filter keep (childrenOf vault x).
Proof.
  intros Hf. destruct (fetchObs_Ok _ _ _ _ Hf) as [st [_ [_ [Hc _]]]].
  unfold nextObs, childrenOf. rewrite Hc.
  destruct (isFolderStat st).
  - destruct (adapter_list vault x) as [listed|]; [eauto|].
    exists (fun _ => true). reflexivity.
  - exists (fun _ => false). symmetry. apply filter_none. reflexivity.
Qed.

Lemma levelsOf_S_roundOf (F : Type) (fetch : jsstring -> Result F)
  (emit : F -> list Entity) (next : F -> list jsstring) (n : nat)
  (q : Queue.t) (contents : list Entity) (st : Queue.t * list Entity) :
  levelsOf (roundOf fetch emit next) (S n) q contents = Ok st ->
  exists r,
    Forall2 (fun x y => fetch x = Ok y) q r
    /\ levelsOf (roundOf fetch emit next) n (flat_map next r)
         (contents ++ flat_map emit r) = Ok st.
Proof.
  destruct q as [|x q].
  - simpl. intros H. exists []. split; [constructor|]. simpl.
    rewrite app_nil_r. destruct n; exact H.
  - cbn [levelsOf].
    destruct (roundOf fetch emit next (x :: q) contents)
      as [[q1 c1]|e] eqn:Er; [|discriminate].
    cbn [bind fst snd]. intros H.
    destruct (roundOf_Ok _ _ _ _ _ _ _ _ Er) as [r [H2 [-> ->]]].
    exists r. split; assumption.
Qed.

(** Three levels keep at most two entities when the storage names the
    bookmarks once: the root, and the bookmarks found in the second
    level. *)
Lemma bookmarksOnly_at_most_two (skip : jsstring -> list jsstring -> bool)
  (configDir : jsstring) (vault : Vault) (pluginId : jsstring)
  (q : Queue.t) (contents : list Entity) :
  levelsOf (roundOf (fetchObs configDir vault) emitObs (nextObs skip pluginId))
    3 [configDir] [] = Ok (q, contents) ->
  listsBookmarksOnce vault configDir ->
  List.length (filter (isRootOrBookmarks configDir) contents) <= 2.
Proof.
  intros Hl [Hnd Hlist].
  apply levelsOf_S_roundOf in Hl. destruct Hl as [r0 [H0 Hl]].
  apply levelsOf_S_roundOf in Hl. destruct Hl as [r1 [H1 Hl]].
  apply levelsOf_S_roundOf in Hl. destruct Hl as [r2 [H2 Hl]].
  cbn [levelsOf] in Hl. inversion Hl; subst q contents. clear Hl.
  pose proof (kept_entities_le _ _ _ _ H0) as B0.
  pose proof (kept_entities_le _ _ _ _ H1) as B1.
  pose proof (kept_entities_le _ _ _ _ H2) as B2.
  inversion H0 as [|x0 f0 q0 r0' Hf0 Hnil]; subst.
  inversion Hnil; subst. clear H0 Hnil.
  cbn [flat_map] in *. rewrite !app_nil_r in *.
  assert (Hq1 : forall y, In y (nextObs skip pluginId f0) ->
                          In y (childrenOf vault configDir)).
  { intros y Hy.
    apply (nextObs_in skip configDir vault pluginId configDir f0 y Hf0) in Hy.
    destruct Hy as [st [_ [_ [Hy _]]]]. exact Hy. }
  assert (L0 : List.length (filter (canBeKept configDir) [configDir]) <= 1).
  { cbn [filter]. destruct (canBeKept configDir configDir); simpl; lia. }
  assert (L1 : List.length
                 (filter (canBeKept configDir) (nextObs skip pluginId f0))
               <= 1).
  { apply (NoDup_incl_length
             (l' := [configDir ++ lit "/bookmarks.json"])).
    - apply NoDup_filter.
      destruct (nextObs_filter skip configDir vault pluginId configDir f0 Hf0)
        as [keep ->].
      apply NoDup_filter. exact Hnd.
    - intros y Hy. apply filter_In in Hy. destruct Hy as [Hy Hk].
      destruct (Hlist configDir y (or_introl eq_refl) (Hq1 y Hy))
        as [N1 [N2 _]].
      destruct (canBeKept_true _ _ Hk) as [E|[E|E]];
        [contradiction | contradiction | left; symmetry; exact E]. }
  assert (L2 : filter (canBeKept configDir)
                 (flat_map (nextObs skip pluginId) r1) = []).
  { apply filter_none. intros c Hc.
    destruct (canBeKept configDir c) eqn:Hk; [exfalso | reflexivity].
    apply in_flat_map in Hc. destruct Hc as [f [Hf Hc]].
    destruct (fetched_from _ _ _ _ _ H1 Hf) as [y [Hy Hfy]].
    apply (nextObs_in skip configDir vault pluginId y f c Hfy) in Hc.
    destruct Hc as [st [_ [_ [Hc _]]]].
    destruct (Hlist y c (or_intror (Hq1 y Hy)) Hc) as [N1 [N2 N3]].
    destruct (canBeKept_true _ _ Hk) as [E|[E|E]];
      [contradiction | contradiction |].
    specialize (N3 E). subst y.
    destruct (Hlist configDir configDir (or_introl eq_refl) (Hq1 _ Hy))
      as [N4 _].
    apply N4. reflexivity. }
  rewrite L2 in B2. cbn [List.length] in B2.
  rewrite !filter_app, !length_app. cbn [filter List.length].
  lia.
Qed.

(** C5 (as amended).  With [bookmarksOnly] and fuel for three rounds,
    [listFilesInObsFolder] returns; every entity it returns has the key
    [configDir/] or [configDir/bookmarks.json]; and it returns at most two
    entities when the storage names the bookmarks once: when the listing
    of the root names no path twice, and neither it nor the listing of a
    path it names holds the root, the root followed by a slash or, the
    listing of the root apart, [configDir/bookmarks.json]. *)
Theorem bookmarksOnly_keeps_root_and_bookmarks
  (skip : jsstring -> list jsstring -> bool) (fuel : nat)
  (configDir : jsstring) (vault : Vault) (pluginId : jsstring) :
  3 <= fuel ->
  exists r,
    listFilesInObsFolder skip fuel configDir vault pluginId true = Some r
    /\ forall out,
         r = Ok out ->
         (forall e, In e out ->
                    key e = configDir ++ [slash]
                    \/ key e = configDir ++ lit "/bookmarks.json")
         /\ (listsBookmarksOnce vault configDir -> List.length out <= 2).
Proof.
  intros Hf. rewrite (listFilesInObsFolder_bookmarksOnly _ _ _ _ _ Hf).
  eexists. split; [reflexivity|]. intros out Hout.
  destruct (levelsObs skip 3 configDir vault pluginId) as [[q c]|e] eqn:El;
    [|discriminate].
  simpl in Hout. inversion Hout; subst. clear Hout. split.
  - intros e He. apply filter_In in He. destruct He as [_ He].
    unfold isRootOrBookmarks in He. apply orb_true_iff in He.
    destruct He as [He|He]; apply eqb_eq in He; auto.
  - intros Honce. apply levelsObs_roundOf in El.
    exact (bookmarksOnly_at_most_two skip configDir vault pluginId q c
             El Honce).
Qed.

Lemma configVault_listsBookmarksOnce :
  listsBookmarksOnce configVault (lit ".obsidian").
Proof.
  split.
  - unfold childrenOf. simpl.
    repeat (constructor; [simpl; intuition discriminate|]). constructor.
  - intros p c _ Hc. apply tableVault_children_of in Hc.
    destruct Hc as [l [Hl Hc]]. simpl in Hl.
    repeat (destruct Hl as [Hl|Hl]; [inversion Hl; subst; clear Hl|]);
      try contradiction;
      simpl in Hc;
      repeat (destruct Hc as [Hc|Hc]; [subst c|]);
      try contradiction;
      (split; [vm_compute; discriminate|]);
      (split; [vm_compute; discriminate|]);
      intros E; first [reflexivity | vm_compute in E; discriminate E].
Qed.

(** C5, witness: the configuration folder of [configVault], which names
    its [bookmarks.json] once: two entities. *)
Lemma bookmarksOnly_keeps_root_and_bookmarks_witness :
  exists out,
    listFilesInObsFolder specialNameSkipPredicate 3 (lit ".obsidian")
      configVault (lit "remotely-save") true = Some (Ok out)
    /\ List.map key out
       = [lit ".obsidian/"; lit ".obsidian/bookmarks.json"]
    /\ List.length out <= 2.
Proof.
  destruct (bookmarksOnly_keeps_root_and_bookmarks specialNameSkipPredicate
              3 (lit ".obsidian") configVault (lit "remotely-save")
              (le_n 3)) as [r [Hr Hall]].
  vm_compute in Hr. inversion Hr as [Er]. clear Hr.
  eexists. split; [vm_compute; reflexivity|]. split; [reflexivity|].
  apply (proj2 (Hall _ (eq_sym Er))).
  exact configVault_listsBookmarksOnce.
Defined.

(** C5, counterexample: a listing that names [bookmarks.json] twice gives
    three entities. *)
Lemma bookmarksOnly_three_entities :
  ~ (forall (skip : jsstring -> list jsstring -> bool) (fuel : nat)
            (configDir : jsstring) (vault : Vault) (pluginId : jsstring)
            (out : list Entity),
        listFilesInObsFolder skip fuel configDir vault pluginId true
        = Some (Ok out) ->
        List.length out <= 2).
Proof.
  intros H.
  specialize (H specialNameSkipPredicate 3 (lit "c") twiceListedVault
                (lit "remotely-save") _ eq_refl).
  vm_compute in H. lia.
Qed.

(** C9.  When the metadata of the configuration root says "file", with a
    modification time that is not zero, the bookmarks-only listing is
    empty: the only entity visited has the key [configDir], which the final
    filter drops, and a file has no children to visit. *)
Theorem file_root_bookmarksOnly_empty
  (skip : jsstring -> list jsstring -> bool) (fuel : nat)
  (configDir : jsstring) (vault : Vault) (pluginId : jsstring)
  (statRes : Stat) (m : Z) :
  statFix vault configDir = Resolved statRes ->
  type statRes = lit "file" ->
  mtime statRes = Some m ->
  m <> 0%Z ->
  1 <= fuel ->
  listFilesInObsFolder skip fuel configDir vault pluginId true = Some (Ok []).
Proof.
  intros Hs Ht Hm Hm0 Hf.
  assert (Efolder : isFolderStat statRes = false).
  { unfold isFolderStat. rewrite Ht. reflexivity. }
  assert (Emtime : mtimeMissingOrZero statRes = false).
  { unfold mtimeMissingOrZero. rewrite Hm. apply Z.eqb_neq; assumption. }
  destruct fuel as [|fuel]; [lia|].
  unfold listFilesInObsFolder, Queue.make. cbn [loopObs].
  unfold roundObs. rewrite drain_spec. cbn [app]. unfold CHUNK_SIZE.
  cbn [chunk chunkFuel List.length firstn skipn chunksObs].
  unfold promiseAll. cbn [firstRejection resolvedValues].
  unfold fetchObs. rewrite Hs, Efolder, Emtime. cbn [negb andb bind fold_left].
  unfold consumeObs. cbn [children itself app chunksObs andb Nat.ltb Nat.leb].
  destruct fuel; cbn [loopObs filter]; unfold isRootOrBookmarks;
    rewrite key_entityOf, Efolder, !eqb_app_self by discriminate;
    reflexivity.
Qed.

(** C9, witness: a vault whose configuration root is a file. *)
Lemma file_root_bookmarksOnly_empty_witness :
  listFilesInObsFolder specialNameSkipPredicate 1 (lit "workspace")
    workspaceFileVault (lit "remotely-save") true = Some (Ok []).
Proof.
  apply (file_root_bookmarksOnly_empty specialNameSkipPredicate 1
           (lit "workspace") workspaceFileVault (lit "remotely-save")
           {| type := lit "file"; mtime := Some 1700000000000%Z;
              size := 42%Z |} 1700000000000%Z).
  - reflexivity.
  - reflexivity.
  - reflexivity.
  - discriminate.
  - apply le_n.
Defined.

(** ** Names of the plugin's own files *)

Lemma startsWith_both (r p1 p2 : jsstring) :
  startsWith r p1 = true -> startsWith r p2 = true ->
  startsWith p1 p2 || startsWith p2 p1 = true.
Proof.
  revert r p2; induction p1 as [|c p1 IH]; intros r p2 H1 H2.
  - destruct p2; reflexivity.
  - destruct p2 as [|d p2]; [reflexivity|].
    destruct r as [|a r]; [discriminate|]. simpl in *.
    apply andb_true_iff in H1. destruct H1 as [E1 H1].
    apply andb_true_iff in H2. destruct H2 as [E2 H2].
    apply N.eqb_eq in E1. apply N.eqb_eq in E2. subst.
    rewrite N.eqb_refl. simpl. eapply IH; eassumption.
Qed.

(** Two suffixes of one string: one is a suffix of the other. *)
Lemma endsWith_both (c p1 p2 : jsstring) :
  endsWith c p1 = true -> endsWith c p2 = true ->
  endsWith p1 p2 || endsWith p2 p1 = true.
Proof. unfold endsWith. apply startsWith_both. Qed.

Lemma endsWith_app_r (c a b : jsstring) :
  endsWith c (a ++ b) = true -> endsWith c b = true.
Proof.
  rewrite !endsWith_spec. intros [t ->]. exists (t ++ a).
  rewrite app_assoc. reflexivity.
Qed.

Ltac names_clash :=
  match goal with
  | H1 : JS.eqb ?c _ = true, H2 : JS.eqb ?c _ = true |- _ =>
      apply eqb_eq in H1; apply eqb_eq in H2; subst; discriminate
  | H1 : JS.eqb ?c _ = true, H2 : endsWith ?c _ = true |- _ =>
      apply eqb_eq in H1; subst; vm_compute in H2; discriminate
  | H1 : endsWith ?c _ = true, H2 : endsWith ?c _ = true |- _ =>
      let X := fresh in
      pose proof (endsWith_both _ _ _ H1 H2) as X;
      vm_compute in X; discriminate
  end.

Ltac split_names H :=
  repeat match type of H with
         | (_ || _) = true =>
             apply orb_true_iff in H; destruct H as [H|H]
         | false = true => discriminate
         end.

(** None of the plugin's files has a reserved name. *)
Lemma pluginSubFiles_not_reserved (c : jsstring) :
  isLikelyPluginSubFiles c = true ->
  specialNameSkipPredicate c reservedNames = false.
Proof.
  intros Hl.
  destruct (specialNameSkipPredicate c reservedNames) eqn:Hr; [|reflexivity].
  exfalso. unfold isLikelyPluginSubFiles, reqFiles in Hl.
  unfold specialNameSkipPredicate, reservedNames in Hr.
  cbn [existsb] in Hl, Hr.
  split_names Hl; split_names Hr; names_clash.
Qed.

Lemma data_json_is_plugin_file (c : jsstring) :
  endsWith c (lit "/remotely-save/data.json") = true ->
  isLikelyPluginSubFiles c = true.
Proof.
  intros H. unfold isLikelyPluginSubFiles, reqFiles. cbn [existsb].
  rewrite (endsWith_app_r c (lit "/remotely-save") (slash :: lit "data.json"))
    by exact H.
  rewrite orb_true_r. reflexivity.
Qed.

Lemma secret_db_is_no_plugin_file (c : jsstring) :
  endsWith c (lit "/remotely-save/secret.db") = true ->
  isLikelyPluginSubFiles c = false.
Proof.
  intros H.
  destruct (isLikelyPluginSubFiles c) eqn:Hl; [|reflexivity].
  exfalso. unfold isLikelyPluginSubFiles, reqFiles in Hl.
  cbn [existsb] in Hl.
  split_names Hl;
    first [ apply eqb_eq in Hl; subst; vm_compute in H; discriminate
          | names_clash ].
Qed.

(** A predicate true of reserved names only spares the plugin's files. *)
Lemma skipsOnlyReserved_spares (skip : jsstring -> list jsstring -> bool) :
  skipsOnlyReserved skip -> sparesPluginFiles skip.
Proof.
  intros Hskip c Hl.
  destruct (skip c reservedNames) eqn:Hs; [|reflexivity].
  apply Hskip in Hs. rewrite (pluginSubFiles_not_reserved c Hl) in Hs.
  discriminate.
Qed.

(** Under a predicate that spares the plugin's files, the children of the
    plugin's own directory that are pushed are those with the name of one
    of its known files; elsewhere, such a child is pushed too. *)
Lemma keepChild_inside (skip : jsstring -> list jsstring -> bool)
  (c : jsstring) :
  sparesPluginFiles skip ->
  keepChild skip true c = isLikelyPluginSubFiles c.
Proof.
  intros Hskip. unfold keepChild.
  destruct (isLikelyPluginSubFiles c) eqn:Hl; simpl.
  - rewrite (Hskip c Hl). reflexivity.
  - apply andb_false_r.
Qed.

Lemma keepChild_plugin_file (skip : jsstring -> list jsstring -> bool)
  (b : bool) (c : jsstring) :
  sparesPluginFiles skip ->
  isLikelyPluginSubFiles c = true ->
  keepChild skip b c = true.
Proof.
  intros Hskip Hl. rewrite <- (keepChild_inside skip c Hskip) in Hl.
  unfold keepChild in *. apply andb_true_iff in Hl. destruct Hl as [H1 H2].
  rewrite H1. simpl. simpl in H2. apply negb_true_iff in H2.
  apply negb_false_iff in H2. rewrite H2. simpl. rewrite andb_false_r.
  reflexivity.
Qed.

(** ** What the full listings contain *)

Section ObsListing.

Variable skip : jsstring -> list jsstring -> bool.
Variable vault : Vault.
Variables pluginId configDir : jsstring.

Lemma reach_enqueuedObs (x : jsstring) :
  reach (fetchObs configDir vault) (nextObs skip pluginId) [configDir] x ->
  enqueuedObs skip vault pluginId configDir x.
Proof.
  induction 1 as [x Hx|y f x _ IH Hf Hx].
  - destruct Hx as [<-|[]]. constructor.
  - apply (nextObs_in skip configDir vault pluginId y f x Hf) in Hx.
    destruct Hx as [st [Hs [Hfo [Hc Hk]]]].
    eapply enqueued_child; eassumption.
Qed.

(** Without [bookmarksOnly], a call that returns has listed exactly the
    enqueued paths, each with the entity of its metadata. *)
Lemma listFilesInObsFolder_all (fuel : nat) (out : list Entity) :
  listFilesInObsFolder skip fuel configDir vault pluginId false
  = Some (Ok out) ->
  (forall x, enqueuedObs skip vault pluginId configDir x ->
             exists statRes,
               statFix vault x = Resolved statRes
               /\ In (entityOf x statRes) out)
  /\ (forall e, In e out ->
                exists x statRes,
                  enqueuedObs skip vault pluginId configDir x
                  /\ statFix vault x = Resolved statRes
                  /\ e = entityOf x statRes).
Proof.
  intros H. apply listFilesInObsFolder_contents in H.
  destruct H as [contents [Hl ->]]. split.
  - destruct (loopOf_complete _ _ _ _ _ _ _ _ _ Hl) as [_ Hc].
    assert (Hr : forall x, enqueuedObs skip vault pluginId configDir x ->
              reach (fetchObs configDir vault) (nextObs skip pluginId)
                [configDir] x).
    { induction 1 as [|x st c _ IH Hs Hfo Hin Hk].
      - apply reach_seed. left; reflexivity.
      - destruct (Hc x IH) as [f [Hf _]].
        apply (reach_child _ _ _ x f c IH Hf).
        apply (nextObs_in skip configDir vault pluginId x f c Hf).
        exists st. repeat split; assumption. }
    intros x Hx. destruct (Hc x (Hr x Hx)) as [f [Hf Hin]].
    destruct (fetchObs_Ok _ _ _ _ Hf) as [st [Hs [Hi _]]].
    exists st. split; [assumption|]. apply Hin. unfold emitObs.
    rewrite Hi. left; reflexivity.
  - apply Forall_forall.
    refine (loopOf_invariant _ _ _ _
              (reach (fetchObs configDir vault) (nextObs skip pluginId)
                 [configDir])
              _ _ _ fuel [configDir] [] 0 contents _ _ Hl).
    + intros x f Hx Hf. split.
      * destruct (fetchObs_Ok _ _ _ _ Hf) as [st [Hs [Hi _]]].
        unfold emitObs. rewrite Hi. constructor; [|constructor].
        exists x, st. split; [apply reach_enqueuedObs; assumption|].
        split; [assumption | reflexivity].
      * apply Forall_forall. intros c Hc.
        eapply reach_child; eassumption.
    + constructor; [|constructor]. apply reach_seed. left; reflexivity.
    + constructor.
Qed.

End ObsListing.

Section AdapterListing.

Variable vault : Vault.
Variable roots : list jsstring.

Lemma reach_reachableAdapter (x : jsstring) :
  reach (fetchAdapter vault) nextAdapter (uniqueRoots roots) x <->
  reachableAdapter vault roots x.
Proof.
  split.
  - induction 1 as [x Hx|y f x _ IH Hf Hx].
    + constructor; assumption.
    + apply (nextAdapter_in vault y f x Hf) in Hx.
      destruct Hx as [st [Hs [Hfo Hc]]].
      eapply reachable_child; eassumption.
  - induction 1 as [x Hx|y st x _ IH Hs Hfo Hc].
    + apply reach_seed; assumption.
    + assert (Hl : exists listed, adapter_list vault y = Some listed).
      { unfold childrenOf in Hc.
        destruct (adapter_list vault y) as [listed|]; [eauto | contradiction]. }
      destruct Hl as [listed Hl].
      assert (Hf : fetchAdapter vault y =
                   Ok (Some {| itself := entityOf y st;
                               children := Some listed |})).
      { unfold fetchAdapter, listChildren. rewrite Hs, Hfo, Hl. reflexivity. }
      apply (reach_child _ _ _ y _ x IH Hf).
      apply (nextAdapter_in vault y _ x Hf).
      exists st. repeat split; assumption.
Qed.

(** A call that returns has listed exactly the reachable paths whose
    metadata could be read. *)
Lemma listFilesByAdapterPaths_all (fuel : nat) (out : list Entity) :
  listFilesByAdapterPaths fuel roots vault = Some (Ok out) ->
  (forall x statRes,
      reachableAdapter vault roots x ->
      statFix vault x = Resolved statRes ->
      In (entityOf x statRes) out)
  /\ (forall e, In e out ->
                exists x statRes,
                  reachableAdapter vault roots x
                  /\ statFix vault x = Resolved statRes
                  /\ e = entityOf x statRes).
Proof.
  rewrite listFilesByAdapterPaths_Ok. intros Hl. split.
  - destruct (loopOf_complete _ _ _ _ _ _ _ _ _ Hl) as [_ Hc].
    intros x st Hx Hs. apply reach_reachableAdapter in Hx.
    destruct (Hc x Hx) as [f [Hf Hin]].
    destruct (fetchAdapter_Ok _ _ _ Hf) as [[Hr _]|[st' [Hs' [-> _]]]];
      [congruence|].
    assert (st' = st) by congruence; subst.
    apply Hin. left; reflexivity.
  - apply Forall_forall.
    refine (loopOf_invariant _ _ _ _
              (reach (fetchAdapter vault) nextAdapter (uniqueRoots roots))
              _ _ _ fuel (uniqueRoots roots) [] 0 out _ _ Hl).
    + intros x f Hx Hf. split.
      * destruct (fetchAdapter_Ok _ _ _ Hf) as [[_ ->]|[st [Hs [-> _]]]];
          [constructor|].
        simpl. constructor; [|constructor].
        exists x, st. split; [apply reach_reachableAdapter; assumption|].
        split; [assumption | reflexivity].
      * apply Forall_forall. intros c Hc.
        eapply reach_child; eassumption.
    + apply Forall_forall. intros r Hr. apply reach_seed; assumption.
    + constructor.
Qed.


End AdapterListing.

(** ** Reserved names in the listing *)

Lemma isReservedKey_bookmarks (x : jsstring) :
  isReservedKey (x ++ lit "/bookmarks.json") = false.
Proof.
  assert (Hc : endsWith (x ++ lit "/bookmarks.json") (lit "/bookmarks.json")
               = true).
  { apply endsWith_spec. exists x; reflexivity. }
  remember (x ++ lit "/bookmarks.json") as c eqn:Ec. clear Ec.
  destruct (isReservedKey c) eqn:Hr; [|reflexivity]. exfalso.
  unfold isReservedKey, specialNameSkipPredicate, reservedNames in Hr.
  cbn [existsb] in Hr.
  split_names Hr; names_clash.
Qed.

(** C6 (as amended).  When the skip predicate holds of every reserved
    name, no entity [listFilesInObsFolder] returns has the key [workspace]
    or [workspace.json], or a key that ends with a slash and one of them,
    at any depth, the entity of the root apart: the list is free of such
    keys exactly when the call is bookmarks-only, or the root is a folder,
    or the path of the root is not itself such a key. *)
Theorem reserved_names_not_listed
  (skip : jsstring -> list jsstring -> bool) (fuel : nat)
  (configDir : jsstring) (vault : Vault) (pluginId : jsstring)
  (bookmarksOnly : bool) (out : list Entity) :
  skipsReserved skip ->
  listFilesInObsFolder skip fuel configDir vault pluginId bookmarksOnly
  = Some (Ok out) ->
  ((forall e, In e out -> isReservedKey (key e) = false)
   <-> (bookmarksOnly = false ->
        forall statRes,
          statFix vault configDir = Resolved statRes ->
          type statRes <> lit "folder" ->
          isReservedKey configDir = false)).
Proof.
  intros Hskip H. split.
  - intros Hall Hb st Hs Ht. subst bookmarksOnly.
    destruct (listFilesInObsFolder_all _ _ _ _ _ _ H) as [Hin _].
    assert (Hroot : enqueuedObs skip vault pluginId configDir configDir)
      by apply enqueued_root.
    destruct (Hin configDir Hroot) as [st' [Hs' He]].
    assert (st' = st) by congruence; subst st'.
    specialize (Hall _ He). rewrite key_entityOf in Hall.
    destruct (isFolderStat st) eqn:Ef; [|exact Hall].
    apply isFolderStat_true in Ef. contradiction.
  - intros Hroot. apply listFilesInObsFolder_contents in H.
    destruct H as [contents [Hl ->]]. destruct bookmarksOnly.
    + intros e He. apply filter_In in He. destruct He as [_ He].
      unfold isRootOrBookmarks in He. apply orb_true_iff in He.
      destruct He as [He|He]; apply eqb_eq in He; rewrite He;
        [apply isReservedKey_slash | apply isReservedKey_bookmarks].
    + apply Forall_forall.
      refine (loopOf_invariant _ _ _ _
                (fun x => x = configDir \/ isReservedKey x = false)
                _ _ _ fuel [configDir] [] 0 contents _ _ Hl).
      * intros x f Hx Hf. split.
        -- destruct (fetchObs_Ok _ _ _ _ Hf) as [st [Hs [Hi _]]].
           unfold emitObs. rewrite Hi. constructor; [|constructor].
           destruct Hx as [->|Hx];
             [|apply isReservedKey_entityOf; assumption].
           rewrite key_entityOf.
           destruct (isFolderStat st) eqn:Ef; [apply isReservedKey_slash|].
           apply (Hroot eq_refl st Hs). intros Ht.
           apply isFolderStat_true in Ht. congruence.
        -- apply Forall_forall. intros c Hc. right.
           apply (nextObs_in skip configDir vault pluginId x f c Hf) in Hc.
           destruct Hc as [st [_ [_ [_ Hk]]]].
           unfold keepChild in Hk. apply andb_true_iff in Hk.
           destruct Hk as [Hk _]. apply negb_true_iff in Hk.
           destruct (isReservedKey c) eqn:Er; [|reflexivity].
           apply Hskip in Er. congruence.
      * constructor; [left; reflexivity | constructor].
      * constructor.
Qed.

(** C6, witness: a configuration folder that is itself called
    [workspace] and holds a [workspace.json]; the folder is listed, under
    the key [workspace/], and the file is not. *)
Lemma reserved_names_not_listed_witness :
  exists out,
    listFilesInObsFolder specialNameSkipPredicate 2 (lit "workspace")
      workspaceFolderVault (lit "remotely-save") false = Some (Ok out)
    /\ List.map key out = [lit "workspace/"; lit "workspace/a.json"]
    /\ forall e, In e out -> isReservedKey (key e) = false.
Proof.
  eexists. split; [vm_compute; reflexivity|]. split; [reflexivity|].
  apply (reserved_names_not_listed specialNameSkipPredicate 2
           (lit "workspace") workspaceFolderVault (lit "remotely-save")
           false).
  - exact (proj1 specialNameSkipPredicate_contract).
  - vm_compute; reflexivity.
  - intros _ statRes Hs Ht. exfalso. apply Ht.
    vm_compute in Hs. inversion Hs. reflexivity.
Defined.

(** C6, counterexample: a configuration root that is a file called
    [workspace] is listed, under the key [workspace], although the skip
    predicate meets its contract. *)
Lemma reserved_root_is_listed :
  ~ (forall (skip : jsstring -> list jsstring -> bool) (fuel : nat)
            (configDir : jsstring) (vault : Vault) (pluginId : jsstring)
            (bookmarksOnly : bool) (out : list Entity),
        skipsReserved skip -> skipsOnlyReserved skip ->
        listFilesInObsFolder skip fuel configDir vault pluginId bookmarksOnly
        = Some (Ok out) ->
        forall e, In e out -> isReservedKey (key e) = false).
Proof.
  intros H.
  specialize (H specialNameSkipPredicate 1 (lit "workspace")
                workspaceFileVault (lit "remotely-save") false _
                (proj1 specialNameSkipPredicate_contract)
                (proj2 specialNameSkipPredicate_contract)
                eq_refl _ (or_introl eq_refl)).
  vm_compute in H. discriminate.
Qed.




(** ** Facts about the example vaults *)


Lemma configVault_plugin_dir_enqueued :
  enqueuedObs specialNameSkipPredicate configVault (lit "remotely-save")
    (lit ".obsidian") (lit ".obsidian/plugins/remotely-save").
Proof.
  apply (enqueued_child _ _ _ _ (lit ".obsidian/plugins")
           {| type := lit "folder"; mtime := Some 0%Z; size := 0%Z |}).
  - apply (enqueued_child _ _ _ _ (lit ".obsidian")
             {| type := lit "folder"; mtime := Some 0%Z; size := 0%Z |}).
    + apply enqueued_root.
    + reflexivity.
    + reflexivity.
    + left; reflexivity.
    + reflexivity.
  - reflexivity.
  - reflexivity.
  - left; reflexivity.
  - reflexivity.
Qed.

Lemma configVault_secret_listed_once (p : jsstring) :
  In (lit ".obsidian/plugins/remotely-save/secret.db")
    (childrenOf configVault p) ->
  isPluginDirItself (p ++ [slash]) (lit "remotely-save") = true.
Proof.
  intros H. apply tableVault_children_of in H. destruct H as [l [Hl Hc]].
  simpl in Hl.
  repeat (destruct Hl as [Hl|Hl]; [inversion Hl; subst; clear Hl|]);
    try contradiction;
    simpl in Hc;
    repeat (destruct Hc as [Hc|Hc]; [try discriminate Hc|]);
    try contradiction.
  reflexivity.
Qed.

(** ** Paths without metadata *)



(** ** The plugin's own directory *)

(** C7 (as amended).  With the plugin id [remotely-save] and a skip
    predicate that spares the plugin's known files (as one true of reserved
    names only does): the children of the plugin's own
    directory that are pushed are those named after one of its five known
    files; a child ending with [/remotely-save/secret.db] is not one of
    them; a child ending with [/remotely-save/data.json] is, and is pushed
    from any folder.  When [bookmarksOnly] is false and the call returns,
    the latter child is listed if the folder naming it was enqueued, and
    the former is not listed if it is not the root and only plugin
    directories name it. *)
Theorem self_plugin_children_filtered
  (skip : jsstring -> list jsstring -> bool) :
  sparesPluginFiles skip ->
  (forall names q,
      pushChildrenObs skip true names q =
      q ++ filter isLikelyPluginSubFiles names)
  /\ (forall c,
         endsWith c (lit "/remotely-save/secret.db") = true ->
         isLikelyPluginSubFiles c = false)
  /\ (forall c,
         endsWith c (lit "/remotely-save/data.json") = true ->
         isLikelyPluginSubFiles c = true
         /\ forall b names q,
              In c names -> In c (pushChildrenObs skip b names q))
  /\ (forall fuel configDir vault out,
         listFilesInObsFolder skip fuel configDir vault (lit "remotely-save")
           false = Some (Ok out) ->
         forall c,
           (endsWith c (lit "/remotely-save/data.json") = true ->
            forall p statRes,
              enqueuedObs skip vault (lit "remotely-save") configDir p ->
              statFix vault p = Resolved statRes ->
              type statRes = lit "folder" ->
              In c (childrenOf vault p) ->
              exists statRes',
                statFix vault c = Resolved statRes'
                /\ In (entityOf c statRes') out)
           /\ (endsWith c (lit "/remotely-save/secret.db") = true ->
               c <> configDir ->
               (forall p, In c (childrenOf vault p) ->
                          isPluginDirItself (p ++ [slash])
                            (lit "remotely-save") = true) ->
               forall e, In e out -> key e <> c)).
Proof.
  intros Hskip. split; [|split; [|split]].
  - intros names q. rewrite pushChildrenObs_spec. f_equal.
    apply filter_ext. intros c. apply keepChild_inside; assumption.
  - apply secret_db_is_no_plugin_file.
  - intros c Hc. pose proof (data_json_is_plugin_file c Hc) as Hl.
    split; [assumption|]. intros b names q Hin.
    rewrite pushChildrenObs_spec. apply in_or_app. right.
    apply filter_In. split; [assumption|].
    apply keepChild_plugin_file; assumption.
  - intros fuel configDir vault out Hrun.
    destruct (listFilesInObsFolder_all skip vault (lit "remotely-save")
                configDir fuel out Hrun) as [Hall Honly].
    intros c. split.
    + intros Hc p st Hp Hs Ht Hin. apply Hall.
      apply (enqueued_child _ _ _ _ p st c Hp Hs); try assumption.
      * apply isFolderStat_true; assumption.
      * apply keepChild_plugin_file; [assumption|].
        apply data_json_is_plugin_file; assumption.
    + intros Hc Hroot Hparents e He Hk.
      destruct (Honly e He) as [x [st [Hx [Hs ->]]]].
      rewrite key_entityOf in Hk.
      destruct (isFolderStat st).
      * subst c. change (lit "/remotely-save/secret.db")
          with (lit "/remotely-save/secret.d" ++ [98%N]) in Hc.
        rewrite endsWith_snoc in Hc. discriminate.
      * subst x. inversion Hx as [E|p st' c' Hp Hs' Hf Hin Hkeep]; subst.
        -- apply Hroot. reflexivity.
        -- rewrite (Hparents p Hin) in Hkeep. unfold keepChild in Hkeep.
           rewrite (secret_db_is_no_plugin_file c Hc) in Hkeep.
           rewrite andb_false_r in Hkeep. discriminate.
Qed.

(** C7, witness: in [configVault] the plugin's [data.json] is listed and
    its [secret.db] is not. *)
Lemma self_plugin_children_filtered_witness :
  exists out,
    listFilesInObsFolder specialNameSkipPredicate 4 (lit ".obsidian")
      configVault (lit "remotely-save") false = Some (Ok out)
    /\ (exists statRes,
           statFix configVault (lit ".obsidian/plugins/remotely-save/data.json")
           = Resolved statRes
           /\ In (entityOf (lit ".obsidian/plugins/remotely-save/data.json")
                    statRes) out)
    /\ (forall e, In e out ->
                  key e <> lit ".obsidian/plugins/remotely-save/secret.db").
Proof.
  destruct (self_plugin_children_filtered specialNameSkipPredicate
              (skipsOnlyReserved_spares specialNameSkipPredicate
                 (proj2 specialNameSkipPredicate_contract)))
    as [_ [_ [_ H]]].
  eexists. split; [vm_compute; reflexivity|].
  specialize (H 4 (lit ".obsidian") configVault _ eq_refl). split.
  - destruct (H (lit ".obsidian/plugins/remotely-save/data.json")) as [Hd _].
    apply (Hd eq_refl (lit ".obsidian/plugins/remotely-save")
             {| type := lit "folder"; mtime := Some 0%Z; size := 0%Z |}).
    + exact configVault_plugin_dir_enqueued.
    + reflexivity.
    + reflexivity.
    + left; reflexivity.
  - destruct (H (lit ".obsidian/plugins/remotely-save/secret.db")) as [_ Hs].
    apply Hs.
    + reflexivity.
    + discriminate.
    + exact configVault_secret_listed_once.
Defined.

(** C7, counterexample: with [bookmarksOnly], the plugin's [data.json] is
    named by an enqueued folder and has metadata, yet is not listed. *)
Lemma data_json_not_listed_with_bookmarksOnly :
  ~ (forall (skip : jsstring -> list jsstring -> bool) (fuel : nat)
            (configDir : jsstring) (vault : Vault) (bookmarksOnly : bool)
            (out : list Entity) (p : jsstring) (statRes : Stat)
            (c : jsstring) (statRes' : Stat),
        skipsReserved skip -> skipsOnlyReserved skip ->
        listFilesInObsFolder skip fuel configDir vault (lit "remotely-save")
          bookmarksOnly = Some (Ok out) ->
        enqueuedObs skip vault (lit "remotely-save") configDir p ->
        statFix vault p = Resolved statRes ->
        type statRes = lit "folder" ->
        In c (childrenOf vault p) ->
        endsWith c (lit "/remotely-save/data.json") = true ->
        statFix vault c = Resolved statRes' ->
        In (entityOf c statRes') out).
Proof.
  intros H.
  specialize (H specialNameSkipPredicate 4 (lit ".obsidian") configVault
                true _ (lit ".obsidian/plugins/remotely-save") _
                (lit ".obsidian/plugins/remotely-save/data.json") _
                (proj1 specialNameSkipPredicate_contract)
                (proj2 specialNameSkipPredicate_contract)
                eq_refl configVault_plugin_dir_enqueued eq_refl eq_refl
                (or_introl eq_refl) eq_refl eq_refl).
  vm_compute in H. destruct H as [H|[H|[]]]; discriminate.
Qed.

(** ** The allow-list roots *)

Lemma uniqueFrom_incl (seen xs : list jsstring) (x : jsstring) :
  In x (uniqueFrom seen xs) -> In x xs.
Proof.
  revert seen; induction xs as [|y xs IH]; intros seen; simpl; [tauto|].
  destruct (existsb (JS.eqb y) seen).
  - intros H. right. eapply IH; eassumption.
  - intros [H|H]; [left; assumption | right; eapply IH; eassumption].
Qed.

(** Every root returned is a hidden prefix of more than one code unit. *)
Lemma getHiddenAllowListRoots_kept (onlyAllowPaths : option (list jsstring))
  (r : jsstring) :
  In r (getHiddenAllowListRoots onlyAllowPaths) ->
  1 < List.length r /\ isHiddenPathPrefix r = true.
Proof.
  unfold getHiddenAllowListRoots, arrayFromSet. intros H.
  apply uniqueFrom_incl in H. revert H.
  generalize (match onlyAllowPaths with Some ps => ps | None => [] end).
  intros ps.
  assert (G : forall acc,
             (forall x, In x acc ->
                        1 < List.length x /\ isHiddenPathPrefix x = true) ->
             In r (fold_left
                     (fun roots raw =>
                        let trimmed := trim raw in
                        if JS.eqb trimmed [] then roots
                        else
                          let prefix := extractLiteralPrefix trimmed in
                          if (1 <? List.length prefix)
                             && isHiddenPathPrefix prefix
                          then roots ++ [prefix]
                          else roots) ps acc) ->
             1 < List.length r /\ isHiddenPathPrefix r = true).
  { induction ps as [|raw ps IH]; intros acc Hacc; simpl; [apply Hacc|].
    apply IH. destruct (JS.eqb (trim raw) []); [assumption|].
    destruct ((1 <? List.length (extractLiteralPrefix (trim raw)))
              && isHiddenPathPrefix (extractLiteralPrefix (trim raw))) eqn:E;
      [|assumption].
    apply andb_true_iff in E. destruct E as [E1 E2].
    apply Nat.ltb_lt in E1.
    intros x Hx. apply in_app_or in Hx. destruct Hx as [Hx|[<-|[]]]; auto. }
  apply G. intros x [].
Qed.

(** C2 (as amended).  The pattern [^\.foo/bar.*] gives the root
    [.foo/bar]; [plainname] gives none, its prefix not being hidden; [.x]
    gives the root [.x], whose length 2 passes the test [length > 1]; a
    prefix of length one, as that of [.], is what the test excludes. *)
Theorem allow_list_roots_examples :
  getHiddenAllowListRoots (Some [lit "^\.foo/bar.*"]) = [lit ".foo/bar"]
  /\ getHiddenAllowListRoots (Some [lit "plainname"]) = []
  /\ getHiddenAllowListRoots (Some [lit ".x"]) = [lit ".x"]
  /\ getHiddenAllowListRoots (Some [lit "."]) = [].
Proof. repeat split. Qed.

(** C2, counterexample: the input [.x] does not give the empty set. *)
Lemma dot_x_is_a_root :
  getHiddenAllowListRoots (Some [lit ".x"]) <> [].
Proof. discriminate. Qed.

(** ** The seeded roots *)

(** C4, at the failing input: two roots that differ by a leading space are
    both kept by the set, and equal once trimmed; the path is listed
    twice. *)
Theorem uniqueRoots_equal_after_trim :
  uniqueRoots [lit "a"; lit " a"] = [lit "a"; lit "a"]
  /\ exists e,
       listFilesByAdapterPaths 1 [lit "a"; lit " a"] singleFileVault
       = Some (Ok [e; e]).
Proof. split; [reflexivity|]. eexists. reflexivity. Qed.

(** What the seeding does ensure: each seed is the trimmed form of a
    root, and is not empty. *)
Lemma uniqueRoots_trimmed (roots : list jsstring) (r : jsstring) :
  In r (uniqueRoots roots) ->
  r <> [] /\ exists r0, In r0 roots /\ r = trim r0.
Proof.
  unfold uniqueRoots, arrayFromSet. intros H. apply filter_In in H.
  destruct H as [H Hne]. apply in_map_iff in H. destruct H as [r0 [<- H0]].
  apply uniqueFrom_incl in H0. split.
  - apply negb_true_iff, eqb_neq in Hne. assumption.
  - exists r0. split; [assumption | reflexivity].
Qed.

Lemma uniqueFrom_NoDup (seen xs : list jsstring) :
  NoDup (uniqueFrom seen xs)
  /\ forall x, In x (uniqueFrom seen xs) -> ~ In x seen.
Proof.
  revert seen; induction xs as [|y xs IH]; intros seen; simpl.
  - split; [constructor | contradiction].
  - destruct (existsb (JS.eqb y) seen) eqn:E; [apply IH|].
    destruct (IH (y :: seen)) as [Hnd Hout]. split.
    + constructor; [|assumption].
      intros Hy. apply (Hout y Hy). left; reflexivity.
    + intros x [<-|Hx].
      * intros Hy. rewrite <- not_true_iff_false in E. apply E.
        apply existsb_exists. exists y. split; [assumption | apply eqb_refl].
      * intros Hs. apply (Hout x Hx). right; assumption.
Qed.

(** The seeds are pairwise distinct when the roots come trimmed. *)
Lemma uniqueRoots_NoDup (roots : list jsstring) :
  (forall r, In r roots -> trim r = r) -> NoDup (uniqueRoots roots).
Proof.
  intros Ht. unfold uniqueRoots, arrayFromSet. apply NoDup_filter.
  rewrite (map_ext_in trim (fun r => r)), map_id.
  - apply uniqueFrom_NoDup.
  - intros r Hr. apply Ht. eapply uniqueFrom_incl; eassumption.
Qed.

(** ** A trailing backslash *)

Lemma trimStart_snoc (s : jsstring) (b : code_unit) :
  isWhiteSpace b = false -> trimStart (s ++ [b]) = trimStart s ++ [b].
Proof.
  intros Hb. induction s as [|c s IH]; simpl.
  - rewrite Hb. reflexivity.
  - destruct (isWhiteSpace c); [assumption | reflexivity].
Qed.

Lemma trimEnd_snoc (s : jsstring) (b : code_unit) :
  isWhiteSpace b = false -> trimEnd (s ++ [b]) = s ++ [b].
Proof.
  intros Hb. unfold trimEnd. rewrite rev_app_distr. simpl. rewrite Hb.
  simpl. rewrite rev_involutive. reflexivity.
Qed.

Lemma length_trimStart (s : jsstring) :
  List.length (trimStart s) <= List.length s.
Proof.
  induction s as [|c s IH]; simpl; [lia|].
  destruct (isWhiteSpace c); simpl; lia.
Qed.

Lemma trimStart_in (s : jsstring) (x : code_unit) :
  In x (trimStart s) -> In x s.
Proof.
  induction s as [|c s IH]; simpl; [tauto|].
  destruct (isWhiteSpace c); [auto | tauto].
Qed.

(** A string without trailing white space is empty or ends with a code
    unit that is not white space. *)
Lemma noTrailingWhiteSpace_last (s : jsstring) :
  noTrailingWhiteSpace s ->
  s = [] \/ exists t c, s = t ++ [c] /\ isWhiteSpace c = false.
Proof.
  unfold noTrailingWhiteSpace.
  destruct s as [|c s] using rev_ind; [left; reflexivity|]. clear IHs.
  intros H. right. exists s, c. split; [reflexivity|].
  destruct (isWhiteSpace c) eqn:Hc; [|reflexivity].
  exfalso. unfold trimEnd in H. rewrite rev_app_distr in H. simpl in H.
  rewrite Hc in H. apply (f_equal (@List.length _)) in H.
  rewrite length_rev, length_app in H. simpl in H.
  pose proof (length_trimStart (rev s)) as L. rewrite length_rev in L.
  lia.
Qed.

Lemma trim_noTrailingWhiteSpace (s : jsstring) :
  noTrailingWhiteSpace s -> trim s = trimStart s.
Proof.
  intros H. unfold trim.
  destruct (noTrailingWhiteSpace_last s H) as [->|[t [c [-> Hc]]]];
    [reflexivity|].
  rewrite trimStart_snoc by assumption. apply trimEnd_snoc; assumption.
Qed.

Lemma trimStart_noTrailingWhiteSpace (s : jsstring) :
  noTrailingWhiteSpace s -> noTrailingWhiteSpace (trimStart s).
Proof.
  intros H. unfold noTrailingWhiteSpace.
  destruct (noTrailingWhiteSpace_last s H) as [->|[t [c [-> Hc]]]];
    [reflexivity|].
  rewrite trimStart_snoc by assumption. apply trimEnd_snoc; assumption.
Qed.

Lemma trimStart_idempotent (s : jsstring) :
  trimStart (trimStart s) = trimStart s.
Proof.
  induction s as [|c s IH]; simpl; [reflexivity|].
  destruct (isWhiteSpace c) eqn:Hc; [assumption|]. simpl. rewrite Hc.
  reflexivity.
Qed.

Lemma trim_snoc_backslash (s : jsstring) :
  trim (s ++ [backslash]) = trimStart s ++ [backslash].
Proof.
  unfold trim. rewrite trimStart_snoc by reflexivity.
  apply trimEnd_snoc. reflexivity.
Qed.

Lemma startsWith_snoc (t : jsstring) (b : code_unit) (p : jsstring) :
  ~ In b p -> startsWith (t ++ [b]) p = startsWith t p.
Proof.
  revert t; induction p as [|c p IH]; intros t Hb; [reflexivity|].
  destruct t as [|d t]; simpl.
  - destruct (N.eqb_spec b c) as [->|_]; [|reflexivity].
    exfalso. apply Hb. left; reflexivity.
  - rewrite IH; [reflexivity|]. intros H. apply Hb. right; assumption.
Qed.

Lemma startsWith_length (t p : jsstring) :
  startsWith t p = true -> List.length p <= List.length t.
Proof.
  intros H. apply startsWith_spec in H. destruct H as [u ->].
  rewrite length_app. lia.
Qed.

Lemma skipn_snoc (n : nat) (t : jsstring) (b : code_unit) :
  n <= List.length t -> skipn n (t ++ [b]) = skipn n t ++ [b].
Proof.
  intros H. rewrite skipn_app.
  replace (n - List.length t) with 0 by lia. reflexivity.
Qed.

Lemma skipn_in (n : nat) (t : jsstring) (x : code_unit) :
  In x (skipn n t) -> In x t.
Proof.
  intros H. rewrite <- (firstn_skipn n t). apply in_or_app. right; assumption.
Qed.

Lemma startsWith_escaped_dot (t : jsstring) :
  ~ In backslash t ->
  startsWith t (lit "\.") = false
  /\ startsWith (t ++ [backslash]) (lit "\.") = false.
Proof.
  intros Hb. destruct t as [|d t]; [split; reflexivity|].
  assert (Hd : N.eqb d backslash = false).
  { apply N.eqb_neq. intros ->. apply Hb. left; reflexivity. }
  split; simpl; change 92%N with backslash; rewrite Hd; reflexivity.
Qed.

Lemma scanLiteral_snoc (rest out : jsstring) :
  ~ In backslash rest ->
  scanLiteral false out (rest ++ [backslash]) = scanLiteral false out rest.
Proof.
  revert out; induction rest as [|c rest IH]; intros out Hb; [reflexivity|].
  assert (Hc : N.eqb c backslash = false).
  { apply N.eqb_neq. intros ->. apply Hb. left; reflexivity. }
  simpl. rewrite Hc. destruct (isRegexMetaChar c); [reflexivity|].
  apply IH. intros H. apply Hb. right; assumption.
Qed.

(** The steps of [extractLiteralPrefix] after the trimming commute with
    the appending of a backslash. *)
Lemma extractLiteralPrefix_snoc_trimmed (t : jsstring) :
  ~ In backslash t ->
  noTrailingWhiteSpace t ->
  trimStart t = t ->
  extractLiteralPrefix (t ++ [backslash]) = extractLiteralPrefix t.
Proof.
  intros Hb Hn Ht. unfold extractLiteralPrefix.
  rewrite trim_snoc_backslash, (trim_noTrailingWhiteSpace t Hn), Ht.
  cbv zeta.
  rewrite (startsWith_snoc t backslash (lit "^"))
    by (simpl; intros [H|[]]; discriminate).
  set (s1 := if startsWith t (lit "^") then slice t 1 else t).
  assert (E1 : (if startsWith t (lit "^") then slice (t ++ [backslash]) 1
                else t ++ [backslash]) = s1 ++ [backslash]).
  { unfold s1, slice. destruct (startsWith t (lit "^")) eqn:E; [|reflexivity].
    apply skipn_snoc. apply startsWith_length in E. exact E. }
  assert (H1 : ~ In backslash s1).
  { unfold s1, slice. destruct (startsWith t (lit "^")); [|assumption].
    intros H. apply Hb. eapply skipn_in; eassumption. }
  rewrite E1. clearbody s1. clear E1.
  rewrite (startsWith_snoc s1 backslash (lit "./"))
    by (simpl; intros [H|[H|[]]]; discriminate).
  set (s2 := if startsWith s1 (lit "./") then slice s1 2 else s1).
  assert (E2 : (if startsWith s1 (lit "./") then slice (s1 ++ [backslash]) 2
                else s1 ++ [backslash]) = s2 ++ [backslash]).
  { unfold s2, slice. destruct (startsWith s1 (lit "./")) eqn:E;
      [|reflexivity].
    apply skipn_snoc. apply startsWith_length in E. exact E. }
  assert (H2 : ~ In backslash s2).
  { unfold s2, slice. destruct (startsWith s1 (lit "./")); [|assumption].
    intros H. apply H1. eapply skipn_in; eassumption. }
  rewrite E2. clearbody s2. clear E2.
  destruct (startsWith_escaped_dot s2 H2) as [F1 F2]. rewrite F1, F2.
  rewrite (startsWith_snoc s2 backslash (lit "."))
    by (simpl; intros [H|[]]; discriminate).
  destruct (startsWith s2 (lit ".")) eqn:E.
  - rewrite skipn_snoc by (apply startsWith_length in E; exact E).
    apply scanLiteral_snoc. intros H. apply H2. eapply skipn_in; eassumption.
  - simpl. apply scanLiteral_snoc. assumption.
Qed.

Lemma extractLiteralPrefix_trimStart (s : jsstring) :
  noTrailingWhiteSpace s ->
  extractLiteralPrefix (trimStart s) = extractLiteralPrefix s.
Proof.
  intros Hn. unfold extractLiteralPrefix.
  rewrite (trim_noTrailingWhiteSpace _ (trimStart_noTrailingWhiteSpace s Hn)),
    trimStart_idempotent, (trim_noTrailingWhiteSpace s Hn).
  reflexivity.
Qed.

Lemma extractLiteralPrefix_snoc (s : jsstring) :
  ~ In backslash s ->
  noTrailingWhiteSpace s ->
  extractLiteralPrefix (s ++ [backslash]) = extractLiteralPrefix s.
Proof.
  intros Hb Hn.
  assert (E : extractLiteralPrefix (s ++ [backslash]) =
              extractLiteralPrefix (trimStart s ++ [backslash])).
  { unfold extractLiteralPrefix. rewrite !trim_snoc_backslash.
    rewrite trimStart_idempotent. reflexivity. }
  rewrite E, extractLiteralPrefix_snoc_trimmed.
  - apply extractLiteralPrefix_trimStart; assumption.
  - intros H. apply Hb. apply trimStart_in; assumption.
  - apply trimStart_noTrailingWhiteSpace; assumption.
  - apply trimStart_idempotent.
Qed.

Lemma getHiddenAllowListRoots_single (p : jsstring) :
  getHiddenAllowListRoots (Some [p]) =
  if JS.eqb (trim p) [] then []
  else if (1 <? List.length (extractLiteralPrefix (trim p)))
          && isHiddenPathPrefix (extractLiteralPrefix (trim p))
       then [extractLiteralPrefix (trim p)]
       else [].
Proof.
  unfold getHiddenAllowListRoots. simpl.
  destruct (JS.eqb (trim p) []); [reflexivity|].
  destruct ((1 <? List.length (extractLiteralPrefix (trim p)))
            && isHiddenPathPrefix (extractLiteralPrefix (trim p)));
    reflexivity.
Qed.

(** C10 (as amended).  For a pattern [s] without backslash and without
    trailing white space, a backslash appended to [s] is consumed and not
    emitted: the literal prefix is that of [s], and so are the allow-list
    roots. *)
Theorem trailing_backslash_dropped (s : jsstring) :
  ~ In backslash s ->
  noTrailingWhiteSpace s ->
  extractLiteralPrefix (s ++ [backslash]) = extractLiteralPrefix s
  /\ getHiddenAllowListRoots (Some [s ++ [backslash]])
     = getHiddenAllowListRoots (Some [s]).
Proof.
  intros Hb Hn. split; [apply extractLiteralPrefix_snoc; assumption|].
  rewrite !getHiddenAllowListRoots_single.
  rewrite trim_snoc_backslash, (trim_noTrailingWhiteSpace s Hn).
  assert (Ht : extractLiteralPrefix (trimStart s ++ [backslash]) =
               extractLiteralPrefix (trimStart s)).
  { apply extractLiteralPrefix_snoc_trimmed.
    - intros H. apply Hb. apply trimStart_in; assumption.
    - apply trimStart_noTrailingWhiteSpace; assumption.
    - apply trimStart_idempotent. }
  rewrite Ht.
  replace (JS.eqb (trimStart s ++ [backslash]) []) with false
    by (symmetry; apply eqb_neq; destruct (trimStart s); discriminate).
  destruct (trimStart s) as [|c t]; reflexivity.
Qed.

(** C10, witness: the pattern [.foo\] has the prefix [.foo]. *)
Lemma trailing_backslash_dropped_witness :
  extractLiteralPrefix (lit ".foo\") = lit ".foo"
  /\ getHiddenAllowListRoots (Some [lit ".foo\"]) = [lit ".foo"].
Proof.
  assert (Hb : ~ In backslash (lit ".foo")).
  { simpl. intros [H|[H|[H|[H|[]]]]]; discriminate. }
  destruct (trailing_backslash_dropped (lit ".foo") Hb eq_refl) as [H1 H2].
  split.
  - exact H1.
  - exact H2.
Defined.

(** C10, counterexample: [a ] holds no metacharacter, but the prefix of
    [a \] keeps the space that the trimming of [a ] removes. *)
Lemma trailing_backslash_after_space :
  ~ (forall s : jsstring,
        forallb (fun ch => negb (isRegexMetaChar ch)) s = true ->
        extractLiteralPrefix (s ++ [backslash]) = extractLiteralPrefix s).
Proof.
  intros H. specialize (H (lit "a ") eq_refl). vm_compute in H.
  discriminate.
Qed.

(** * Further properties *)

(** ** Rounds and chunks *)

(** A failing round reports a failure of the first chunk in which a fetch
    fails, one that settles no later than the others of the chunk. *)
Lemma chunksObs_reported (skip : jsstring -> list jsstring -> bool)
  (configDir : jsstring) (vault : Vault) (pluginId : jsstring)
  (cs : list (list jsstring)) (st : Queue.t * list Entity) (e : Error) :
  chunksObs skip configDir vault pluginId cs st = Err e ->
  exists cs1 c cs2 x,
    cs = cs1 ++ c :: cs2
    /\ (forall y, In y (List.concat cs1) ->
                  exists f, fetchObs configDir vault y = Ok f)
    /\ In x c
    /\ fetchObs configDir vault x = Err e
    /\ forall y e',
         In y c -> fetchObs configDir vault y = Err e' ->
         settles vault x <= settles vault y.
Proof.
  revert st; induction cs as [|c cs IH]; intros st; [discriminate|].
  cbn [chunksObs].
  destruct (promiseAll (settles vault) (fetchObs configDir vault) c)
    as [r|e0] eqn:Ec; simpl.
  - intros H. destruct (IH _ H) as [cs1 [c' [cs2 [x [E [Hok Hx]]]]]].
    exists (c :: cs1), c', cs2, x. split; [rewrite E; reflexivity|].
    split; [|exact Hx].
    intros y Hy. cbn [List.concat] in Hy. apply in_app_or in Hy.
    destruct Hy as [Hy|Hy]; [|auto].
    apply promiseAll_Ok in Ec.
    destruct (fetched_in _ _ _ _ _ Ec Hy) as [f [Hf _]]. eauto.
  - intros H; inversion H; subst.
    destruct (promiseAll_Err_first _ _ _ _ _ _ Ec) as [x Hx].
    exists [], c, cs, x. split; [reflexivity|].
    split; [intros y [] | exact Hx].
Qed.

Lemma chunksAdapter_reported (vault : Vault) (cs : list (list jsstring))
  (st : Queue.t * list Entity) (e : Error) :
  chunksAdapter vault cs st = Err e ->
  exists cs1 c cs2 x,
    cs = cs1 ++ c :: cs2
    /\ (forall y, In y (List.concat cs1) ->
                  exists f, fetchAdapter vault y = Ok f)
    /\ In x c
    /\ fetchAdapter vault x = Err e
    /\ forall y e',
         In y c -> fetchAdapter vault y = Err e' ->
         settles vault x <= settles vault y.
Proof.
  revert st; induction cs as [|c cs IH]; intros st; [discriminate|].
  cbn [chunksAdapter].
  destruct (promiseAll (settles vault) (fetchAdapter vault) c)
    as [r|e0] eqn:Ec; simpl.
  - intros H. destruct (IH _ H) as [cs1 [c' [cs2 [x [E [Hok Hx]]]]]].
    exists (c :: cs1), c', cs2, x. split; [rewrite E; reflexivity|].
    split; [|exact Hx].
    intros y Hy. cbn [List.concat] in Hy. apply in_app_or in Hy.
    destruct Hy as [Hy|Hy]; [|auto].
    apply promiseAll_Ok in Ec.
    destruct (fetched_in _ _ _ _ _ Ec Hy) as [f [Hf _]]. eauto.
  - intros H; inversion H; subst.
    destruct (promiseAll_Err_first _ _ _ _ _ _ Ec) as [x Hx].
    exists [], c, cs, x. split; [reflexivity|].
    split; [intros y [] | exact Hx].
Qed.

Lemma roundObs_Err (skip : jsstring -> list jsstring -> bool)
  (configDir : jsstring) (vault : Vault) (pluginId : jsstring)
  (q : Queue.t) (contents : list Entity) (e : Error) :
  roundObs skip configDir vault pluginId q contents = Err e ->
  reportedFailure vault (fetchObs configDir vault) q e.
Proof.
  unfold roundObs. rewrite drain_spec. cbn [app].
  apply chunksObs_reported.
Qed.

Lemma roundAdapter_Err (vault : Vault) (q : Queue.t)
  (contents : list Entity) (e : Error) :
  roundAdapter vault q contents = Err e ->
  reportedFailure vault (fetchAdapter vault) q e.
Proof.
  unfold roundAdapter. rewrite drain_spec. cbn [app].
  apply chunksAdapter_reported.
Qed.

(** A queue of one path that cannot be fetched: the round fails as the
    fetch does. *)
Lemma roundObs_single_Err (skip : jsstring -> list jsstring -> bool)
  (configDir : jsstring) (vault : Vault) (pluginId x : jsstring)
  (contents : list Entity) (e : Error) :
  fetchObs configDir vault x = Err e ->
  roundObs skip configDir vault pluginId [x] contents = Err e.
Proof.
  intros H. unfold roundObs. rewrite drain_spec. cbn [app].
  unfold CHUNK_SIZE.
  cbn [chunk chunkFuel List.length firstn skipn chunksObs].
  unfold promiseAll. cbn [firstRejection]. rewrite H. reflexivity.
Qed.

Lemma flat_map_emitObs (r : list Fetched) :
  flat_map emitObs r = List.map itself r.
Proof.
  induction r as [|f r IH]; [reflexivity|]. simpl. rewrite IH. reflexivity.
Qed.

Lemma roundOf_Ok_iff (F : Type) (fetch : jsstring -> Result F)
  (emit : F -> list Entity) (next : F -> list jsstring)
  (q : Queue.t) (contents : list Entity) (q' : Queue.t)
  (contents' : list Entity) :
  roundOf fetch emit next q contents = Ok (q', contents') <->
  exists r, Forall2 (fun x y => fetch x = Ok y) q r
            /\ q' = flat_map next r
            /\ contents' = contents ++ flat_map emit r.
Proof.
  split; [apply roundOf_Ok|].
  intros [r [H [-> ->]]]. unfold roundOf.
  apply awaitInOrder_Ok in H. rewrite H. reflexivity.
Qed.

(** X1.  The chunks of ten show in what a round computes only through the
    failure it reports.  In both listers a round succeeds exactly when
    every path of the queue is fetched; it then leaves in the queue the
    children the fetched folders pass on, in order, and has appended the
    entities of the fetched paths to the contents, in order.  It fails
    exactly when the fetch of some path of the queue fails, and the failure
    it reports is one of the first chunk in which a fetch fails, which
    settles no later than the other failures of that chunk. *)
Theorem round_is_one_pass (skip : jsstring -> list jsstring -> bool)
  (configDir : jsstring) (vault : Vault) (pluginId : jsstring)
  (q : Queue.t) (contents : list Entity) :
  ((forall q' contents',
       roundObs skip configDir vault pluginId q contents
       = Ok (q', contents') <->
       exists r,
         Forall2 (fun x f => fetchObs configDir vault x = Ok f) q r
         /\ q' = flat_map (nextObs skip pluginId) r
         /\ contents' = contents ++ List.map itself r)
   /\ (forall e,
          roundObs skip configDir vault pluginId q contents = Err e ->
          reportedFailure vault (fetchObs configDir vault) q e)
   /\ (forall x e,
          In x q -> fetchObs configDir vault x = Err e ->
          exists e',
            roundObs skip configDir vault pluginId q contents = Err e'))
  /\ ((forall q' contents',
          roundAdapter vault q contents = Ok (q', contents') <->
          exists r,
            Forall2 (fun x f => fetchAdapter vault x = Ok f) q r
            /\ q' = flat_map nextAdapter r
            /\ contents' = contents ++ flat_map emitAdapter r)
      /\ (forall e,
             roundAdapter vault q contents = Err e ->
             reportedFailure vault (fetchAdapter vault) q e)
      /\ (forall x e,
             In x q -> fetchAdapter vault x = Err e ->
             exists e', roundAdapter vault q contents = Err e')).
Proof.
  split; (split; [|split]).
  - intros q' contents'.
    rewrite (sameOutcome_Ok _ _ _ (q', contents')
               (roundObs_roundOf skip configDir vault pluginId q contents)).
    rewrite roundOf_Ok_iff.
    split; intros [r [H [-> ->]]]; exists r;
      (split; [exact H|]); (split; [reflexivity|]);
      rewrite flat_map_emitObs; reflexivity.
  - intros e. apply roundObs_Err.
  - intros x e Hin Hx.
    apply (sameOutcome_Err _ _ _
             (roundObs_roundOf skip configDir vault pluginId q contents)).
    eapply roundOf_Err; eassumption.
  - intros q' contents'.
    rewrite (sameOutcome_Ok _ _ _ (q', contents')
               (roundAdapter_roundOf vault q contents)).
    apply roundOf_Ok_iff.
  - intros e. apply roundAdapter_Err.
  - intros x e Hin Hx.
    apply (sameOutcome_Err _ _ _ (roundAdapter_roundOf vault q contents)).
    eapply roundOf_Err; eassumption.
Qed.

(** Of two listings that reject in one chunk, the one that settles first
    is reported, whatever their order in the queue. *)
Lemma round_reports_first_settled :
  roundAdapter racingVault [lit "d/slow"; lit "d/fast"] []
  = Err (ListRejected (lit "d/fast"))
  /\ listFilesByAdapterPaths 2 [lit "d"] racingVault
     = Some (Err (ListRejected (lit "d/fast")))
  /\ listFilesInObsFolder specialNameSkipPredicate 2 (lit "d") racingVault
       (lit "remotely-save") false
     = Some (Err (ListRejected (lit "d/fast"))).
Proof. split; [|split]; vm_compute; reflexivity. Qed.

(** ** The full listing of the configuration folder *)

(** X2.  Without [bookmarksOnly], a call of [listFilesInObsFolder] that
    returns lists exactly the enqueued paths (the root, and the children of
    enqueued folders that pass the two skip tests), each with the entity of
    its metadata. *)
Theorem full_listing_is_the_enqueued_paths
  (skip : jsstring -> list jsstring -> bool) (fuel : nat)
  (configDir : jsstring) (vault : Vault) (pluginId : jsstring)
  (out : list Entity) :
  listFilesInObsFolder skip fuel configDir vault pluginId false
  = Some (Ok out) ->
  (forall x, enqueuedObs skip vault pluginId configDir x ->
             exists statRes,
               statFix vault x = Resolved statRes
               /\ In (entityOf x statRes) out)
  /\ (forall e, In e out ->
                exists x statRes,
                  enqueuedObs skip vault pluginId configDir x
                  /\ statFix vault x = Resolved statRes
                  /\ e = entityOf x statRes).
Proof. apply listFilesInObsFolder_all. Qed.

(** X2, witness: [configVault]; its [bookmarks.json] is enqueued, so it
    is listed. *)
Lemma full_listing_is_the_enqueued_paths_witness :
  exists out statRes,
    listFilesInObsFolder specialNameSkipPredicate 4 (lit ".obsidian")
      configVault (lit "remotely-save") false = Some (Ok out)
    /\ statFix configVault (lit ".obsidian/bookmarks.json") = Resolved statRes
    /\ In (entityOf (lit ".obsidian/bookmarks.json") statRes) out.
Proof.
  eexists.
  destruct (full_listing_is_the_enqueued_paths specialNameSkipPredicate 4
              (lit ".obsidian") configVault (lit "remotely-save") _ eq_refl)
    as [Hall _].
  assert (Henq : enqueuedObs specialNameSkipPredicate configVault
                   (lit "remotely-save") (lit ".obsidian")
                   (lit ".obsidian/bookmarks.json")).
  { apply (enqueued_child _ _ _ _ (lit ".obsidian")
             {| type := lit "folder"; mtime := Some 0%Z; size := 0%Z |}).
    - apply enqueued_root.
    - reflexivity.
    - reflexivity.
    - right; left; reflexivity.
    - reflexivity. }
  destruct (Hall (lit ".obsidian/bookmarks.json") Henq) as [st [Hs Hin]].
  exists st. split; [reflexivity|]. split; assumption.
Defined.

Lemma fetchObs_readable (configDir : jsstring) (vault : Vault) (x : jsstring)
  (statRes : Stat) :
  statFix vault x = Resolved statRes ->
  (isFolderStat statRes = false -> mtimeMissingOrZero statRes = false) ->
  (isFolderStat statRes = true -> adapter_list vault x <> None) ->
  fetchObs configDir vault x =
  Ok {| itself := entityOf x statRes;
        children := if isFolderStat statRes
                    then adapter_list vault x else None |}.
Proof.
  intros Hs Hm Hl. unfold fetchObs, listChildren. rewrite Hs.
  destruct (isFolderStat statRes) eqn:Ef; simpl.
  - destruct (adapter_list vault x) as [listed|]; [reflexivity|].
    exfalso. apply Hl; reflexivity.
  - rewrite (Hm eq_refl). reflexivity.
Qed.

Lemma enqueuedObs_next (skip : jsstring -> list jsstring -> bool)
  (vault : Vault) (pluginId configDir x : jsstring) (f : Fetched) :
  enqueuedObs skip vault pluginId configDir x ->
  fetchObs configDir vault x = Ok f ->
  Forall (enqueuedObs skip vault pluginId configDir) (nextObs skip pluginId f).
Proof.
  intros Hx Hf. apply Forall_forall. intros c Hc.
  apply (nextObs_in skip configDir vault pluginId x f c Hf) in Hc.
  destruct Hc as [st [Hs [Hfo [Hin Hk]]]].
  eapply enqueued_child; eassumption.
Qed.

(** X3.  [listFilesInObsFolder] fails only because of an enqueued path:
    when every enqueued path has metadata, with a modification time that is
    not zero if it is not a folder and a listing that resolves if it is, no
    call fails; and without [bookmarksOnly] the call returns the contents
    of the levels as soon as they run empty. *)
Theorem config_listing_fails_only_on_enqueued_paths
  (skip : jsstring -> list jsstring -> bool)
  (configDir : jsstring) (vault : Vault) (pluginId : jsstring) :
  (forall x, enqueuedObs skip vault pluginId configDir x ->
             exists statRes,
               statFix vault x = Resolved statRes
               /\ (isFolderStat statRes = false ->
                   mtimeMissingOrZero statRes = false)
               /\ (isFolderStat statRes = true ->
                   adapter_list vault x <> None)) ->
  (forall fuel bookmarksOnly e,
      listFilesInObsFolder skip fuel configDir vault pluginId bookmarksOnly
      <> Some (Err e))
  /\ (forall n fuel contents,
         levelsObs skip n configDir vault pluginId = Ok ([], contents) ->
         n <= fuel ->
         listFilesInObsFolder skip fuel configDir vault pluginId false
         = Some (Ok contents)).
Proof.
  intros Hok. split.
  - intros fuel bookmarksOnly e H.
    assert (H' : exists e',
               listFilesInObsFolder skip fuel configDir vault pluginId
                 bookmarksOnly = Some (Err e')) by eauto.
    apply listFilesInObsFolder_Err_loopOf in H'. destruct H' as [e' El].
    revert El.
    refine (loopOf_no_Err _ _ _ _
              (enqueuedObs skip vault pluginId configDir) (fun _ => True)
              _ _ _ fuel [configDir] [] 0 e' _ _).
    + intros x f Hx Hf. split.
      * apply Forall_forall. intros; exact I.
      * eapply enqueuedObs_next; eassumption.
    + intros x Hx. destruct (Hok x Hx) as [st [Hs [Hm Hl]]].
      eexists. apply fetchObs_readable; eassumption.
    + constructor; [constructor | constructor].
    + constructor.
  - intros n fuel contents Hl Hf.
    unfold listFilesInObsFolder. unfold levelsObs in Hl.
    rewrite loopObs_loopOf.
    change (fun r : nat => false && (1 <? r)) with (fun _ : nat => false).
    rewrite (loopOf_exhausts _ n fuel _ [] contents 0 Hl Hf).
    reflexivity.
Qed.

Lemma partlyReadable_enqueued (unreadable : StatOutcome) (x : jsstring) :
  enqueuedObs specialNameSkipPredicate (partlyReadableVault unreadable)
    (lit "remotely-save") (lit ".h") x ->
  In x [lit ".h"; lit ".h/gone"; lit ".h/kept"].
Proof.
  induction 1 as [|p st c _ IH Hs Hf Hin Hk]; [left; reflexivity|].
  apply tableVault_children_of in Hin. destruct Hin as [l [Hl Hc]].
  destruct Hl as [Hl|[]]. inversion Hl; subst. simpl in Hc.
  destruct Hc as [<-|[<-|[]]]; simpl; auto.
Qed.

Lemma partlyReadable_all_readable (x : jsstring) :
  enqueuedObs specialNameSkipPredicate (partlyReadableVault aFile)
    (lit "remotely-save") (lit ".h") x ->
  exists statRes,
    statFix (partlyReadableVault aFile) x = Resolved statRes
    /\ (isFolderStat statRes = false -> mtimeMissingOrZero statRes = false)
    /\ (isFolderStat statRes = true ->
        adapter_list (partlyReadableVault aFile) x <> None).
Proof.
  intros H. apply partlyReadable_enqueued in H.
  destruct H as [<-|[<-|[<-|[]]]]; eexists; (split; [reflexivity|]);
    (split; [intros H; try discriminate H; reflexivity
            | intros _; vm_compute; discriminate]).
Qed.

(** X3, witness: a folder with two readable files. *)
Lemma config_listing_fails_only_on_enqueued_paths_witness :
  exists contents,
    listFilesInObsFolder specialNameSkipPredicate 2 (lit ".h")
      (partlyReadableVault aFile) (lit "remotely-save") false
    = Some (Ok contents)
    /\ List.map key contents = [lit ".h/"; lit ".h/gone"; lit ".h/kept"].
Proof.
  destruct (config_listing_fails_only_on_enqueued_paths
              specialNameSkipPredicate (lit ".h") (partlyReadableVault aFile)
              (lit "remotely-save") partlyReadable_all_readable)
    as [_ Hreturns].
  eexists. split.
  - apply (Hreturns 2 2); [vm_compute; reflexivity | apply le_n].
  - reflexivity.
Defined.

(** ** Modification times *)

Lemma listFilesInObsFolder_fetch_Err
  (skip : jsstring -> list jsstring -> bool)
  (vault : Vault) (x : jsstring) (e0 : Error) (n fuel : nat)
  (configDir pluginId : jsstring)
  (bookmarksOnly : bool) (q : Queue.t) (contents : list Entity) :
  fetchObs configDir vault x = Err e0 ->
  levelsObs skip n configDir vault pluginId = Ok (q, contents) ->
  In x q ->
  (bookmarksOnly = true -> n <= 2) ->
  n < fuel ->
  exists e,
    listFilesInObsFolder skip fuel configDir vault pluginId bookmarksOnly
    = Some (Err e).
Proof.
  intros He Hl Hin Hb Hf.
  apply listFilesInObsFolder_Err_loopOf. apply levelsObs_roundOf in Hl.
  replace fuel with (n + S (fuel - n - 1)) by lia.
  rewrite (loopOf_levelsOf _ _ n (S (fuel - n - 1)) _ _ 0 _ _ Hl).
  - destruct q as [|y q]; [contradiction|]. cbn [loopOf].
    destruct (roundOf_Err _ (fetchObs configDir vault) emitObs
                (nextObs skip pluginId) (y :: q) contents x e0 Hin He)
      as [e' ->].
    exists e'. reflexivity.
  - intros i Hi. destruct bookmarksOnly; [|reflexivity].
    specialize (Hb eq_refl).
    assert (i = 0 \/ i = 1) as [-> | ->] by lia; reflexivity.
Qed.

(** X4.  A path that is not a folder and whose modification time is
    missing or zero is fatal to [listFilesInObsFolder] when it is fetched
    (as the root, the error names the root and the path), while
    [listFilesByAdapterPaths] lists it like any other path. *)
Theorem zero_mtime_fatal_for_config_only
  (skip : jsstring -> list jsstring -> bool) (vault : Vault) (x : jsstring)
  (statRes : Stat) :
  statFix vault x = Resolved statRes ->
  type statRes <> lit "folder" ->
  mtime statRes = None \/ mtime statRes = Some 0%Z ->
  (forall n fuel configDir pluginId bookmarksOnly q contents,
      levelsObs skip n configDir vault pluginId = Ok (q, contents) ->
      In x q ->
      (bookmarksOnly = true -> n <= 2) ->
      n < fuel ->
      exists e,
        listFilesInObsFolder skip fuel configDir vault pluginId bookmarksOnly
        = Some (Err e))
  /\ (forall fuel pluginId bookmarksOnly,
         1 <= fuel ->
         listFilesInObsFolder skip fuel x vault pluginId bookmarksOnly
         = Some (Err (LastModifiedTimeZero x x)))
  /\ (forall fuel roots out,
         listFilesByAdapterPaths fuel roots vault = Some (Ok out) ->
         reachableAdapter vault roots x ->
         In (entityOf x statRes) out).
Proof.
  intros Hs Ht Hm.
  assert (Ef : isFolderStat statRes = false).
  { destruct (isFolderStat statRes) eqn:E; [|reflexivity].
    apply isFolderStat_true in E. contradiction. }
  assert (Em : mtimeMissingOrZero statRes = true).
  { unfold mtimeMissingOrZero. destruct Hm as [-> | ->]; reflexivity. }
  assert (He : forall configDir,
             fetchObs configDir vault x = Err (LastModifiedTimeZero configDir x)).
  { intros configDir. unfold fetchObs. rewrite Hs, Ef, Em. reflexivity. }
  split; [|split].
  - intros n fuel configDir pluginId bookmarksOnly q contents.
    apply (listFilesInObsFolder_fetch_Err skip vault x _ n fuel configDir
             pluginId bookmarksOnly q contents (He configDir)).
  - intros fuel pluginId bookmarksOnly Hf.
    destruct fuel as [|fuel]; [lia|].
    unfold listFilesInObsFolder, Queue.make. cbn [loopObs].
    rewrite (roundObs_single_Err skip x vault pluginId x [] _ (He x)).
    reflexivity.
  - intros fuel roots out Hl Hx.
    destruct (listFilesByAdapterPaths_all vault roots fuel out Hl) as [Hc _].
    apply Hc; assumption.
Qed.

(** X4, witness: a file without modification time. *)
Lemma zero_mtime_fatal_for_config_only_witness :
  listFilesInObsFolder specialNameSkipPredicate 1 (lit "a")
    (tableVault
       [(lit "a", Resolved {| type := lit "file"; mtime := None;
                              size := 7%Z |})] [])
    (lit "remotely-save") false
  = Some (Err (LastModifiedTimeZero (lit "a") (lit "a"))).
Proof.
  destruct (zero_mtime_fatal_for_config_only specialNameSkipPredicate
              (tableVault
                 [(lit "a", Resolved {| type := lit "file"; mtime := None;
                                        size := 7%Z |})] [])
              (lit "a")
              {| type := lit "file"; mtime := None; size := 7%Z |})
    as [_ [H _]].
  - reflexivity.
  - discriminate.
  - left; reflexivity.
  - apply H. apply le_n.
Defined.

(** X5.  The metadata fields of the listed entities: in both listers the
    two time fields are equal and the two size fields are equal; and every
    entity [listFilesInObsFolder] returns under a key without trailing
    slash has a modification time, which is not zero. *)
Theorem listed_metadata_fields
  (skip : jsstring -> list jsstring -> bool) (vault : Vault) (fuel : nat)
  (configDir pluginId : jsstring) (bookmarksOnly : bool)
  (roots : list jsstring) :
  (forall out,
      listFilesInObsFolder skip fuel configDir vault pluginId bookmarksOnly
      = Some (Ok out) ->
      forall e, In e out ->
        mtimeSvr e = mtimeCli e /\ sizeRaw e = esize e
        /\ (endsWith (key e) [slash] = false ->
            exists m, mtimeCli e = Some m /\ m <> 0%Z))
  /\ (forall out,
         listFilesByAdapterPaths fuel roots vault = Some (Ok out) ->
         forall e, In e out ->
           mtimeSvr e = mtimeCli e /\ sizeRaw e = esize e).
Proof.
  split; intros out H e He.
  - apply listFilesInObsFolder_contents in H.
    destruct H as [contents [Hl ->]].
    assert (Hc : Forall
                   (fun e => exists x st,
                        e = entityOf x st
                        /\ (isFolderStat st = false ->
                            mtimeMissingOrZero st = false)) contents).
    { refine (loopOf_invariant _ _ _ _ (fun _ => True)
                _ _ _ fuel [configDir] [] 0 contents _ _ Hl).
      - intros x f _ Hf. split.
        + destruct (fetchObs_Ok _ _ _ _ Hf) as [st [Hs [Hi [_ [Hm _]]]]].
          unfold emitObs. rewrite Hi. constructor; [|constructor].
          exists x, st. split; [reflexivity | assumption].
        + apply Forall_forall. intros; exact I.
      - constructor; [exact I | constructor].
      - constructor. }
    rewrite Forall_forall in Hc.
    assert (Hin : In e contents).
    { destruct bookmarksOnly; [|assumption]. apply filter_In in He. apply He. }
    destruct (Hc e Hin) as [x [st [-> Hm]]].
    split; [reflexivity|]. split; [reflexivity|].
    rewrite key_entityOf. destruct (isFolderStat st) eqn:Ef.
    + rewrite endsWith_slash_snoc. discriminate.
    + intros _. specialize (Hm eq_refl). unfold mtimeMissingOrZero in Hm.
      simpl. destruct (mtime st) as [m|]; [|discriminate].
      exists m. split; [reflexivity|]. apply Z.eqb_neq. assumption.
  - destruct (listFilesByAdapterPaths_all vault roots fuel out H) as [_ Hs].
    destruct (Hs e He) as [x [st [_ [_ ->]]]]. split; reflexivity.
Qed.

(** X5, witness: the files of [configVault] have their modification
    time. *)
Lemma listed_metadata_fields_witness :
  exists out,
    listFilesInObsFolder specialNameSkipPredicate 4 (lit ".obsidian")
      configVault (lit "remotely-save") false = Some (Ok out)
    /\ forall e, In e out ->
         mtimeSvr e = mtimeCli e /\ sizeRaw e = esize e
         /\ (endsWith (key e) [slash] = false ->
             exists m, mtimeCli e = Some m /\ m <> 0%Z).
Proof.
  eexists. split; [vm_compute; reflexivity|].
  destruct (listed_metadata_fields specialNameSkipPredicate configVault 4
              (lit ".obsidian") (lit "remotely-save") false []) as [H _].
  apply H. vm_compute; reflexivity.
Defined.

(** ** The head of the listing *)

(** The contents only grow. *)
Lemma loopOf_roundOf_grows (F : Type) (fetch : jsstring -> Result F)
  (emit : F -> list Entity) (next : F -> list jsstring)
  (stop : nat -> bool) (fuel : nat) :
  forall (q : Queue.t) (contents : list Entity) (iterRound : nat)
         (out : list Entity),
    loopOf (roundOf fetch emit next) stop fuel q contents iterRound
    = Some (Ok out) ->
    exists more, out = contents ++ more.
Proof.
  induction fuel as [|fuel IH]; intros q contents iterRound out Hl;
    destruct q as [|x q]; simpl in Hl; try discriminate;
    try (inversion Hl; subst; exists []; rewrite app_nil_r; reflexivity).
  destruct (roundOf fetch emit next (x :: q) contents)
    as [[q' contents']|e] eqn:Er; [|discriminate].
  destruct (roundOf_Ok _ fetch emit next _ _ _ _ Er) as [r [_ [_ ->]]].
  destruct (stop iterRound).
  - inversion Hl; subst. eexists; reflexivity.
  - destruct (IH _ _ _ _ Hl) as [more ->].
    exists (flat_map emit r ++ more). rewrite app_assoc. reflexivity.
Qed.

(** The first round of [listFilesInObsFolder]. *)
Lemma listFilesInObsFolder_first_round
  (skip : jsstring -> list jsstring -> bool) (fuel : nat)
  (configDir : jsstring) (vault : Vault) (pluginId : jsstring)
  (bookmarksOnly : bool) (contents : list Entity) :
  loopOf (roundOf (fetchObs configDir vault) emitObs (nextObs skip pluginId))
    (fun r => bookmarksOnly && (1 <? r)) fuel [configDir] [] 0
  = Some (Ok contents) ->
  exists fuel' f,
    fuel = S fuel'
    /\ fetchObs configDir vault configDir = Ok f
    /\ loopOf
         (roundOf (fetchObs configDir vault) emitObs (nextObs skip pluginId))
         (fun r => bookmarksOnly && (1 <? r)) fuel'
         (nextObs skip pluginId f) [itself f] 1
       = Some (Ok contents).
Proof.
  intros Hl. destruct fuel as [|fuel]; [discriminate|].
  cbn [loopOf] in Hl. unfold roundOf at 1 in Hl. cbn [awaitInOrder] in Hl.
  destruct (fetchObs configDir vault configDir) as [f|e]; [|discriminate].
  cbn [bind flat_map app emitObs] in Hl. rewrite app_nil_r in Hl.
  rewrite andb_false_r in Hl.
  exists fuel, f. repeat split. exact Hl.
Qed.

(** X7.  A call of [listFilesInObsFolder] that returns has read the
    metadata of the root; without [bookmarksOnly], or when the root is a
    folder, the entity of the root is the first of the list, which is
    therefore not empty. *)
Theorem root_entity_comes_first
  (skip : jsstring -> list jsstring -> bool) (fuel : nat)
  (configDir : jsstring) (vault : Vault) (pluginId : jsstring)
  (bookmarksOnly : bool) (out : list Entity) :
  listFilesInObsFolder skip fuel configDir vault pluginId bookmarksOnly
  = Some (Ok out) ->
  exists statRes,
    statFix vault configDir = Resolved statRes
    /\ (bookmarksOnly = false \/ type statRes = lit "folder" ->
        exists rest, out = entityOf configDir statRes :: rest).
Proof.
  intros H. apply listFilesInObsFolder_contents in H.
  destruct H as [contents [Hl ->]].
  apply listFilesInObsFolder_first_round in Hl.
  destruct Hl as [fuel' [f [_ [Hf Hl]]]].
  apply loopOf_roundOf_grows in Hl. destruct Hl as [more ->].
  destruct (fetchObs_Ok _ _ _ _ Hf) as [st [Hs [Hi _]]].
  exists st. split; [assumption|]. rewrite Hi. intros Hcase.
  destruct bookmarksOnly.
  - destruct Hcase as [Hcase|Hcase]; [discriminate|].
    apply isFolderStat_true in Hcase. cbn [app filter].
    unfold isRootOrBookmarks at 1. rewrite key_entityOf, Hcase, eqb_refl.
    cbn [orb]. eexists; reflexivity.
  - eexists; reflexivity.
Qed.

(** X7, witness: the listing of [configVault] starts with [.obsidian/]. *)
Lemma root_entity_comes_first_witness :
  exists statRes rest,
    statFix configVault (lit ".obsidian") = Resolved statRes
    /\ listFilesInObsFolder specialNameSkipPredicate 4 (lit ".obsidian")
         configVault (lit "remotely-save") false
       = Some (Ok (entityOf (lit ".obsidian") statRes :: rest)).
Proof.
  destruct (root_entity_comes_first specialNameSkipPredicate 4
              (lit ".obsidian") configVault (lit "remotely-save") false _
              eq_refl) as [st [Hs Hout]].
  destruct (Hout (or_introl eq_refl)) as [rest Hrest].
  exists st, rest. split; [exact Hs|]. rewrite <- Hrest. reflexivity.
Defined.

(** X6.  What the bookmarks-only mode is for: when the root is a folder
    that names [configDir/bookmarks.json] among its children, and neither
    skip test fires on that name, a call with [bookmarksOnly] that returns
    has read the metadata of [bookmarks.json] and lists its entity, unless
    it is a folder. *)
Theorem bookmarksOnly_finds_bookmarks
  (skip : jsstring -> list jsstring -> bool) (fuel : nat)
  (configDir : jsstring) (vault : Vault) (pluginId : jsstring)
  (out : list Entity) (statRes : Stat) :
  listFilesInObsFolder skip fuel configDir vault pluginId true
  = Some (Ok out) ->
  statFix vault configDir = Resolved statRes ->
  type statRes = lit "folder" ->
  In (configDir ++ lit "/bookmarks.json") (childrenOf vault configDir) ->
  skip (configDir ++ lit "/bookmarks.json") reservedNames = false ->
  isPluginDirItself (configDir ++ [slash]) pluginId = false ->
  exists statRes',
    statFix vault (configDir ++ lit "/bookmarks.json") = Resolved statRes'
    /\ (type statRes' <> lit "folder" ->
        In (entityOf (configDir ++ lit "/bookmarks.json") statRes') out).
Proof.
  intros H Hs Ht Hin Hskip Hplug. apply listFilesInObsFolder_contents in H.
  destruct H as [contents [Hl ->]].
  apply listFilesInObsFolder_first_round in Hl.
  destruct Hl as [fuel' [f [_ [Hf Hl]]]].
  set (bm := configDir ++ lit "/bookmarks.json") in *.
  assert (Hq : In bm (nextObs skip pluginId f)).
  { apply (nextObs_in skip configDir vault pluginId configDir f bm Hf).
    exists statRes. split; [assumption|].
    split; [apply isFolderStat_true; assumption|].
    split; [assumption|].
    unfold keepChild. rewrite Hskip, Hplug. reflexivity. }
  destruct (nextObs skip pluginId f) as [|y q1] eqn:Eq; [contradiction|].
  destruct fuel' as [|fuel']; [discriminate|].
  cbn [loopOf] in Hl.
  destruct (roundOf (fetchObs configDir vault) emitObs (nextObs skip pluginId)
              (y :: q1) [itself f]) as [[q2 c2]|e] eqn:Er; [|discriminate].
  destruct (roundOf_Ok _ _ _ _ _ _ _ _ Er) as [r [H2 [_ Hc2]]].
  destruct (fetched_in _ _ _ _ _ H2 Hq) as [fb [Hfb Hr]].
  destruct (fetchObs_Ok _ _ _ _ Hfb) as [st' [Hs' [Hi' _]]].
  exists st'. split; [assumption|]. intros Hnf.
  assert (Ef : isFolderStat st' = false).
  { destruct (isFolderStat st') eqn:E; [|reflexivity].
    apply isFolderStat_true in E. contradiction. }
  assert (Hin2 : In (entityOf bm st') c2).
  { rewrite Hc2. apply in_or_app. right. apply in_flat_map.
    exists fb. split; [assumption|]. unfold emitObs. rewrite Hi'.
    left; reflexivity. }
  cbn [andb Nat.ltb Nat.leb] in Hl.
  apply loopOf_roundOf_grows in Hl. destruct Hl as [more ->].
  apply filter_In. split.
  - apply in_or_app. left; assumption.
  - unfold isRootOrBookmarks. rewrite key_entityOf, Ef.
    fold bm. rewrite eqb_refl. apply orb_true_r.
Qed.

(** X6, witness: [configVault] has a [bookmarks.json]. *)
Lemma bookmarksOnly_finds_bookmarks_witness :
  exists out statRes,
    listFilesInObsFolder specialNameSkipPredicate 3 (lit ".obsidian")
      configVault (lit "remotely-save") true = Some (Ok out)
    /\ statFix configVault (lit ".obsidian/bookmarks.json") = Resolved statRes
    /\ In (entityOf (lit ".obsidian/bookmarks.json") statRes) out.
Proof.
  eexists.
  destruct (bookmarksOnly_finds_bookmarks specialNameSkipPredicate 3
              (lit ".obsidian") configVault (lit "remotely-save") _
              {| type := lit "folder"; mtime := Some 0%Z; size := 0%Z |}
              eq_refl eq_refl eq_refl (or_intror (or_introl eq_refl))
              eq_refl eq_refl) as [st [Hs Hin]].
  exists st. split; [reflexivity|]. split; [exact Hs|].
  apply Hin. vm_compute in Hs. inversion Hs; subst. discriminate.
Defined.

(** ** The two listers side by side *)

Lemma loopOf_ext_on (Pq : jsstring -> Prop)
  (round1 round2 :
     Queue.t -> list Entity -> Result (Queue.t * list Entity))
  (stop : nat -> bool) :
  (forall q c, Forall Pq q -> round1 q c = round2 q c) ->
  (forall q c q' c', Forall Pq q -> round2 q c = Ok (q', c') ->
                     Forall Pq q') ->
  forall fuel q c r,
    Forall Pq q ->
    loopOf round1 stop fuel q c r = loopOf round2 stop fuel q c r.
Proof.
  intros Heq Hinv. induction fuel as [|fuel IH]; intros q c r Hq;
    destruct q as [|x q]; try reflexivity.
  cbn [loopOf]. rewrite (Heq _ c Hq).
  destruct (round2 (x :: q) c) as [[q' c']|e] eqn:Er; [|reflexivity].
  rewrite (IH q' c' (S r) (Hinv _ _ _ _ Hq Er)). reflexivity.
Qed.

Section Agreement.

Variable skip : jsstring -> list jsstring -> bool.
Variable vault : Vault.
Variables pluginId configDir : jsstring.

Hypothesis readable : forall x,
  enqueuedObs skip vault pluginId configDir x ->
  exists statRes,
    statFix vault x = Resolved statRes
    /\ (isFolderStat statRes = false -> mtimeMissingOrZero statRes = false).

Hypothesis kept : forall p c,
  enqueuedObs skip vault pluginId configDir p ->
  In c (childrenOf vault p) ->
  keepChild skip (isPluginDirItself (p ++ [slash]) pluginId) c = true.

(** On an enqueued path the two callbacks differ by the wrapping of the
    result only, and pass on the same children. *)
Lemma fetches_agree (x : jsstring) :
  enqueuedObs skip vault pluginId configDir x ->
  fetchAdapter vault x = (f <- fetchObs configDir vault x ;; Ok (Some f))
  /\ forall f, fetchObs configDir vault x = Ok f ->
               nextObs skip pluginId f = nextAdapter (Some f).
Proof.
  intros Hx. destruct (readable x Hx) as [st [Hs Hm]]. split.
  - unfold fetchAdapter, fetchObs, listChildren. rewrite Hs.
    destruct (isFolderStat st) eqn:Ef; simpl.
    + destruct (adapter_list vault x); reflexivity.
    + rewrite (Hm eq_refl). reflexivity.
  - intros f Hf.
    destruct (fetchObs_Ok _ _ _ _ Hf) as [st' [Hs' [Hi [Hc _]]]].
    assert (st' = st) by congruence; subst st'.
    unfold nextObs, nextAdapter. rewrite Hc, Hi, key_entityOf.
    destruct (isFolderStat st) eqn:Ef; [|reflexivity].
    destruct (adapter_list vault x) as [listed|] eqn:El; [|reflexivity].
    apply filter_all. intros c Hin. apply (kept x c Hx).
    unfold childrenOf. rewrite El. exact Hin.
Qed.

Lemma folds_agree (r : list Fetched) (st : Queue.t * list Entity) :
  (forall f, In f r -> nextObs skip pluginId f = nextAdapter (Some f)) ->
  fold_left (consumeObs skip pluginId) r st
  = fold_left consumeAdapter (List.map Some r) st.
Proof.
  revert st; induction r as [|f r IH]; intros [q contents] H;
    [reflexivity|].
  cbn [fold_left List.map].
  rewrite consumeObs_spec, consumeAdapter_spec.
  rewrite (H f (or_introl eq_refl)). cbn [emitObs emitAdapter].
  apply IH. intros g Hg. apply H. right; assumption.
Qed.

Lemma chunks_agree (cs : list (list jsstring))
  (st : Queue.t * list Entity) :
  Forall (enqueuedObs skip vault pluginId configDir) (List.concat cs) ->
  chunksObs skip configDir vault pluginId cs st = chunksAdapter vault cs st.
Proof.
  revert st; induction cs as [|c cs IH]; intros st Hq; [reflexivity|].
  cbn [chunksObs chunksAdapter List.concat] in *.
  apply Forall_app in Hq. destruct Hq as [Hc Hcs].
  rewrite Forall_forall in Hc.
  rewrite (promiseAll_map _ _ _ (settles vault) (fetchObs configDir vault)
             (fetchAdapter vault) Some c)
    by (intros x Hx; apply fetches_agree; auto).
  destruct (promiseAll (settles vault) (fetchObs configDir vault) c)
    as [r|e] eqn:Er; simpl; [|reflexivity].
  rewrite <- folds_agree.
  - apply IH; assumption.
  - intros f Hf. apply promiseAll_Ok in Er.
    destruct (fetched_from _ _ _ _ _ Er Hf) as [x [Hx Hfx]].
    apply (proj2 (fetches_agree x (Hc x Hx))). assumption.
Qed.

Lemma rounds_agree (q : Queue.t) (contents : list Entity) :
  Forall (enqueuedObs skip vault pluginId configDir) q ->
  roundObs skip configDir vault pluginId q contents
  = roundAdapter vault q contents.
Proof.
  intros Hq. unfold roundObs, roundAdapter. rewrite drain_spec. cbn [app].
  apply chunks_agree. unfold CHUNK_SIZE. rewrite concat_chunk. assumption.
Qed.

Lemma adapter_round_keeps_enqueued (q : Queue.t) (contents : list Entity)
  (q' : Queue.t) (contents' : list Entity) :
  Forall (enqueuedObs skip vault pluginId configDir) q ->
  roundAdapter vault q contents = Ok (q', contents') ->
  Forall (enqueuedObs skip vault pluginId configDir) q'.
Proof.
  intros Hq Hr. rewrite <- rounds_agree in Hr by assumption.
  apply (sameOutcome_Ok _ _ _ _
           (roundObs_roundOf skip configDir vault pluginId q contents))
    in Hr.
  refine (proj1 (roundOf_invariant _ _ _ _
                   (enqueuedObs skip vault pluginId configDir)
                   (fun _ => True) _ q contents q' contents' Hq _ Hr)).
  - intros x f Hx Hf. split.
    + apply Forall_forall. intros; exact I.
    + eapply enqueuedObs_next; eassumption.
  - apply Forall_forall. intros; exact I.
Qed.

End Agreement.

(** X8.  [listFilesByAdapterPaths] is [listFilesInObsFolder] without its
    filters and checks: for a root that is trimmed and not empty, when
    every enqueued path has metadata (with a modification time that is not
    zero if it is not a folder) and every child of an enqueued path passes
    the two skip tests, the two listers, with the same fuel, return the
    same list. *)
Theorem listers_agree_when_nothing_is_filtered
  (skip : jsstring -> list jsstring -> bool) (vault : Vault)
  (pluginId configDir : jsstring) (fuel : nat) :
  trim configDir = configDir ->
  configDir <> [] ->
  (forall x, enqueuedObs skip vault pluginId configDir x ->
             exists statRes,
               statFix vault x = Resolved statRes
               /\ (isFolderStat statRes = false ->
                   mtimeMissingOrZero statRes = false)) ->
  (forall p c, enqueuedObs skip vault pluginId configDir p ->
               In c (childrenOf vault p) ->
               keepChild skip (isPluginDirItself (p ++ [slash]) pluginId) c
               = true) ->
  listFilesInObsFolder skip fuel configDir vault pluginId false
  = listFilesByAdapterPaths fuel [configDir] vault.
Proof.
  intros Htrim Hne Hread Hkept.
  unfold listFilesInObsFolder, listFilesByAdapterPaths, Queue.make.
  rewrite loopObs_loopOf, (loopAdapter_loopOf _ _ _ _ 0).
  assert (Eroots : uniqueRoots [configDir] = [configDir]).
  { unfold uniqueRoots, arrayFromSet. cbn [uniqueFrom existsb List.map filter].
    rewrite Htrim. apply eqb_neq in Hne. rewrite Hne. reflexivity. }
  rewrite Eroots.
  change (fun r : nat => false && (1 <? r)) with (fun _ : nat => false).
  rewrite (loopOf_ext_on (enqueuedObs skip vault pluginId configDir)
             _ _ (fun _ => false)
             (fun q c => rounds_agree skip vault pluginId configDir
                           Hread Hkept q c)
             (adapter_round_keeps_enqueued skip vault pluginId configDir
                Hread Hkept)
             fuel [configDir] [] 0).
  - destruct (loopOf _ _ fuel [configDir] [] 0) as [[c|e]|]; reflexivity.
  - constructor; [constructor | constructor].
Qed.

(** X8, witness: a folder with two readable files. *)
Lemma listers_agree_when_nothing_is_filtered_witness :
  listFilesInObsFolder specialNameSkipPredicate 2 (lit ".h")
    (partlyReadableVault aFile) (lit "remotely-save") false
  = listFilesByAdapterPaths 2 [lit ".h"] (partlyReadableVault aFile).
Proof.
  apply (listers_agree_when_nothing_is_filtered specialNameSkipPredicate
           (partlyReadableVault aFile) (lit "remotely-save") (lit ".h") 2).
  - reflexivity.
  - discriminate.
  - intros x Hx.
    destruct (partlyReadable_all_readable x Hx) as [st [Hs [Hm _]]].
    exists st. split; assumption.
  - intros p c Hp Hc. apply partlyReadable_enqueued in Hp.
    apply tableVault_children_of in Hc. destruct Hc as [l [Hl Hc]].
    destruct Hl as [Hl|[]]. inversion Hl; subst. simpl in Hc.
    destruct Hc as [<-|[<-|[]]]; reflexivity.
Defined.

(** ** Trimming *)

Lemma trimStart_fixed (s : jsstring) :
  trimStart s = s ->
  s = [] \/ exists c s', s = c :: s' /\ isWhiteSpace c = false.
Proof.
  destruct s as [|c s]; [left; reflexivity|]. simpl.
  destruct (isWhiteSpace c) eqn:Hc.
  - intros H. apply (f_equal (@List.length _)) in H. simpl in H.
    pose proof (length_trimStart s). lia.
  - intros _. right. exists c, s. split; [reflexivity | assumption].
Qed.

Lemma trimEnd_cons (c : code_unit) (s : jsstring) :
  isWhiteSpace c = false -> trimEnd (c :: s) = c :: trimEnd s.
Proof.
  intros Hc. unfold trimEnd. simpl. rewrite trimStart_snoc by assumption.
  rewrite rev_app_distr. reflexivity.
Qed.

Lemma trimEnd_idempotent (s : jsstring) : trimEnd (trimEnd s) = trimEnd s.
Proof.
  unfold trimEnd. rewrite rev_involutive, trimStart_idempotent. reflexivity.
Qed.

Lemma trim_idempotent (s : jsstring) : trim (trim s) = trim s.
Proof.
  unfold trim.
  destruct (trimStart_fixed (trimStart s) (trimStart_idempotent s))
    as [->|[c [s' [-> Hc]]]]; [reflexivity|].
  rewrite trimEnd_cons by assumption. simpl. rewrite Hc.
  rewrite <- trimEnd_cons by assumption. apply trimEnd_idempotent.
Qed.

Lemma trimEnd_in (s : jsstring) (x : code_unit) :
  In x (trimEnd s) -> In x s.
Proof.
  unfold trimEnd. intros H. apply in_rev in H. apply trimStart_in in H.
  apply in_rev. assumption.
Qed.

Lemma trim_in (s : jsstring) (x : code_unit) : In x (trim s) -> In x s.
Proof. intros H. apply trimStart_in, trimEnd_in. exact H. Qed.

(** ** The seeds of [listFilesByAdapterPaths] *)

Lemma uniqueFrom_complete (seen xs : list jsstring) (x : jsstring) :
  In x xs -> ~ In x seen -> In x (uniqueFrom seen xs).
Proof.
  revert seen; induction xs as [|y xs IH]; intros seen Hin Hns;
    [contradiction|].
  simpl. destruct (existsb (JS.eqb y) seen) eqn:E.
  - apply existsb_exists in E. destruct E as [z [Hz Hyz]].
    apply eqb_eq in Hyz. subst z.
    destruct Hin as [->|Hin]; [contradiction|]. apply IH; assumption.
  - destruct (JS.eqb y x) eqn:Eyx.
    + apply eqb_eq in Eyx. left; assumption.
    + right. destruct Hin as [->|Hin]; [rewrite eqb_refl in Eyx; discriminate|].
      apply IH; [assumption|].
      intros [->|H]; [rewrite eqb_refl in Eyx; discriminate | contradiction].
Qed.

(** X9.  Roots that are all blank (in particular no root at all) give the
    empty list, whatever the storage, and without a single fetch: the call
    returns even with no fuel. *)
Theorem blank_roots_list_nothing (roots : list jsstring) (vault : Vault)
  (fuel : nat) :
  (forall r, In r roots -> trim r = []) ->
  listFilesByAdapterPaths fuel roots vault = Some (Ok []).
Proof.
  intros Hblank.
  assert (E : uniqueRoots roots = []).
  { unfold uniqueRoots, arrayFromSet. apply filter_none. intros r Hr.
    apply in_map_iff in Hr. destruct Hr as [r0 [<- H0]].
    apply uniqueFrom_incl in H0. rewrite (Hblank r0 H0). reflexivity. }
  unfold listFilesByAdapterPaths. rewrite E. destruct fuel; reflexivity.
Qed.

(** X9, witness: an empty root and a root of spaces. *)
Lemma blank_roots_list_nothing_witness :
  listFilesByAdapterPaths 0 [lit ""; lit "   "] configVault = Some (Ok []).
Proof.
  apply (blank_roots_list_nothing [lit ""; lit "   "] configVault 0).
  intros r [<-|[<-|[]]]; reflexivity.
Defined.

(** X10.  The seeds of the queue: each is the trimmed form of a root, is
    itself trimmed and is not empty; no root that is not blank is lost; and
    the seeds are pairwise distinct when the roots come trimmed. *)
Theorem seeded_roots (roots : list jsstring) :
  (forall r, In r (uniqueRoots roots) ->
             r <> [] /\ trim r = r /\ exists r0, In r0 roots /\ r = trim r0)
  /\ (forall r0, In r0 roots -> trim r0 <> [] ->
                 In (trim r0) (uniqueRoots roots))
  /\ ((forall r, In r roots -> trim r = r) -> NoDup (uniqueRoots roots)).
Proof.
  split; [|split].
  - intros r Hr. destruct (uniqueRoots_trimmed roots r Hr) as [Hne [r0 [H0 ->]]].
    split; [assumption|]. split; [apply trim_idempotent|].
    exists r0. split; [assumption | reflexivity].
  - intros r0 H0 Hne. unfold uniqueRoots, arrayFromSet. apply filter_In.
    split.
    + apply in_map. apply uniqueFrom_complete; [assumption | intros []].
    + apply negb_true_iff, eqb_neq. assumption.
  - apply uniqueRoots_NoDup.
Qed.

(** X10, witness: two trimmed roots, one of them twice. *)
Lemma seeded_roots_witness :
  NoDup (uniqueRoots [lit ".a"; lit ".b"; lit ".a"]).
Proof.
  destruct (seeded_roots [lit ".a"; lit ".b"; lit ".a"]) as [_ [_ H]].
  apply H. intros r [<-|[<-|[<-|[]]]]; reflexivity.
Defined.

(** ** The allow-list roots, in general *)

Lemma uniqueFrom_nil_in (xs : list jsstring) (x : jsstring) :
  In x (uniqueFrom [] xs) <-> In x xs.
Proof.
  split; [apply uniqueFrom_incl|].
  intros H. apply uniqueFrom_complete; [assumption | intros []].
Qed.

Lemma extractLiteralPrefix_trim (p : jsstring) :
  extractLiteralPrefix (trim p) = extractLiteralPrefix p.
Proof. unfold extractLiteralPrefix. rewrite trim_idempotent. reflexivity. Qed.

Lemma extractLiteralPrefix_blank (p : jsstring) :
  trim p = [] -> extractLiteralPrefix p = [].
Proof. intros H. unfold extractLiteralPrefix. rewrite H. reflexivity. Qed.

(** X11.  [getHiddenAllowListRoots] returns, each once, the literal
    prefixes of the patterns that are longer than one code unit and hidden;
    an undefined argument gives none.  The test for blank patterns adds
    nothing: a blank pattern has the empty prefix. *)
Theorem allow_list_roots_are_the_hidden_prefixes
  (onlyAllowPaths : option (list jsstring)) :
  NoDup (getHiddenAllowListRoots onlyAllowPaths)
  /\ forall r,
       In r (getHiddenAllowListRoots onlyAllowPaths) <->
       exists patterns p,
         onlyAllowPaths = Some patterns
         /\ In p patterns
         /\ r = extractLiteralPrefix p
         /\ 1 < List.length r
         /\ isHiddenPathPrefix r = true.
Proof.
  split; [apply uniqueFrom_NoDup|].
  intros r. unfold getHiddenAllowListRoots, arrayFromSet.
  rewrite uniqueFrom_nil_in.
  assert (G : forall ps acc,
             In r (fold_left
                     (fun roots raw =>
                        let trimmed := trim raw in
                        if JS.eqb trimmed [] then roots
                        else
                          let prefix := extractLiteralPrefix trimmed in
                          if (1 <? List.length prefix)
                             && isHiddenPathPrefix prefix
                          then roots ++ [prefix]
                          else roots) ps acc) <->
             In r acc
             \/ exists p, In p ps /\ r = extractLiteralPrefix p
                          /\ 1 < List.length r
                          /\ isHiddenPathPrefix r = true).
  { induction ps as [|raw ps IH]; intros acc.
    - simpl. split; [auto | intros [H|[p [[] _]]]; assumption].
    - cbn [fold_left]. rewrite IH. cbv zeta.
      rewrite extractLiteralPrefix_trim.
      destruct (JS.eqb (trim raw) []) eqn:Eb.
      + apply eqb_eq in Eb. split.
        * intros [H|[p [Hp H]]]; [left; assumption|].
          right. exists p. split; [right; assumption | assumption].
        * intros [H|[p [[<-|Hp] [Hr [Hlen Hh]]]]]; [left; assumption| |].
          -- rewrite (extractLiteralPrefix_blank raw Eb) in Hr. subst r.
             simpl in Hlen. lia.
          -- right. exists p. repeat split; assumption.
      + destruct ((1 <? List.length (extractLiteralPrefix raw))
                  && isHiddenPathPrefix (extractLiteralPrefix raw)) eqn:Et.
        * apply andb_true_iff in Et. destruct Et as [E1 E2].
          apply Nat.ltb_lt in E1. split.
          -- intros [H|[p [Hp H]]].
             ++ apply in_app_or in H. destruct H as [H|[<-|[]]];
                  [left; assumption|].
                right. exists raw. split; [left; reflexivity|].
                repeat split; assumption.
             ++ right. exists p. split; [right; assumption | assumption].
          -- intros [H|[p [[<-|Hp] [Hr [Hlen Hh]]]]].
             ++ left. apply in_or_app. left; assumption.
             ++ left. apply in_or_app. right. left. symmetry; assumption.
             ++ right. exists p. repeat split; assumption.
        * split.
          -- intros [H|[p [Hp H]]]; [left; assumption|].
             right. exists p. split; [right; assumption | assumption].
          -- intros [H|[p [[<-|Hp] [Hr [Hlen Hh]]]]]; [left; assumption| |].
             ++ subst r. apply Nat.ltb_lt in Hlen. rewrite Hlen, Hh in Et.
                discriminate.
             ++ right. exists p. repeat split; assumption. }
  rewrite G. split.
  - intros [[]|[p [Hp H]]]. destruct onlyAllowPaths as [ps|]; [|contradiction].
    exists ps, p. split; [reflexivity|]. split; assumption.
  - intros [ps [p [-> [Hp H]]]]. right. exists p. split; assumption.
Qed.

(** ** The literal prefix, in general *)

Lemma extractLiteralPrefix_split (pattern : jsstring) :
  extractLiteralPrefix pattern = scanFrom (stripAnchors pattern).
Proof. reflexivity. Qed.

Lemma noMeta_not_backslash (c : code_unit) :
  isRegexMetaChar c = false -> N.eqb c backslash = false.
Proof.
  intros H. destruct (N.eqb_spec c backslash) as [->|_]; [|reflexivity].
  discriminate H.
Qed.

Lemma startsWith_meta_head (s : jsstring) (c : code_unit) (rest : jsstring) :
  (forall d, In d s -> isRegexMetaChar d = false) ->
  isRegexMetaChar c = true ->
  startsWith s (c :: rest) = false.
Proof.
  intros Hs Hc. destruct s as [|d s]; [reflexivity|]. simpl.
  destruct (N.eqb_spec d c) as [->|_]; [|reflexivity].
  rewrite (Hs c (or_introl eq_refl)) in Hc. discriminate.
Qed.

Lemma scanLiteral_plain (s out : jsstring) :
  (forall d, In d s -> isRegexMetaChar d = false) ->
  scanLiteral false out s = out ++ s.
Proof.
  revert out; induction s as [|c s IH]; intros out Hs.
  - rewrite app_nil_r. reflexivity.
  - simpl. pose proof (Hs c (or_introl eq_refl)) as Hc.
    rewrite (noMeta_not_backslash c Hc), Hc.
    rewrite IH by (intros d Hd; apply Hs; right; assumption).
    rewrite <- app_assoc. reflexivity.
Qed.

(** X12.  A pattern without any regex metacharacter is its own literal
    prefix, up to the trimming. *)
Theorem plain_pattern_is_its_prefix (pattern : jsstring) :
  (forall c, In c pattern -> isRegexMetaChar c = false) ->
  extractLiteralPrefix pattern = trim pattern.
Proof.
  intros Hp.
  assert (Hs : forall d, In d (trim pattern) -> isRegexMetaChar d = false).
  { intros d Hd. apply Hp. apply trim_in. assumption. }
  assert (E1 : startsWith (trim pattern) (lit "^") = false).
  { apply (startsWith_meta_head _ 94%N []); [exact Hs | reflexivity]. }
  assert (E2 : startsWith (trim pattern) (lit "./") = false).
  { apply (startsWith_meta_head _ 46%N [47%N]); [exact Hs | reflexivity]. }
  assert (E3 : startsWith (trim pattern) (lit "\.") = false).
  { apply (startsWith_meta_head _ 92%N [46%N]); [exact Hs | reflexivity]. }
  assert (E4 : startsWith (trim pattern) (lit ".") = false).
  { apply (startsWith_meta_head _ 46%N []); [exact Hs | reflexivity]. }
  rewrite extractLiteralPrefix_split.
  assert (E : stripAnchors pattern = trim pattern).
  { unfold stripAnchors. cbv zeta. rewrite E1, E2. reflexivity. }
  rewrite E. unfold scanFrom. rewrite E3, E4.
  apply (scanLiteral_plain (trim pattern) [] Hs).
Qed.

(** X12, witness: [ plainname ], between spaces. *)
Lemma plain_pattern_is_its_prefix_witness :
  extractLiteralPrefix (lit " plainname ") = lit "plainname".
Proof.
  rewrite (plain_pattern_is_its_prefix (lit " plainname ")).
  - reflexivity.
  - intros c Hc. simpl in Hc.
    repeat (destruct Hc as [<-|Hc]; [reflexivity|]). contradiction.
Defined.

Lemma scanLiteral_escaped (text out : jsstring) :
  scanLiteral false out (escapeRegex text) = out ++ text.
Proof.
  revert out; induction text as [|c text IH]; intros out.
  - rewrite app_nil_r. reflexivity.
  - unfold escapeRegex. cbn [flat_map]. fold (escapeRegex text).
    destruct (isRegexMetaChar c) eqn:Hc.
    + cbn [app scanLiteral]. rewrite N.eqb_refl. rewrite IH.
      rewrite <- app_assoc. reflexivity.
    + cbn [app scanLiteral]. rewrite (noMeta_not_backslash c Hc), Hc, IH.
      rewrite <- app_assoc. reflexivity.
Qed.

Lemma isWhiteSpace_not_meta (c : code_unit) :
  isRegexMetaChar c = true -> isWhiteSpace c = false.
Proof.
  unfold isRegexMetaChar. cbn [lit List.map list_ascii_of_string existsb].
  intros H.
  repeat (apply orb_true_iff in H; destruct H as [H|H];
          [apply N.eqb_eq in H; subst; reflexivity|]).
  discriminate.
Qed.

Lemma trim_escapeRegex (text : jsstring) :
  trimStart text = text ->
  noTrailingWhiteSpace text ->
  trim (escapeRegex text) = escapeRegex text.
Proof.
  intros Hs He.
  assert (Hn : noTrailingWhiteSpace (escapeRegex text)).
  { destruct (noTrailingWhiteSpace_last text He) as [->|[t [c [-> Hc]]]];
      [reflexivity|].
    unfold noTrailingWhiteSpace, escapeRegex. rewrite flat_map_app.
    cbn [flat_map]. rewrite app_nil_r.
    destruct (isRegexMetaChar c).
    - change [backslash; c] with ([backslash] ++ [c]). rewrite app_assoc.
      apply trimEnd_snoc; assumption.
    - apply trimEnd_snoc; assumption. }
  rewrite (trim_noTrailingWhiteSpace _ Hn).
  destruct (trimStart_fixed text Hs) as [->|[c [t [-> Hc]]]]; [reflexivity|].
  unfold escapeRegex. cbn [flat_map].
  destruct (isRegexMetaChar c); cbn [app trimStart]; [reflexivity|].
  rewrite Hc. reflexivity.
Qed.

(** X13.  Escaping round trip: for a text that is trimmed, the pattern
    that writes a backslash before each metacharacter of the text has the
    text itself as its literal prefix. *)
Theorem escaped_text_is_recovered (text : jsstring) :
  trimStart text = text ->
  noTrailingWhiteSpace text ->
  extractLiteralPrefix (escapeRegex text) = text.
Proof.
  intros Hs He. rewrite extractLiteralPrefix_split.
  assert (E : stripAnchors (escapeRegex text) = escapeRegex text).
  { unfold stripAnchors. rewrite (trim_escapeRegex text Hs He). cbv zeta.
    destruct text as [|c text]; [reflexivity|].
    unfold escapeRegex. cbn [flat_map]. fold (escapeRegex text).
    destruct (isRegexMetaChar c) eqn:Hc.
    - reflexivity.
    - assert (H94 : N.eqb c 94 = false).
      { destruct (N.eqb_spec c 94) as [->|_]; [discriminate Hc | reflexivity]. }
      assert (H46 : N.eqb c 46 = false).
      { destruct (N.eqb_spec c 46) as [->|_]; [discriminate Hc | reflexivity]. }
      cbn [app]. 
      change (startsWith (c :: escapeRegex text) (lit "^"))
        with (N.eqb c 94 && true).
      rewrite H94. cbn [andb].
      change (startsWith (c :: escapeRegex text) (lit "./"))
        with (N.eqb c 46 && startsWith (escapeRegex text) [47%N]).
      rewrite H46. reflexivity. }
  rewrite E. unfold scanFrom.
  destruct text as [|c text]; [reflexivity|].
  unfold escapeRegex. cbn [flat_map]. fold (escapeRegex text).
  destruct (isRegexMetaChar c) eqn:Hc.
  - cbn [app].
    change (startsWith (backslash :: c :: escapeRegex text) (lit "\."))
      with (N.eqb c 46 && true).
    change (startsWith (backslash :: c :: escapeRegex text) (lit "."))
      with false.
    destruct (N.eqb_spec c 46) as [->|Hdot]; cbn [andb skipn].
    + apply (scanLiteral_escaped text (lit ".")).
    + cbn [scanLiteral]. change (N.eqb backslash backslash) with true.
      cbv iota. apply (scanLiteral_escaped text ([] ++ [c])).
  - assert (H46 : N.eqb c 46 = false).
    { destruct (N.eqb_spec c 46) as [->|_]; [discriminate Hc | reflexivity]. }
    pose proof (noMeta_not_backslash c Hc) as H92.
    cbn [app].
    change (startsWith (c :: escapeRegex text) (lit "\."))
      with (N.eqb c backslash && startsWith (escapeRegex text) [46%N]).
    change (startsWith (c :: escapeRegex text) (lit "."))
      with (N.eqb c 46 && true).
    rewrite H92, H46. cbn [andb skipn scanLiteral]. rewrite H92, Hc.
    apply (scanLiteral_escaped text ([] ++ [c])).
Qed.

(** X13, witness: the text [.cfg/a+b (v1.2)]. *)
Lemma escaped_text_is_recovered_witness :
  escapeRegex (lit ".cfg/a+b (v1.2)") = lit "\.cfg/a\+b \(v1\.2\)"
  /\ extractLiteralPrefix (lit "\.cfg/a\+b \(v1\.2\)") = lit ".cfg/a+b (v1.2)".
Proof.
  split; [reflexivity|].
  apply (escaped_text_is_recovered (lit ".cfg/a+b (v1.2)")); reflexivity.
Defined.

Lemma trimStart_suffix (s : jsstring) : exists w, s = w ++ trimStart s.
Proof.
  induction s as [|c s [w IH]]; [exists []; reflexivity|]. simpl.
  destruct (isWhiteSpace c).
  - exists (c :: w). simpl. rewrite <- IH. reflexivity.
  - exists []. reflexivity.
Qed.

Lemma trimEnd_prefix (s : jsstring) : exists w, s = trimEnd s ++ w.
Proof.
  destruct (trimStart_suffix (rev s)) as [w Hw]. exists (rev w).
  unfold trimEnd. rewrite <- rev_app_distr, <- Hw, rev_involutive.
  reflexivity.
Qed.

Lemma startsWith_trimEnd_false (s q : jsstring) :
  startsWith s q = false -> startsWith (trimEnd s) q = false.
Proof.
  intros H. destruct (startsWith (trimEnd s) q) eqn:E; [|reflexivity].
  apply startsWith_spec in E. destruct E as [t Et].
  destruct (trimEnd_prefix s) as [w Hw].
  assert (startsWith s q = true).
  { apply startsWith_spec. exists (t ++ w). rewrite app_assoc, <- Et.
    exact Hw. }
  congruence.
Qed.

(** X14.  The anchors are ignored: for a pattern without leading white
    space that starts with neither [^] nor [./], putting [^], [./] or [^./]
    in front of it does not change its literal prefix. *)
Theorem leading_anchors_are_ignored (pattern : jsstring) :
  trimStart pattern = pattern ->
  startsWith pattern (lit "^") = false ->
  startsWith pattern (lit "./") = false ->
  extractLiteralPrefix (lit "^" ++ pattern) = extractLiteralPrefix pattern
  /\ extractLiteralPrefix (lit "./" ++ pattern)
     = extractLiteralPrefix pattern
  /\ extractLiteralPrefix (lit "^./" ++ pattern)
     = extractLiteralPrefix pattern.
Proof.
  intros Hs H1 H2.
  set (s := trimEnd pattern).
  assert (E1 : startsWith s (lit "^") = false)
    by (apply startsWith_trimEnd_false; assumption).
  assert (E2 : startsWith s (lit "./") = false)
    by (apply startsWith_trimEnd_false; assumption).
  assert (E0 : stripAnchors pattern = s).
  { unfold stripAnchors, trim. rewrite Hs. fold s. cbv zeta.
    rewrite E1, E2. reflexivity. }
  assert (Ea : stripAnchors (lit "^" ++ pattern) = s).
  { unfold stripAnchors, trim. change (lit "^" ++ pattern) with (94%N :: pattern).
    cbn [trimStart]. change (isWhiteSpace 94%N) with false. cbv iota.
    rewrite trimEnd_cons by reflexivity. fold s. cbv zeta.
    change (startsWith (94%N :: s) (lit "^")) with true. cbv iota.
    change (slice (94%N :: s) 1) with s. rewrite E2. reflexivity. }
  assert (Eb : stripAnchors (lit "./" ++ pattern) = s).
  { unfold stripAnchors, trim.
    change (lit "./" ++ pattern) with (46%N :: 47%N :: pattern).
    cbn [trimStart]. change (isWhiteSpace 46%N) with false. cbv iota.
    rewrite !trimEnd_cons by reflexivity. fold s. cbv zeta.
    change (startsWith (46%N :: 47%N :: s) (lit "^")) with false. cbv iota.
    change (startsWith (46%N :: 47%N :: s) (lit "./")) with true. cbv iota.
    reflexivity. }
  assert (Ec : stripAnchors (lit "^./" ++ pattern) = s).
  { unfold stripAnchors, trim.
    change (lit "^./" ++ pattern) with (94%N :: 46%N :: 47%N :: pattern).
    cbn [trimStart]. change (isWhiteSpace 94%N) with false. cbv iota.
    rewrite !trimEnd_cons by reflexivity. fold s. cbv zeta.
    change (startsWith (94%N :: 46%N :: 47%N :: s) (lit "^")) with true.
    cbv iota.
    change (slice (94%N :: 46%N :: 47%N :: s) 1) with (46%N :: 47%N :: s).
    change (startsWith (46%N :: 47%N :: s) (lit "./")) with true. cbv iota.
    reflexivity. }
  rewrite !extractLiteralPrefix_split, E0, Ea, Eb, Ec.
  repeat split.
Qed.

(** X14, witness: [.foo/bar.*] and its anchored forms. *)
Lemma leading_anchors_are_ignored_witness :
  extractLiteralPrefix (lit "^.foo/bar.*") = lit ".foo/bar"
  /\ extractLiteralPrefix (lit "./.foo/bar.*") = lit ".foo/bar"
  /\ extractLiteralPrefix (lit "^./.foo/bar.*") = lit ".foo/bar".
Proof.
  destruct (leading_anchors_are_ignored (lit ".foo/bar.*") eq_refl eq_refl
              eq_refl) as [H1 [H2 H3]].
  split; [exact H1|]. split; [exact H2 | exact H3].
Defined.

Lemma trimStart_allWhiteSpace (w : jsstring) :
  allWhiteSpace w -> trimStart w = [].
Proof.
  induction 1 as [|c w Hc _ IH]; [reflexivity|]. simpl. rewrite Hc.
  assumption.
Qed.

Lemma trimStart_app_allWhiteSpace (w s : jsstring) :
  allWhiteSpace w -> trimStart (w ++ s) = trimStart s.
Proof.
  induction 1 as [|c w Hc _ IH]; [reflexivity|]. simpl. rewrite Hc.
  assumption.
Qed.

Lemma trimEnd_app_allWhiteSpace (s w : jsstring) :
  allWhiteSpace w -> trimEnd (s ++ w) = trimEnd s.
Proof.
  intros Hw. unfold trimEnd. rewrite rev_app_distr.
  rewrite trimStart_app_allWhiteSpace; [reflexivity|].
  apply Forall_rev. assumption.
Qed.

Lemma trim_app_allWhiteSpace (s w : jsstring) :
  allWhiteSpace w -> trim (s ++ w) = trim s.
Proof.
  intros Hw. unfold trim. induction s as [|c s IH].
  - simpl. rewrite (trimStart_allWhiteSpace w Hw). reflexivity.
  - simpl. destruct (isWhiteSpace c); [assumption|].
    apply (trimEnd_app_allWhiteSpace (c :: s) w Hw).
Qed.

(** X15.  White space around a pattern does not change its literal
    prefix. *)
Theorem padding_is_ignored (before pattern after : jsstring) :
  allWhiteSpace before ->
  allWhiteSpace after ->
  extractLiteralPrefix (before ++ pattern ++ after)
  = extractLiteralPrefix pattern.
Proof.
  intros Hb Ha.
  assert (E : trim (before ++ pattern ++ after) = trim pattern).
  { unfold trim. rewrite trimStart_app_allWhiteSpace by assumption.
    apply (trim_app_allWhiteSpace pattern after Ha). }
  unfold extractLiteralPrefix. rewrite E. reflexivity.
Qed.

(** X15, witness: a pattern between a tab and two spaces. *)
Lemma padding_is_ignored_witness :
  extractLiteralPrefix ([9%N] ++ lit "^\.foo/bar.*" ++ lit "  ")
  = extractLiteralPrefix (lit "^\.foo/bar.*").
Proof.
  apply (padding_is_ignored [9%N] (lit "^\.foo/bar.*") (lit "  ")).
  - repeat constructor.
  - repeat constructor.
Defined.

(** ** Hidden paths *)

Lemma split_not_nil (s : jsstring) (sep : code_unit) : split s sep <> [].
Proof.
  destruct s as [|c s]; simpl; [discriminate|].
  destruct (N.eqb c sep); [discriminate|].
  destruct (split s sep); discriminate.
Qed.

Lemma split_app (a b : jsstring) (sep : code_unit) :
  split (a ++ sep :: b) sep = split a sep ++ split b sep.
Proof.
  induction a as [|c a IH]; simpl.
  - rewrite N.eqb_refl. reflexivity.
  - destruct (N.eqb c sep); [rewrite IH; reflexivity|].
    rewrite IH. pose proof (split_not_nil a sep) as Hn.
    destruct (split a sep) as [|part parts]; [contradiction | reflexivity].
Qed.

Lemma isHiddenPathPrefix_segments (p : jsstring) :
  isHiddenPathPrefix p =
  existsb (fun part => startsWith part (lit ".")) (split p slash).
Proof.
  unfold isHiddenPathPrefix.
  destruct (startsWith p (lit ".")) eqn:E; [|reflexivity].
  apply startsWith_spec in E. destruct E as [t ->].
  change (lit "." ++ t) with (46%N :: t). simpl.
  destruct (split t slash); reflexivity.
Qed.

(** X16.  A path is hidden when one of its segments starts with a dot: the
    first test of [isHiddenPathPrefix] is subsumed by the second, and the
    path [a/b] is hidden if and only if [a] or [b] is. *)
Theorem hidden_path_by_segments (a b : jsstring) :
  isHiddenPathPrefix a =
  existsb (fun part => startsWith part (lit ".")) (split a slash)
  /\ isHiddenPathPrefix (a ++ slash :: b)
     = isHiddenPathPrefix a || isHiddenPathPrefix b.
Proof.
  split; [apply isHiddenPathPrefix_segments|].
  rewrite !isHiddenPathPrefix_segments, split_app. apply existsb_app.
Qed.

(** ** Patterns without backslash *)

Lemma scanLiteral_noBackslash (rest out : jsstring) :
  ~ In backslash rest ->
  exists body tail,
    rest = body ++ tail
    /\ scanLiteral false out rest = out ++ body
    /\ (forall c, In c body -> isRegexMetaChar c = false)
    /\ (tail = [] \/ exists c t, tail = c :: t /\ isRegexMetaChar c = true).
Proof.
  revert out; induction rest as [|c rest IH]; intros out Hb.
  - exists [], [].
    split; [reflexivity|]. split; [symmetry; apply app_nil_r|].
    split; [intros c []|]. left; reflexivity.
  - assert (Hc : N.eqb c backslash = false).
    { apply N.eqb_neq. intros ->. apply Hb. left; reflexivity. }
    simpl. rewrite Hc. destruct (isRegexMetaChar c) eqn:Hm.
    + exists [], (c :: rest).
      split; [reflexivity|]. split; [symmetry; apply app_nil_r|].
      split; [intros d []|]. right. exists c, rest.
      split; [reflexivity | assumption].
    + destruct (IH (out ++ [c])) as [body [tail [E [Hscan [Hbody Htail]]]]].
      { intros H. apply Hb. right; assumption. }
      exists (c :: body), tail. rewrite Hscan, <- app_assoc, E.
      split; [reflexivity|]. split; [reflexivity|].
      split; [|assumption].
      intros d [<-|Hd]; [assumption | apply Hbody; assumption].
Qed.

Lemma stripAnchors_in (pattern : jsstring) (x : code_unit) :
  In x (stripAnchors pattern) -> In x pattern.
Proof.
  unfold stripAnchors, slice. cbv zeta. intros H. apply trim_in.
  destruct (startsWith (trim pattern) (lit "^"));
    destruct (startsWith _ (lit "./")) in H;
    repeat (apply skipn_in in H); assumption.
Qed.

(** X17.  For a pattern without backslash the result is a literal prefix
    in the strict sense: it is an initial part of the pattern (once
    trimmed and without its anchors), what follows it is nothing or starts
    with a metacharacter, and apart from a leading dot it holds no
    metacharacter. *)
Theorem prefix_of_unescaped_pattern (pattern : jsstring) :
  ~ In backslash pattern ->
  exists body tail,
    stripAnchors pattern = extractLiteralPrefix pattern ++ tail
    /\ (extractLiteralPrefix pattern = body
        \/ extractLiteralPrefix pattern = lit "." ++ body)
    /\ (forall c, In c body -> isRegexMetaChar c = false)
    /\ (tail = [] \/ exists c t, tail = c :: t /\ isRegexMetaChar c = true).
Proof.
  intros Hb. rewrite extractLiteralPrefix_split.
  assert (Hs : ~ In backslash (stripAnchors pattern)).
  { intros H. apply Hb. apply stripAnchors_in. assumption. }
  generalize dependent (stripAnchors pattern). intros s Hs.
  unfold scanFrom.
  rewrite (proj1 (startsWith_escaped_dot s Hs)).
  destruct (startsWith s (lit ".")) eqn:E.
  - apply startsWith_spec in E. destruct E as [t ->].
    change (skipn 1 (lit "." ++ t)) with t.
    destruct (scanLiteral_noBackslash t (lit "."))
      as [body [tail [Et [Hscan [Hbody Htail]]]]].
    { intros H. apply Hs. apply in_or_app. right; assumption. }
    exists body, tail. rewrite Hscan.
    split; [rewrite <- app_assoc, <- Et; reflexivity|].
    split; [right; reflexivity|]. split; assumption.
  - change (skipn 0 s) with s.
    destruct (scanLiteral_noBackslash s []) as
      [body [tail [Et [Hscan [Hbody Htail]]]]]; [assumption|].
    exists body, tail. rewrite Hscan. cbn [app].
    split; [assumption|]. split; [left; reflexivity|]. split; assumption.
Qed.

(** X17, witness: [^.obsidian/snippets/*.css]. *)
Lemma prefix_of_unescaped_pattern_witness :
  extractLiteralPrefix (lit "^.obsidian/snippets/*.css")
  = lit ".obsidian/snippets/"
  /\ exists body tail,
       stripAnchors (lit "^.obsidian/snippets/*.css")
       = extractLiteralPrefix (lit "^.obsidian/snippets/*.css") ++ tail
       /\ (extractLiteralPrefix (lit "^.obsidian/snippets/*.css") = body
           \/ extractLiteralPrefix (lit "^.obsidian/snippets/*.css")
              = lit "." ++ body)
       /\ (forall c, In c body -> isRegexMetaChar c = false)
       /\ (tail = []
           \/ exists c t, tail = c :: t /\ isRegexMetaChar c = true).
Proof.
  split; [reflexivity|].
  apply (prefix_of_unescaped_pattern (lit "^.obsidian/snippets/*.css")).
  simpl. intros H.
  repeat (destruct H as [H|H]; [discriminate H|]). contradiction.
Defined.

(** ** The key of the plugin's directory *)

(** X18.  For a plugin id that is not empty and does not end with a slash,
    the key of a folder passes [isPluginDirItself] exactly when the path of
    the folder is the plugin id or ends with a slash and the plugin id, at
    whatever depth. *)
Theorem plugin_dir_by_last_segment (x pluginId : jsstring) :
  pluginId <> [] ->
  endsWith pluginId [slash] = false ->
  isPluginDirItself (x ++ [slash]) pluginId
  = JS.eqb x pluginId || endsWith x (slash :: pluginId).
Proof.
  intros Hne Hslash.
  destruct pluginId as [|c0 p0] using rev_ind; [contradiction|]. clear IHp0.
  rename c0 into c, p0 into p.
  assert (Hc : N.eqb slash c = false).
  { change [slash] with ([] ++ [slash]) in Hslash.
    rewrite endsWith_snoc in Hslash. apply andb_false_iff in Hslash.
    destruct Hslash as [H|H]; [|discriminate H].
    rewrite N.eqb_sym. assumption. }
  unfold isPluginDirItself.
  rewrite (eqb_snoc x p slash c), Hc.
  rewrite (eqb_snoc x (p ++ [c]) slash slash), N.eqb_refl.
  rewrite (app_comm_cons p [c] slash).
  rewrite (endsWith_snoc x (slash :: p) slash c), Hc.
  rewrite <- (app_comm_cons p [c] slash).
  rewrite (app_comm_cons (p ++ [c]) [slash] slash).
  rewrite (endsWith_snoc x (slash :: p ++ [c]) slash slash), N.eqb_refl.
  cbn [andb orb]. rewrite orb_false_r. reflexivity.
Qed.

(** X18, witness: the plugin's directory in the configuration folder. *)
Lemma plugin_dir_by_last_segment_witness :
  isPluginDirItself (lit ".obsidian/plugins/remotely-save" ++ [slash])
    (lit "remotely-save") = true.
Proof.
  rewrite (plugin_dir_by_last_segment (lit ".obsidian/plugins/remotely-save")
             (lit "remotely-save")).
  - reflexivity.
  - discriminate.
  - reflexivity.
Defined.

(** ** The bookmarks-only listing inside the full one *)

Lemma loopOf_stop_within_full (F : Type) (fetch : jsstring -> Result F)
  (emit : F -> list Entity) (next : F -> list jsstring)
  (stop : nat -> bool) (fuel1 : nat) :
  forall (fuel2 : nat) (q : Queue.t) (contents : list Entity) (r1 r2 : nat)
         (out1 out2 : list Entity),
    loopOf (roundOf fetch emit next) stop fuel1 q contents r1
    = Some (Ok out1) ->
    loopOf (roundOf fetch emit next) (fun _ => false) fuel2 q contents r2
    = Some (Ok out2) ->
    exists more, out2 = out1 ++ more.
Proof.
  induction fuel1 as [|fuel1 IH]; intros fuel2 q contents r1 r2 out1 out2 H1 H2;
    destruct q as [|x q]; simpl in H1; try discriminate.
  - destruct fuel2; simpl in H2; inversion H1; inversion H2; subst;
      exists []; rewrite app_nil_r; reflexivity.
  - destruct fuel2; simpl in H2; inversion H1; inversion H2; subst;
      exists []; rewrite app_nil_r; reflexivity.
  - destruct fuel2 as [|fuel2]; [discriminate|]. cbn [loopOf] in H2.
    destruct (roundOf fetch emit next (x :: q) contents)
      as [[q' contents']|e]; [|discriminate].
    destruct (stop r1).
    + inversion H1; subst.
      apply loopOf_roundOf_grows in H2. exact H2.
    + eapply IH; eassumption.
Qed.

(** X19.  What [listFilesInObsFolder] returns with [bookmarksOnly] is part
    of what it returns without, when both calls return. *)
Theorem bookmarksOnly_within_full_listing
  (skip : jsstring -> list jsstring -> bool) (fuel1 fuel2 : nat)
  (configDir : jsstring) (vault : Vault) (pluginId : jsstring)
  (out1 out2 : list Entity) :
  listFilesInObsFolder skip fuel1 configDir vault pluginId true
  = Some (Ok out1) ->
  listFilesInObsFolder skip fuel2 configDir vault pluginId false
  = Some (Ok out2) ->
  forall e, In e out1 -> In e out2.
Proof.
  intros H1 H2. apply listFilesInObsFolder_contents in H1, H2.
  destruct H1 as [c1 [L1 ->]]. destruct H2 as [c2 [L2 ->]].
  change (fun r : nat => false && (1 <? r)) with (fun _ : nat => false) in L2.
  destruct (loopOf_stop_within_full _ _ _ _ _ _ _ _ _ _ _ _ _ L1 L2)
    as [more ->].
  intros e He. apply filter_In in He. apply in_or_app. left. apply He.
Qed.

(** X19, witness: [configVault]; its [bookmarks.json], returned with
    [bookmarksOnly], is in the full listing. *)
Lemma bookmarksOnly_within_full_listing_witness :
  exists out2,
    listFilesInObsFolder specialNameSkipPredicate 4 (lit ".obsidian")
      configVault (lit "remotely-save") false = Some (Ok out2)
    /\ In (entityOf (lit ".obsidian/bookmarks.json")
             {| type := lit "file"; mtime := Some 1700000000000%Z;
                size := 42%Z |}) out2.
Proof.
  eexists. split; [vm_compute; reflexivity|].
  apply (bookmarksOnly_within_full_listing specialNameSkipPredicate 3 4
           (lit ".obsidian") configVault (lit "remotely-save") _ _
           eq_refl eq_refl).
  right; left; reflexivity.
Defined.

(** ** Cycles *)

Lemma reach_incl (F : Type) (fetch : jsstring -> Result F)
  (next : F -> list jsstring) (q1 q2 : list jsstring) (x : jsstring) :
  incl q1 q2 -> reach fetch next q1 x -> reach fetch next q2 x.
Proof.
  intros Hi. induction 1 as [x Hx|y f x _ IH Hf Hx].
  - apply reach_seed. apply Hi. assumption.
  - eapply reach_child; eassumption.
Qed.

Lemma reach_after_round (F : Type) (fetch : jsstring -> Result F)
  (emit : F -> list Entity) (next : F -> list jsstring)
  (q : Queue.t) (contents : list Entity) (q' : Queue.t)
  (contents' : list Entity) (x : jsstring) :
  roundOf fetch emit next q contents = Ok (q', contents') ->
  reach fetch next q x ->
  In x q \/ reach fetch next q' x.
Proof.
  intros Hr. destruct (roundOf_Ok _ _ _ _ _ _ _ _ Hr) as [r [H2 [-> _]]].
  induction 1 as [x Hx|y f x _ IHy Hf Hx]; [left; assumption|].
  right. destruct IHy as [Hy|Hy].
  - destruct (fetched_in _ _ _ _ _ H2 Hy) as [f' [Hf' Hin]].
    assert (f' = f) by congruence; subst.
    apply reach_seed, in_flat_map. exists f; split; assumption.
  - eapply reach_child; eassumption.
Qed.

(** A loop that never stops early does not return when a reachable path
    is reachable from what it enqueues. *)
Lemma loopOf_cycle (F : Type) (fetch : jsstring -> Result F)
  (emit : F -> list Entity) (next : F -> list jsstring)
  (x : jsstring) (f : F) (fuel : nat) :
  fetch x = Ok f ->
  reach fetch next (next f) x ->
  forall (q : Queue.t) (contents : list Entity) (iterRound : nat)
         (out : list Entity),
    reach fetch next q x ->
    loopOf (roundOf fetch emit next) (fun _ => false) fuel q contents
      iterRound <> Some (Ok out).
Proof.
  intros Hf Hcycle.
  induction fuel as [|fuel IH]; intros q contents iterRound out Hx Hl;
    destruct q as [|a q]; simpl in Hl; try discriminate;
    try (exact (reach_nil _ _ _ _ Hx)).
  destruct (roundOf fetch emit next (a :: q) contents)
    as [[q' contents']|e] eqn:Er; [|discriminate].
  apply (IH q' contents' (S iterRound) out); [|assumption].
  destruct (reach_after_round _ _ _ _ _ _ _ _ _ Er Hx) as [Hin|Hr];
    [|assumption].
  destruct (roundOf_Ok _ _ _ _ _ _ _ _ Er) as [r [H2 [-> _]]].
  destruct (fetched_in _ _ _ _ _ H2 Hin) as [f' [Hf' Hfr]].
  assert (f' = f) by congruence; subst.
  apply (reach_incl _ _ _ (next f)); [|assumption].
  intros c Hc. apply in_flat_map. exists f; split; assumption.
Qed.

Lemma fetchAdapter_folder (vault : Vault) (z : jsstring) (statRes : Stat)
  (c : jsstring) :
  statFix vault z = Resolved statRes ->
  isFolderStat statRes = true ->
  In c (childrenOf vault z) ->
  exists f, fetchAdapter vault z = Ok f /\ In c (nextAdapter f).
Proof.
  intros Hs Hf Hc. unfold childrenOf in Hc.
  destruct (adapter_list vault z) as [listed|] eqn:El; [|contradiction].
  unfold fetchAdapter, listChildren. rewrite Hs, Hf, El.
  eexists. split; [reflexivity | exact Hc].
Qed.

Lemma descendantOf_fetched (vault : Vault) (x y : jsstring) :
  descendantOf vault x y -> exists f, fetchAdapter vault x = Ok f.
Proof.
  induction 1 as [st c Hs Hf Hc|z st c _ IH Hz Hf Hc]; [|exact IH].
  destruct (fetchAdapter_folder vault x st c Hs Hf Hc) as [f [H _]]. eauto.
Qed.

Lemma descendantOf_reach (vault : Vault) (x y : jsstring)
  (f : option Fetched) :
  fetchAdapter vault x = Ok f ->
  descendantOf vault x y ->
  reach (fetchAdapter vault) nextAdapter (nextAdapter f) y.
Proof.
  intros Hx. induction 1 as [st c Hs Hf Hc|z st c _ IH Hz Hf Hc].
  - destruct (fetchAdapter_folder vault x st c Hs Hf Hc) as [f' [Hf' Hin]].
    assert (f' = f) by congruence; subst.
    apply reach_seed. exact Hin.
  - destruct (fetchAdapter_folder vault z st c Hz Hf Hc) as [fz [Hfz Hin]].
    apply (reach_child _ _ _ z fz c IH Hfz Hin).
Qed.

(** X20.  There is no cycle detection: when a reachable path with
    metadata lies below itself (a folder listed, directly or not, by one of
    the folders below it), no call of [listFilesByAdapterPaths] returns a
    list, however long it runs. *)
Theorem cycle_never_returns (vault : Vault) (roots : list jsstring)
  (x : jsstring) (statRes : Stat) (fuel : nat) (out : list Entity) :
  reachableAdapter vault roots x ->
  statFix vault x = Resolved statRes ->
  descendantOf vault x x ->
  listFilesByAdapterPaths fuel roots vault <> Some (Ok out).
Proof.
  intros Hx Hs Hcycle. rewrite listFilesByAdapterPaths_Ok.
  destruct (descendantOf_fetched _ _ _ Hcycle) as [f Hf].
  apply (loopOf_cycle _ (fetchAdapter vault) emitAdapter nextAdapter x f).
  - exact Hf.
  - apply (descendantOf_reach vault x x f); assumption.
  - apply reach_reachableAdapter. assumption.
Qed.

(** X20, witness: two folders that list each other. *)
Lemma cycle_never_returns_witness :
  listFilesByAdapterPaths 6 [lit ".a"] cyclicVault = None.
Proof.
  destruct (listFilesByAdapterPaths 6 [lit ".a"] cyclicVault)
    as [[out|e]|] eqn:E; [exfalso | exfalso | reflexivity].
  - revert E.
    apply (cycle_never_returns cyclicVault [lit ".a"] (lit ".a")
             {| type := lit "folder"; mtime := Some 0%Z; size := 0%Z |}
             6 out).
    + apply reachable_root. left; reflexivity.
    + reflexivity.
    + apply (descendant_below _ _ (lit ".a/b")
               {| type := lit "folder"; mtime := Some 0%Z; size := 0%Z |}).
      * apply (descendant_child _ _
                 {| type := lit "folder"; mtime := Some 0%Z; size := 0%Z |}).
        -- reflexivity.
        -- reflexivity.
        -- left; reflexivity.
      * reflexivity.
      * reflexivity.
      * left; reflexivity.
  - vm_compute in E. discriminate E.
Defined.
